(** * Sveltia CMS: file classification, repository sync and i18n configuration

    A shallow embedding of
    - [src/lib/services/backends/shared/data.js]
      ([createFileList], [fetchAndParseFiles]) and
    - [src/lib/services/contents/i18n.js] ([getI18nConfig]),
    followed by the properties established about them. *)

From Stdlib Require Import String Ascii List Bool Arith NArith Lia.
From stdpp Require Import base option list gmap strings.

Set Default Proof Using "Type".
Local Open Scope string_scope.
Local Open Scope list_scope.

(** ** JavaScript strings, arrays and object properties

    A string is the sequence of its code units, taken in the 8-bit range
    ([ascii]); the operations below are the ones the sources call. *)

Module JS.

(** [s.split(sep)] for a one-character separator: never empty. *)
Fixpoint split (sep : ascii) (s : string) : list string :=
  match s with
  | EmptyString => [EmptyString]
  | String c s' =>
      if Ascii.eqb c sep then EmptyString :: split sep s'
      else match split sep s' with
           | [] => [String c EmptyString]
           | h :: t => String c h :: t
           end
  end.

(** [parts.join(sep)]. *)
Fixpoint join (sep : string) (parts : list string) : string :=
  match parts with
  | [] => EmptyString
  | [x] => x
  | x :: rest => (x ++ sep ++ join sep rest)%string
  end.

(** [parts.pop()] on the result of [split] (which has a last element). *)
Definition pop (parts : list string) : string := List.last parts EmptyString.

(** [s.startsWith(p)]. *)
Definition startsWith (s p : string) : bool := String.prefix p s.

(** [array.includes(x)] on an array of strings. *)
Definition includes (l : list string) (x : string) : bool :=
  existsb (String.eqb x) l.

(** [array.findLast(p)]: the array is visited from its end. *)
Definition findLast {A : Type} (p : A -> bool) (l : list A) : option A :=
  List.find p (rev l).

(** Truthiness of a string: only the empty string is falsy. *)
Definition truthy (s : string) : bool := negb (String.eqb s EmptyString).

(** Truthiness of a possibly [undefined] string. *)
Definition truthyOpt (o : option string) : bool :=
  match o with Some s => truthy s | None => false end.

(** Line terminators, which [.] of a regular expression does not match. *)
Definition isLineTerminator (c : ascii) : bool :=
  Ascii.eqb c "010"%char || Ascii.eqb c "013"%char.

(** No code unit of the string is a line terminator. *)
Fixpoint noLineTerminator (s : string) : bool :=
  match s with
  | EmptyString => true
  | String c s' => negb (isLineTerminator c) && noLineTerminator s'
  end.

(** Greedy [.*] followed by [/]: the longest prefix of [s] without line
    terminator that is followed by a slash. *)
Fixpoint dotsThenSlash (s : string) : option string :=
  match s with
  | EmptyString => None
  | String c s' =>
      if isLineTerminator c then None
      else match dotsThenSlash s' with
           | Some p => Some (String c p)
           | None => if Ascii.eqb c "/"%char then Some EmptyString else None
           end
  end.

(** [path.match(/^(.+)\//)?.[1]]: the capture, [None] for [undefined]. *)
Definition matchEnclosingDir (path : string) : option string :=
  match path with
  | EmptyString => None
  | String c s' =>
      if isLineTerminator c then None
      else option_map (String c) (dotsThenSlash s')
  end.

(** An own property of an object literal: missing, present with the value
    [undefined], or present with a value. *)
Inductive field (A : Type) : Type :=
| Absent
| Undefined
| Value (a : A).
Arguments Absent {A}.
Arguments Undefined {A}.
Arguments Value {A} a.

(** Reading [o.f]: [None] stands for [undefined]. *)
Definition read {A : Type} (f : field A) : option A :=
  match f with Value a => Some a | _ => None end.

(** The property [f] of [target] after [Object.assign(target, source)]. *)
Definition assignField {A : Type} (target source : field A) : field A :=
  match source with Absent => target | _ => source end.

(** The property written by [{ f: x }] where [x] may be [undefined]. *)
Definition written {A : Type} (o : option A) : field A :=
  match o with Some a => Value a | None => Undefined end.

(** [a ?? b] on possibly [undefined] values. *)
Definition nullish {A : Type} (a b : option A) : option A :=
  match a with Some _ => a | None => b end.

(** [s.includes(c)] for a one-character string [c]. *)
Fixpoint occurs (c : ascii) (s : string) : bool :=
  match s with
  | EmptyString => false
  | String d s' => Ascii.eqb d c || occurs c s'
  end.

End JS.

(** ** Asynchronous code over mutable stores

    A task runs on the stores (a state [S]); awaiting a promise that rejects
    aborts it ([None]), the writes made until then remain. *)

Definition Task (S A : Type) : Type := S -> option A * S.

Definition ret {S A : Type} (a : A) : Task S A := fun s => (Some a, s).

Definition bind {S A B : Type} (m : Task S A) (k : A -> Task S B) : Task S B :=
  fun s => match m s with
           | (Some a, s') => k a s'
           | (None, s') => (None, s')
           end.

Declare Scope task_scope.
Delimit Scope task_scope with task.
Notation "'let!' x ':=' m 'in' k" := (bind m (fun x => k))
  (at level 10, x name, m at level 200, k at level 200, only parsing) : task_scope.

(** ** Data model of [backends/shared/data.js] *)

(** Modelled from the spec: the type of the elements of the
    [allEntryFolders] store is declared outside these sources.  An entry
    folder is either a set of literal paths, [filePathMap] (locale to path),
    or a folder prefix, [folderPath]; [createFileList] reads these two
    properties, both optional, and passes the folder to [getFileExtension]
    for the expected extension. *)
Record CollectionEntryFolder : Type := {
  collectionName : string;
  filePathMap : option (list (string * string));
  folderPath : option string;
}.

(** Modelled from the spec: the type of the elements of the
    [allAssetFolders] store is declared outside these sources.  An asset
    folder has an internal path and the flag [entryRelative]. *)
Record CollectionAssetFolder : Type := {
  assetCollectionName : option string;
  internalPath : string;
  entryRelative : bool;
}.

(** [Object.values(filePathMap ?? {})]. *)
Definition filePathValues (c : CollectionEntryFolder) : list string :=
  match filePathMap c with
  | Some m => List.map snd m
  | None => []
  end.

Section Backend.

(** Commit information of a file ([meta]), parsed entries and assets. *)
Context {Meta Entry Asset : Type}.

(** Modelled from the spec: the types of the file descriptors, of the
    cache records and of the object [fetchFileContents] returns are declared
    outside these sources.  A record holds the content hash [sha], the
    commit information [meta], and optionally [text] and [size]; these are
    the properties a file carries besides its path. *)
Record FileData : Type := {
  sha : JS.field string;
  size : JS.field N;
  text : JS.field string;
  meta : JS.field Meta;
}.

(** [BaseFileListItem]: [{ path, ...data }]. *)
Record BaseFileListItem : Type := {
  path : string;
  data : FileData;
}.

(** The [type] and [config] properties added by [createFileList]. *)
Inductive FileType : Type :=
| entry (config : CollectionEntryFolder)
| asset (config : CollectionAssetFolder).

(** [BaseEntryListItem | BaseAssetListItem]: [{ ...fileInfo, type, config }]. *)
Record ListItem : Type := {
  fileInfo : BaseFileListItem;
  type : FileType;
}.

Definition itemPath (i : ListItem) : string := path (fileInfo i).

Record FileList : Type := {
  entryFiles : list ListItem;
  assetFiles : list ListItem;
  allFiles : list ListItem;
  count : nat;
}.

(** *** [createFileList] *)

(** The stores read with [get], and [getFileExtension] of
    [contents/parser], which is not part of these sources. *)
Variable allEntryFolders : list CollectionEntryFolder.
Variable allAssetFolders : list CollectionAssetFolder.
Variable getFileExtension : CollectionEntryFolder -> string.

(** The callback given to [get(allEntryFolders).findLast]. *)
Definition entryFolderMatches (path : string) (c : CollectionEntryFolder) : bool :=
  if JS.truthyOpt (folderPath c)
  then JS.startsWith path (default EmptyString (folderPath c))
  else JS.includes (filePathValues c) path.

(** The callback given to [get(allAssetFolders).findLast]. *)
Definition assetFolderMatches (path : string) (c : CollectionAssetFolder) : bool :=
  if entryRelative c
  then JS.startsWith path (internalPath c ++ "/")%string
  else match JS.matchEnclosingDir path with
       | Some dir => String.eqb dir (internalPath c)
       | None => false
       end.

(** The body of [files.forEach], on the two arrays it pushes to. *)
Definition classifyFile (acc : list ListItem * list ListItem)
    (fileInfo : BaseFileListItem) : list ListItem * list ListItem :=
  let '(entryFiles, assetFiles) := acc in
  let path := path fileInfo in
  let name := JS.pop (JS.split "/" path) in
  let extension := JS.pop (JS.split "." name) in
  let entryFolderConfig := JS.findLast (entryFolderMatches path) allEntryFolders in
  let mediaFolderConfig := JS.findLast (assetFolderMatches path) allAssetFolders in
  let entryFiles :=
    match entryFolderConfig with
    | Some config =>
        if JS.includes (filePathValues config) path
           || String.eqb extension (getFileExtension config)
        then entryFiles ++ [{| fileInfo := fileInfo; type := entry config |}]
        else entryFiles
    | None => entryFiles
    end in
  let assetFiles :=
    match mediaFolderConfig with
    | Some config =>
        if negb (JS.startsWith name "+")
           && negb (existsb (fun e => String.eqb (itemPath e) path) entryFiles)
        then assetFiles ++ [{| fileInfo := fileInfo; type := asset config |}]
        else assetFiles
    | None => assetFiles
    end in
  (entryFiles, assetFiles).

Definition createFileList (files : list BaseFileListItem) : FileList :=
  let '(entryFiles, assetFiles) := fold_left classifyFile files ([], []) in
  let allFiles := entryFiles ++ assetFiles in
  {| entryFiles := entryFiles;
     assetFiles := assetFiles;
     allFiles := allFiles;
     count := length allFiles |}.

(** *** The stores and collaborators of [fetchAndParseFiles] *)

(** The calls a sync makes to its collaborators and the writes it sends to
    the two databases, in the order they are made. *)
Inductive Call : Type :=
| FetchDefaultBranchName
| FetchLastCommitHash (branch : string)
| FetchFileList (branch : string)
| FetchFileContents (branch : string) (fetchingFiles : list ListItem)
| MetaSet (hash : string)
| SaveEntries (entries : list (string * FileData))
| DeleteEntries (paths : list string).

(** What a sync reads and writes: the key [last_commit_hash] of the [meta]
    database, the records of the [file-cache] database in the order
    [entries()] lists them, [repository.branch], the three Svelte stores,
    and the calls made so far (most recent last). *)
Record World : Type := {
  lastCommitHash : option string;
  fileCache : list (string * FileData);
  repositoryBranch : option string;
  allEntries : list Entry;
  allAssets : list Asset;
  dataLoaded : bool;
  calls : list Call;
}.

Definition logCall (c : Call) (w : World) : World :=
  {| lastCommitHash := lastCommitHash w; fileCache := fileCache w;
     repositoryBranch := repositoryBranch w; allEntries := allEntries w;
     allAssets := allAssets w; dataLoaded := dataLoaded w;
     calls := calls w ++ [c] |}.

Definition withLastCommitHash (h : option string) (w : World) : World :=
  {| lastCommitHash := h; fileCache := fileCache w;
     repositoryBranch := repositoryBranch w; allEntries := allEntries w;
     allAssets := allAssets w; dataLoaded := dataLoaded w; calls := calls w |}.

Definition withFileCache (c : list (string * FileData)) (w : World) : World :=
  {| lastCommitHash := lastCommitHash w; fileCache := c;
     repositoryBranch := repositoryBranch w; allEntries := allEntries w;
     allAssets := allAssets w; dataLoaded := dataLoaded w; calls := calls w |}.

Definition withRepositoryBranch (b : option string) (w : World) : World :=
  {| lastCommitHash := lastCommitHash w; fileCache := fileCache w;
     repositoryBranch := b; allEntries := allEntries w;
     allAssets := allAssets w; dataLoaded := dataLoaded w; calls := calls w |}.

Definition withAllEntries (e : list Entry) (w : World) : World :=
  {| lastCommitHash := lastCommitHash w; fileCache := fileCache w;
     repositoryBranch := repositoryBranch w; allEntries := e;
     allAssets := allAssets w; dataLoaded := dataLoaded w; calls := calls w |}.

Definition withAllAssets (a : list Asset) (w : World) : World :=
  {| lastCommitHash := lastCommitHash w; fileCache := fileCache w;
     repositoryBranch := repositoryBranch w; allEntries := allEntries w;
     allAssets := a; dataLoaded := dataLoaded w; calls := calls w |}.

Definition withDataLoaded (d : bool) (w : World) : World :=
  {| lastCommitHash := lastCommitHash w; fileCache := fileCache w;
     repositoryBranch := repositoryBranch w; allEntries := allEntries w;
     allAssets := allAssets w; dataLoaded := d; calls := calls w |}.

(** The arguments of [fetchAndParseFiles] other than [repository].  The
    collaborators close over [repository], whose [branch] the sync may set:
    they are given the branch; [None] is a rejected promise. *)
Record Args : Type := {
  fetchDefaultBranchName : option string;
  fetchLastCommitHash : string -> option string;
  fetchFileList : string -> option (list BaseFileListItem);
  fetchFileContents : string -> list ListItem -> option (gmap string FileData);
}.

(** [await f()] for a collaborator [f]. *)
Definition await {A : Type} (c : Call) (result : option A) : Task World A :=
  fun w => (result, logCall c w).

(** [IndexedDB] of the package [@sveltia/utils/storage], an object store
    keyed by strings: [get], [set], [entries], [saveEntries],
    [deleteEntries].  A write takes effect where it is called; the records
    keep their order when others are deleted, and a new record is put at
    the end (the store itself lists records by key: no property below
    depends on where a saved record stands).  The operations of the store
    always settle here, as do the parsers: a task that fails is one in which
    a collaborator of [Args] rejects, and what a sync does when the store
    rejects is not modelled. *)
Definition metaDB_get : Task World (option string) :=
  fun w => (Some (lastCommitHash w), w).

Definition metaDB_set (hash : string) : Task World unit :=
  fun w => (Some tt, withLastCommitHash (Some hash) (logCall (MetaSet hash) w)).

Definition cacheDB_entries : Task World (list (string * FileData)) :=
  fun w => (Some (fileCache w), w).

Definition hasKey (k : string) (db : list (string * FileData)) : bool :=
  existsb (fun e => String.eqb (fst e) k) db.

Definition saveEntry (db : list (string * FileData)) (e : string * FileData)
    : list (string * FileData) :=
  if hasKey (fst e) db
  then List.map (fun e' => if String.eqb (fst e') (fst e) then e else e') db
  else db ++ [e].

Definition saveEntries (es db : list (string * FileData)) : list (string * FileData) :=
  fold_left saveEntry es db.

Definition deleteEntries (paths : list string) (db : list (string * FileData))
    : list (string * FileData) :=
  List.filter (fun e => negb (JS.includes paths (fst e))) db.

(** The record stored under a key. *)
Definition getEntry (k : string) (db : list (string * FileData)) : option FileData :=
  option_map snd (List.find (fun e => String.eqb (fst e) k) db).

Definition cacheDB_saveEntries (es : list (string * FileData)) : Task World unit :=
  fun w => (Some tt, withFileCache (saveEntries es (fileCache w)) (logCall (SaveEntries es) w)).

Definition cacheDB_deleteEntries (paths : list string) : Task World unit :=
  fun w => (Some tt, withFileCache (deleteEntries paths (fileCache w)) (logCall (DeleteEntries paths) w)).

Definition repository_branch : Task World (option string) :=
  fun w => (Some (repositoryBranch w), w).

Definition repository_setBranch (b : string) : Task World unit :=
  fun w => (Some tt, withRepositoryBranch (Some b) w).

Definition allEntries_set (e : list Entry) : Task World unit :=
  fun w => (Some tt, withAllEntries e w).

Definition allAssets_set (a : list Asset) : Task World unit :=
  fun w => (Some tt, withAllAssets a w).

Definition dataLoaded_set (d : bool) : Task World unit :=
  fun w => (Some tt, withDataLoaded d w).

(** *** [fetchAndParseFiles] *)

(** The parsers of [contents/parser] and [assets/parser], not part of these
    sources.  An asset is parsed from [{ ...file, name, meta, size, text }]. *)
Variable parseEntryFiles : list ListItem -> list Entry.
Variable parseAssetFiles : list (ListItem * string) -> list Asset.

(** [Object.fromEntries(entries)]: a later entry replaces an earlier one. *)
Definition fromEntries (entries : list (string * FileData)) : gmap string FileData :=
  fold_left (fun m e => <[fst e := snd e]> m) entries ∅.

(** [Object.keys(o)], [Object.entries(o)]. *)
Definition objectKeys (o : gmap string FileData) : list string :=
  List.map fst (map_to_list o).

Definition objectEntries (o : gmap string FileData) : list (string * FileData) :=
  map_to_list o.

(** [a === b] on possibly [undefined] strings. *)
Definition strictEq (a b : option string) : bool :=
  match a, b with
  | Some x, Some y => String.eqb x y
  | None, None => true
  | _, _ => false
  end.

(** [Object.assign(file, record)] on a file. *)
Definition assignData (file : ListItem) (record : FileData) : ListItem :=
  let d := data (fileInfo file) in
  {| fileInfo :=
       {| path := path (fileInfo file);
          data := {| sha := JS.assignField (sha d) (sha record);
                     size := JS.assignField (size d) (size record);
                     text := JS.assignField (text d) (text record);
                     meta := JS.assignField (meta d) (meta record) |} |};
     type := type file |}.

(** The body of [allFiles.forEach] that restores cached text and commit
    information: [cachedFiles[path]?.sha === sha] guards the assignment,
    and assigning [undefined] changes nothing. *)
Definition restoreCached (cachedFiles : gmap string FileData) (file : ListItem) : ListItem :=
  let cached := cachedFiles !! itemPath file in
  if strictEq (r ← cached; JS.read (sha r)) (JS.read (sha (data (fileInfo file))))
  then match cached with
       | Some record => assignData file record
       | None => file
       end
  else file.

(** [fetchedFileMap[file.path] ?? {}]. *)
Definition fetchedFor (fetchedFileMap : gmap string FileData) (file : ListItem) : FileData :=
  default {| sha := JS.Absent; size := JS.Absent; text := JS.Absent; meta := JS.Absent |}
          (fetchedFileMap !! itemPath file).

(** The callback of [entryFiles.map]. *)
Definition entryWithContents (fetchedFileMap : gmap string FileData) (file : ListItem) : ListItem :=
  let d := data (fileInfo file) in
  let fetched := fetchedFor fetchedFileMap file in
  {| fileInfo :=
       {| path := path (fileInfo file);
          data := {| sha := sha d;
                     size := size d;
                     text := JS.written (JS.nullish (JS.read (text d)) (JS.read (text fetched)));
                     meta := JS.written (JS.nullish (JS.read (meta d)) (JS.read (meta fetched))) |} |};
     type := type file |}.

(** The callback of [assetFiles.map]; the second component is [name]. *)
Definition assetWithContents (fetchedFileMap : gmap string FileData) (file : ListItem)
    : ListItem * string :=
  let d := data (fileInfo file) in
  let fetched := fetchedFor fetchedFileMap file in
  ({| fileInfo :=
        {| path := path (fileInfo file);
           data := {| sha := sha d;
                      size := JS.written (JS.nullish (JS.read (size d)) (JS.read (size fetched)));
                      text := JS.written (JS.nullish (JS.read (text d)) (JS.read (text fetched)));
                      meta := JS.written (JS.nullish (JS.read (meta d)) (JS.read (meta fetched))) |} |};
      type := type file |},
   JS.pop (JS.split "/" (itemPath file))).

(** The callback of [allFiles.filter]: [!meta], where [meta] is an object
    when it is defined. *)
Definition lacksMeta (file : ListItem) : bool :=
  match JS.read (meta (data (fileInfo file))) with
  | Some _ => false
  | None => true
  end.

Definition nonEmpty {A : Type} (l : list A) : bool := negb (Nat.eqb (length l) 0).

(** The condition under which the file list is rebuilt from the cache. *)
Definition cacheIsCurrent (cachedHash : option string) (lastHash : string)
    (cachedFileEntries : list (string * FileData)) : bool :=
  JS.truthyOpt cachedHash && strictEq cachedHash (Some lastHash)
  && nonEmpty cachedFileEntries.

Local Open Scope task_scope.

(** Lines 110-116: the branch the sync works on. *)
Definition resolveBranch (args : Args) : Task World string :=
  let! branchName := repository_branch in
  if JS.truthyOpt branchName
  then ret (default EmptyString branchName)
  else
    let! branch := await FetchDefaultBranchName (fetchDefaultBranchName args) in
    let! _ := repository_setBranch branch in
    ret branch.

(** Lines 121-129: the file list, from the cache or from the repository. *)
Definition resolveFileList (args : Args) (branch : string)
    (cachedHash : option string) (cachedFileEntries : list (string * FileData))
    (lastHash : string) : Task World FileList :=
  if cacheIsCurrent cachedHash lastHash cachedFileEntries
  then ret (createFileList
              (List.map (fun e => {| path := fst e; data := snd e |}) cachedFileEntries))
  else
    let! files := await (FetchFileList branch) (fetchFileList args branch) in
    let fileList := createFileList files in
    let! _ := metaDB_set lastHash in
    ret fileList.

(** Lines 144-150: the files whose contents have to be fetched.  The
    objects of [allFiles] are the objects of [entryFiles] and [assetFiles],
    so what [Object.assign] writes shows in the three arrays. *)
Definition restoreAll (cachedFiles : gmap string FileData) (files : list ListItem)
    : list ListItem :=
  List.map (restoreCached cachedFiles) files.

Definition fetchingFilesOf (cachedFiles : gmap string FileData) (fileList : FileList)
    : list ListItem :=
  List.filter lacksMeta (restoreAll cachedFiles (allFiles fileList)).

(** Lines 186-187. *)
Definition unusedPathsOf (cachedFiles : gmap string FileData) (fileList : FileList)
    : list string :=
  let usedPaths := List.map itemPath (restoreAll cachedFiles (allFiles fileList)) in
  List.filter (fun path => negb (JS.includes usedPaths path)) (objectKeys cachedFiles).

(** Lines 131-197: publishing the files and updating the cache. *)
Definition loadFiles (args : Args) (branch : string)
    (cachedFileEntries : list (string * FileData)) (fileList : FileList)
    : Task World unit :=
  if Nat.eqb (count fileList) 0
  then
    let! _ := allEntries_set [] in
    let! _ := allAssets_set [] in
    dataLoaded_set true
  else
    let cachedFiles := fromEntries cachedFileEntries in
    let entryFiles := restoreAll cachedFiles (entryFiles fileList) in
    let assetFiles := restoreAll cachedFiles (assetFiles fileList) in
    let fetchingFiles := fetchingFilesOf cachedFiles fileList in
    let! fetchedFileMap :=
      if nonEmpty fetchingFiles
      then await (FetchFileContents branch fetchingFiles)
                 (fetchFileContents args branch fetchingFiles)
      else ret ∅ in
    let! _ := allEntries_set
                (parseEntryFiles (List.map (entryWithContents fetchedFileMap) entryFiles)) in
    let! _ := allAssets_set
                (parseAssetFiles (List.map (assetWithContents fetchedFileMap) assetFiles)) in
    let! _ := dataLoaded_set true in
    let unusedPaths := unusedPathsOf cachedFiles fileList in
    let! _ := if nonEmpty fetchingFiles
              then cacheDB_saveEntries (objectEntries fetchedFileMap)
              else ret tt in
    if nonEmpty unusedPaths
    then cacheDB_deleteEntries unusedPaths
    else ret tt.

Definition fetchAndParseFiles (args : Args) : Task World unit :=
  let! cachedHash := metaDB_get in
  let! cachedFileEntries := cacheDB_entries in
  let! branch := resolveBranch args in
  let! lastHash := await (FetchLastCommitHash branch) (fetchLastCommitHash args branch) in
  let! fileList := resolveFileList args branch cachedHash cachedFileEntries lastHash in
  loadFiles args branch cachedFileEntries fileList.

(** The calls made by a task started on [w]. *)
Definition callsDuring {A : Type} (t : Task World A) (w : World) : list Call :=
  List.skipn (length (calls w)) (calls (snd (t w))).

Local Close Scope task_scope.

(** *** Vocabulary of the properties *)

(** The file list rebuilt from the records of the cache. *)
Definition cachedFileList (entries : list (string * FileData)) : FileList :=
  createFileList (List.map (fun e => {| path := fst e; data := snd e |}) entries).

(** The calls [loadFiles] makes. *)
Definition deleteCalls (cachedFiles : gmap string FileData) (fileList : FileList)
    : list Call :=
  if nonEmpty (unusedPathsOf cachedFiles fileList)
  then [DeleteEntries (unusedPathsOf cachedFiles fileList)]
  else [].

Definition loadCalls (args : Args) (branch : string)
    (cachedFileEntries : list (string * FileData)) (fileList : FileList)
    : list Call :=
  if Nat.eqb (count fileList) 0 then []
  else
    let cachedFiles := fromEntries cachedFileEntries in
    let fetchingFiles := fetchingFilesOf cachedFiles fileList in
    if nonEmpty fetchingFiles
    then FetchFileContents branch fetchingFiles
         :: match fetchFileContents args branch fetchingFiles with
            | Some fetched =>
                SaveEntries (objectEntries fetched) :: deleteCalls cachedFiles fileList
            | None => []
            end
    else deleteCalls cachedFiles fileList.

(** The calls of a sync after the commit hash is resolved. *)
Definition callsAfterHash (args : Args) (branch : string) (cachedHash : option string)
    (cachedFileEntries : list (string * FileData)) (lastHash : string) : list Call :=
  if cacheIsCurrent cachedHash lastHash cachedFileEntries
  then loadCalls args branch cachedFileEntries (cachedFileList cachedFileEntries)
  else FetchFileList branch
       :: match fetchFileList args branch with
          | Some files =>
              MetaSet lastHash
              :: loadCalls args branch cachedFileEntries (createFileList files)
          | None => []
          end.

(** Every record of the cache carries commit information. *)
Definition AllWithMeta (entries : list (string * FileData)) : Prop :=
  forall p r, In (p, r) entries -> JS.read (meta r) <> None.

(** The contents [loadFiles] works with: what [fetchFileContents] returns
    for the files to fetch, the empty object when there is none. *)
Definition fetchedFileMapOf (args : Args) (branch : string)
    (cachedFiles : gmap string FileData) (fileList : FileList)
    : option (gmap string FileData) :=
  if nonEmpty (fetchingFilesOf cachedFiles fileList)
  then fetchFileContents args branch (fetchingFilesOf cachedFiles fileList)
  else Some ∅.

(** The file cache after lines 189-197. *)
Definition reconciledCache (cachedFiles : gmap string FileData) (fileList : FileList)
    (fetchedFileMap : gmap string FileData) (db : list (string * FileData))
    : list (string * FileData) :=
  let saved := if nonEmpty (fetchingFilesOf cachedFiles fileList)
               then saveEntries (objectEntries fetchedFileMap) db
               else db in
  if nonEmpty (unusedPathsOf cachedFiles fileList)
  then deleteEntries (unusedPathsOf cachedFiles fileList) saved
  else saved.

(** What is published for a non-empty file list. *)
Definition publishedEntries (cachedFiles fetchedFileMap : gmap string FileData)
    (fileList : FileList) : list Entry :=
  parseEntryFiles
    (List.map (entryWithContents fetchedFileMap)
       (restoreAll cachedFiles (entryFiles fileList))).

Definition publishedAssets (cachedFiles fetchedFileMap : gmap string FileData)
    (fileList : FileList) : list Asset :=
  parseAssetFiles
    (List.map (assetWithContents fetchedFileMap)
       (restoreAll cachedFiles (assetFiles fileList))).

(** [name] and [extension] of a path, as [createFileList] computes them. *)
Definition fileName (path : string) : string := JS.pop (JS.split "/" path).
Definition fileExtension (path : string) : string := JS.pop (JS.split "." (fileName path)).

(** [s] starts with [p]. *)
Definition StartsWith (s p : string) : Prop := exists rest, s = (p ++ rest)%string.

(** [c] is the last element of [l] that satisfies [P]. *)
Definition LastMatch {A : Type} (P : A -> Prop) (l : list A) (c : A) : Prop :=
  exists before after,
    l = before ++ c :: after /\ P c /\ forall c', In c' after -> ~ P c'.

(** An entry folder matches a path: by prefix when it has a non-empty
    [folderPath], else when the path is a value of its [filePathMap]. *)
Definition EntryFolderMatches (path : string) (c : CollectionEntryFolder) : Prop :=
  (exists folder, folderPath c = Some folder /\ folder <> EmptyString
                  /\ StartsWith path folder)
  \/ ((folderPath c = None \/ folderPath c = Some EmptyString)
      /\ exists m locale, filePathMap c = Some m /\ In (locale, path) m).

(** An asset folder matches a path: by the prefix [internalPath/] when it is
    entry-relative, else when the directory captured from the path is
    [internalPath]. *)
Definition AssetFolderMatches (path : string) (c : CollectionAssetFolder) : Prop :=
  if entryRelative c
  then StartsWith path (internalPath c ++ "/")%string
  else JS.matchEnclosingDir path = Some (internalPath c).

(** The entry folder a path is classified under, if any. *)
Definition entryConfigOf (path : string) : option CollectionEntryFolder :=
  match JS.findLast (entryFolderMatches path) allEntryFolders with
  | Some config =>
      if JS.includes (filePathValues config) path
         || String.eqb (fileExtension path) (getFileExtension config)
      then Some config else None
  | None => None
  end.

(** The asset folder a path is classified under, if any. *)
Definition assetConfigOf (path : string) : option CollectionAssetFolder :=
  match JS.findLast (assetFolderMatches path) allAssetFolders with
  | Some config =>
      if negb (JS.startsWith (fileName path) "+")
         && negb (bool_decide (is_Some (entryConfigOf path)))
      then Some config else None
  | None => None
  end.

Definition entryItemsOf (fileInfo : BaseFileListItem) : list ListItem :=
  match entryConfigOf (path fileInfo) with
  | Some config => [{| fileInfo := fileInfo; type := entry config |}]
  | None => []
  end.

Definition assetItemsOf (fileInfo : BaseFileListItem) : list ListItem :=
  match assetConfigOf (path fileInfo) with
  | Some config => [{| fileInfo := fileInfo; type := asset config |}]
  | None => []
  end.

(** The immediate parent directory of a path: what precedes its last
    slash, if it has one. *)
Definition parentDirectory (path : string) : option string :=
  match List.removelast (JS.split "/" path) with
  | [] => None
  | dir :: dirs => Some (JS.join "/" (dir :: dirs))
  end.

(** The entry-folder test as the specification words it: membership in
    [filePathMap] when the map is present, else the prefix [folderPath]. *)
Definition specEntryFolderMatches (path : string) (c : CollectionEntryFolder) : bool :=
  match filePathMap c with
  | Some m => JS.includes (List.map snd m) path
  | None => match folderPath c with
            | Some folder => JS.startsWith path folder
            | None => false
            end
  end.

(** The entry folder of a path under the specification's wording of the
    folder test. *)
Definition specEntryConfigOf (path : string) : option CollectionEntryFolder :=
  match JS.findLast (specEntryFolderMatches path) allEntryFolders with
  | Some config =>
      if JS.includes (filePathValues config) path
         || String.eqb (fileExtension path) (getFileExtension config)
      then Some config else None
  | None => None
  end.

(** What a sync started on [w] resolves: the branch it works on, the
    commit hash, and the file list it classifies; [None] when a collaborator
    it has to ask fails. *)
Definition resolvedBranch (args : Args) (w : World) : option string :=
  if JS.truthyOpt (repositoryBranch w)
  then Some (default EmptyString (repositoryBranch w))
  else fetchDefaultBranchName args.

Definition resolvedHash (args : Args) (w : World) : option string :=
  match resolvedBranch args w with
  | Some branch => fetchLastCommitHash args branch
  | None => None
  end.

Definition resolvedFileList (args : Args) (w : World) : option FileList :=
  match resolvedBranch args w, resolvedHash args w with
  | Some branch, Some lastHash =>
      if cacheIsCurrent (lastCommitHash w) lastHash (fileCache w)
      then Some (cachedFileList (fileCache w))
      else option_map createFileList (fetchFileList args branch)
  | _, _ => None
  end.

(** The calls of a sync, from what it resolves. *)
Definition syncCalls (args : Args) (w : World) : list Call :=
  (if JS.truthyOpt (repositoryBranch w) then [] else [FetchDefaultBranchName])
  ++ match resolvedBranch args w with
     | Some branch =>
         FetchLastCommitHash branch
         :: match fetchLastCommitHash args branch with
            | Some lastHash =>
                callsAfterHash args branch (lastCommitHash w) (fileCache w) lastHash
            | None => []
            end
     | None => []
     end.

End Backend.

Arguments FileData : clear implicits.
Arguments BaseFileListItem : clear implicits.
Arguments FileType : clear implicits.
Arguments ListItem : clear implicits.
Arguments FileList : clear implicits.
Arguments Call : clear implicits.
Arguments World : clear implicits.
Arguments Args : clear implicits.

(** ** [contents/i18n.js] *)

Module I18n.

(** Modelled from the spec: the type [RawI18nConfig] of the [i18n] object
    of the site configuration, of a collection or of a collection file is
    declared outside these sources; its properties are the four that
    [getI18nConfig] reads, each optional. *)
Module Raw.
Record RawI18nConfig : Type := {
  structure : JS.field string;
  locales : JS.field (list string);
  default_locale : JS.field string;
  save_all_locales : JS.field bool;
}.
End Raw.
Export Raw(RawI18nConfig).

(** The value of an [i18n] property: missing, a boolean, or an object. *)
Inductive I18nValue : Type :=
| I18nUndefined
| I18nBoolean (b : bool)
| I18nObject (o : RawI18nConfig).

Record SiteConfig : Type := { siteI18n : I18nValue }.
Record RawCollection : Type := { collectionI18n : I18nValue }.
Record RawCollectionFile : Type := { fileI18n : I18nValue }.

(** [I18nConfig], the normalized configuration. *)
Record I18nConfig : Type := {
  i18nEnabled : bool;
  saveAllLocales : bool;
  locales : list string;
  defaultLocale : string;
  structure : string;
}.

(** [defaultI18nConfig], lines 10-16. *)
Definition defaultI18nConfig : I18nConfig :=
  {| i18nEnabled := false;
     saveAllLocales := true;
     locales := ["_default"];
     defaultLocale := "_default";
     structure := "single_file" |}.

(** Modelled from the spec: [isObject] of [services/utils/misc] is not part
    of these sources; it tells whether a value is an object, which is what
    [getI18nConfig] asks of an [i18n] property before it reads or copies its
    entries. *)
Definition isObject (v : I18nValue) : bool :=
  match v with I18nObject _ => true | _ => false end.

(** Truthiness of an [i18n] property. *)
Definition truthy (v : I18nValue) : bool :=
  match v with
  | I18nUndefined => false
  | I18nBoolean b => b
  | I18nObject _ => true
  end.

(** [Object.assign(target, source)] on two [i18n] objects. *)
Definition assign (target source : RawI18nConfig) : RawI18nConfig :=
  {| Raw.structure := JS.assignField (Raw.structure target) (Raw.structure source);
     Raw.locales := JS.assignField (Raw.locales target) (Raw.locales source);
     Raw.default_locale :=
       JS.assignField (Raw.default_locale target) (Raw.default_locale source);
     Raw.save_all_locales :=
       JS.assignField (Raw.save_all_locales target) (Raw.save_all_locales source) |}.

(** The object behind a value that [isObject] accepts. *)
Definition asObject (v : I18nValue) : RawI18nConfig :=
  match v with
  | I18nObject o => o
  | _ => {| Raw.structure := JS.Absent; Raw.locales := JS.Absent;
            Raw.default_locale := JS.Absent; Raw.save_all_locales := JS.Absent |}
  end.

(** [if (isObject(v)) { Object.assign(config, v); }]. *)
Definition assignIfObject (config : RawI18nConfig) (v : I18nValue) : RawI18nConfig :=
  if isObject v then assign config (asObject v) else config.

(** Lines 52-74: the destructuring with defaults of [config ?? {}] and the
    returned object; [file] tells whether a collection file was given. *)
Definition normalize (config : option RawI18nConfig) (file : bool) : I18nConfig :=
  let raw := default {| Raw.structure := JS.Absent; Raw.locales := JS.Absent;
                        Raw.default_locale := JS.Absent;
                        Raw.save_all_locales := JS.Absent |} config in
  let structure := default "single_file" (JS.read (Raw.structure raw)) in
  let locales := default [] (JS.read (Raw.locales raw)) in
  let defaultLocale := JS.read (Raw.default_locale raw) in
  let saveAllLocales := default true (JS.read (Raw.save_all_locales raw)) in
  let i18nEnabled := negb (Nat.eqb (length locales) 0) in
  {| i18nEnabled := i18nEnabled;
     saveAllLocales := saveAllLocales;
     locales := if i18nEnabled then locales else ["_default"];
     defaultLocale :=
       if negb i18nEnabled then "_default"
       else if JS.truthyOpt defaultLocale
               && JS.includes locales (default EmptyString defaultLocale)
            then default EmptyString defaultLocale
            else List.hd EmptyString locales;
     structure := if file then "single_file" else structure |}.

(** [getI18nConfig(collection, file)] on the value of the [siteConfig]
    store: the normalized configuration and the store after the call.
    [config] is the site's [i18n] object itself, so what [Object.assign]
    writes to [config] is written to the store. *)
Definition getI18nConfig (collection : option RawCollection)
    (file : option RawCollectionFile) (siteConfig : option SiteConfig)
    : I18nConfig * option SiteConfig :=
  let isFile := match file with Some _ => true | None => false end in
  let siteValue := match siteConfig with
                   | Some s => siteI18n s
                   | None => I18nUndefined
                   end in
  if isObject siteValue then
    let config := asObject siteValue in
    let i18n := match collection with
                | Some c => collectionI18n c
                | None => I18nUndefined
                end in
    if truthy i18n then
      let config := assignIfObject config i18n in
      match file with
      | Some f =>
          if truthy (fileI18n f) then
            let config := assignIfObject config (fileI18n f) in
            (normalize (Some config) isFile,
             Some {| siteI18n := I18nObject config |})
          else
            (normalize None isFile, Some {| siteI18n := I18nObject config |})
      | None =>
          (normalize (Some config) isFile,
           Some {| siteI18n := I18nObject config |})
      end
    else (normalize None isFile, siteConfig)
  else (normalize None isFile, siteConfig).

(** *** Vocabulary of the properties *)

(** The four properties of an [i18n] object. *)
Inductive Property : Type :=
| PStructure
| PLocales
| PDefaultLocale
| PSaveAllLocales.

(** The object has the property [p] as its own: these are the entries that
    [Object.assign] copies from it. *)
Definition hasOwn (p : Property) (o : RawI18nConfig) : bool :=
  match p with
  | PStructure => match Raw.structure o with JS.Absent => false | _ => true end
  | PLocales => match Raw.locales o with JS.Absent => false | _ => true end
  | PDefaultLocale => match Raw.default_locale o with JS.Absent => false | _ => true end
  | PSaveAllLocales => match Raw.save_all_locales o with JS.Absent => false | _ => true end
  end.

(** Two objects have the same entry for [p]: both lack the property, or
    both have it with the same value. *)
Definition sameEntry (p : Property) (o1 o2 : RawI18nConfig) : Prop :=
  match p with
  | PStructure => Raw.structure o1 = Raw.structure o2
  | PLocales => Raw.locales o1 = Raw.locales o2
  | PDefaultLocale => Raw.default_locale o1 = Raw.default_locale o2
  | PSaveAllLocales => Raw.save_all_locales o1 = Raw.save_all_locales o2
  end.

(** The [i18n] object of a collection file, when a file is given and its
    [i18n] is an object. *)
Definition fileObject (file : option RawCollectionFile) : option RawI18nConfig :=
  match file with
  | Some f => match fileI18n f with
              | I18nObject o => Some o
              | _ => None
              end
  | None => None
  end.

End I18n.

(** ** Sample configurations and files *)

Module Sample.

Definition fileData : FileData unit :=
  {| sha := JS.Value "3b18e5"; size := JS.Absent; text := JS.Absent; meta := JS.Absent |}.

Definition file (p : string) : BaseFileListItem unit := {| path := p; data := fileData |}.

Definition mdExtension (_ : CollectionEntryFolder) : string := "md".

(** The scenario of the specification. *)
Definition posts : CollectionEntryFolder :=
  {| collectionName := "posts"; filePathMap := None; folderPath := Some "content/posts" |}.

Definition images : CollectionAssetFolder :=
  {| assetCollectionName := None; internalPath := "static/images"; entryRelative := false |}.

Definition scenarioFiles : list (BaseFileListItem unit) :=
  [file "content/posts/a.md"; file "static/images/cat.png";
   file "static/images/sub/dog.png"; file "content/pages/+layout.ext"].

(** Two folder collections, the second under the first. *)
Definition content : CollectionEntryFolder :=
  {| collectionName := "content"; filePathMap := None; folderPath := Some "content" |}.

(** An entry folder with both a [folderPath] and a [filePathMap]. *)
Definition pages : CollectionEntryFolder :=
  {| collectionName := "pages";
     filePathMap := Some [("_default", "data/about.yml")];
     folderPath := Some "content" |}.

(** A folder collection at the root of the repository. *)
Definition root : CollectionEntryFolder :=
  {| collectionName := "root"; filePathMap := None; folderPath := Some "" |}.

(** A path with a line feed in a directory name, under [static]. *)
Definition static : CollectionAssetFolder :=
  {| assetCollectionName := None; internalPath := "static"; entryRelative := false |}.

Definition lineFeedPath : string :=
  ("static/x" ++ String "010" "y/dog.png")%string.

(** Parsers that keep the files as they are given. *)
Definition parseEntries (files : list (ListItem unit)) : list (ListItem unit) := files.
Definition parseAssets (files : list (ListItem unit * string))
    : list (ListItem unit * string) := files.

Definition sync (args : Args unit)
    : Task (World unit (ListItem unit) (ListItem unit * string)) unit :=
  fetchAndParseFiles [posts] [images] mdExtension parseEntries parseAssets args.

(** The record of a post and of a text file, with commit information. *)
Definition cachedPost : FileData unit :=
  {| sha := JS.Value "3b18e5"; size := JS.Absent; text := JS.Value "# A";
     meta := JS.Value tt |}.

Definition cachedNote : FileData unit :=
  {| sha := JS.Value "77aa01"; size := JS.Absent; text := JS.Value "note";
     meta := JS.Value tt |}.

(** The stores before a sync: a stored commit hash and a file cache; the
    branch is known and nothing is published yet. *)
Definition stores (hash : option string) (cache : list (string * FileData unit))
    : World unit (ListItem unit) (ListItem unit * string) :=
  {| lastCommitHash := hash; fileCache := cache; repositoryBranch := Some "main";
     allEntries := []; allAssets := []; dataLoaded := false; calls := [] |}.

(** A repository at a commit, with its files and what fetching their
    contents returns. *)
Definition repository (hash : string) (files : list (BaseFileListItem unit))
    (contents : option (gmap string (FileData unit))) : Args unit :=
  {| fetchDefaultBranchName := Some "main";
     fetchLastCommitHash := fun _ => Some hash;
     fetchFileList := fun _ => Some files;
     fetchFileContents := fun _ _ => contents |}.

Definition postItem : ListItem unit :=
  {| fileInfo := file "content/posts/a.md"; type := entry posts |}.

(** A site with one locale, a collection that adds a second one, and a
    collection that only switches i18n on. *)
Definition siteConfig : I18n.SiteConfig :=
  {| I18n.siteI18n :=
       I18n.I18nObject
         {| I18n.Raw.structure := JS.Value "multiple_files";
            I18n.Raw.locales := JS.Value ["en"];
            I18n.Raw.default_locale := JS.Absent;
            I18n.Raw.save_all_locales := JS.Absent |} |}.

Definition blog : I18n.RawCollection :=
  {| I18n.collectionI18n :=
       I18n.I18nObject
         {| I18n.Raw.structure := JS.Absent;
            I18n.Raw.locales := JS.Value ["en"; "fr"];
            I18n.Raw.default_locale := JS.Value "fr";
            I18n.Raw.save_all_locales := JS.Absent |} |}.

Definition docs : I18n.RawCollection :=
  {| I18n.collectionI18n := I18n.I18nBoolean true |}.

(** A collection that states the structure the site has. *)
Definition news : I18n.RawCollection :=
  {| I18n.collectionI18n :=
       I18n.I18nObject
         {| I18n.Raw.structure := JS.Value "multiple_files";
            I18n.Raw.locales := JS.Absent;
            I18n.Raw.default_locale := JS.Absent;
            I18n.Raw.save_all_locales := JS.Absent |} |}.

End Sample.

(** ** Properties of [createFileList] *)

Section JSFacts.

Lemma includes_In (l : list string) (x : string) :
  JS.includes l x = true <-> In x l.
Proof.
  unfold JS.includes. rewrite existsb_exists. split.
  - intros [y [Hy Heq]]. apply String.eqb_eq in Heq. now subst.
  - intros H. exists x. split; [assumption | apply String.eqb_refl].
Qed.

Lemma startsWith_spec (s p : string) :
  JS.startsWith s p = true <-> exists rest, s = (p ++ rest)%string.
Proof.
  unfold JS.startsWith. revert s. induction p as [|c p IH]; intros s.
  - split; [intros _; exists s; reflexivity | intros _; now destruct s].
  - destruct s as [|d s]; simpl.
    + split; [discriminate | intros [rest H]; discriminate].
    + destruct (ascii_dec c d) as [->|Hne].
      * rewrite IH. split; intros [rest H]; exists rest.
        -- now rewrite H.
        -- now injection H.
      * split; [discriminate | intros [rest H]; injection H; congruence].
Qed.

Lemma findLast_Some {A : Type} (p : A -> bool) (l : list A) (c : A) :
  JS.findLast p l = Some c <->
  exists before after,
    l = before ++ c :: after /\ p c = true /\ forall c', In c' after -> p c' = false.
Proof.
  unfold JS.findLast. induction l as [|x l IH] using rev_ind.
  - split; [discriminate | intros (b & a & H & _); now destruct b].
  - rewrite rev_app_distr. simpl. destruct (p x) eqn:Hx.
    + split.
      * intros [= <-]. exists l, []. repeat split; [assumption | now intros].
      * intros (b & a & H & Hc & Ha).
        destruct a as [|y a] using rev_ind.
        -- apply app_inj_tail in H. now destruct H as [_ ->].
        -- clear IHa. change (b ++ c :: a ++ [y]) with (b ++ (c :: a) ++ [y]) in H.
           rewrite app_assoc in H. apply app_inj_tail in H. destruct H as [_ ->].
           rewrite Ha in Hx; [discriminate | apply in_or_app; right; now left].
    + rewrite IH. split; intros (b & a & H & Hc & Ha).
      * exists b, (a ++ [x]). subst l. rewrite <- app_assoc. repeat split; try assumption.
        intros c' Hin. apply in_app_or in Hin. destruct Hin as [Hin|[<-|[]]]; auto.
      * destruct a as [|y a] using rev_ind.
        -- apply app_inj_tail in H. destruct H as [_ ->]. congruence.
        -- clear IHa. change (b ++ c :: a ++ [y]) with (b ++ (c :: a) ++ [y]) in H.
           rewrite app_assoc in H. apply app_inj_tail in H. destruct H as [-> ->].
           exists b, a. repeat split; try assumption.
           intros c' Hin. apply Ha. apply in_or_app. now left.
Qed.

Lemma findLast_None {A : Type} (p : A -> bool) (l : list A) :
  JS.findLast p l = None <-> forall c, In c l -> p c = false.
Proof.
  unfold JS.findLast. split.
  - intros H c Hin. apply (find_none _ _ H). now apply -> in_rev.
  - intros H. destruct (List.find p (rev l)) as [c|] eqn:Hf; [|reflexivity].
    apply find_some in Hf. destruct Hf as [Hin Hp].
    rewrite H in Hp; [discriminate | now apply in_rev].
Qed.

End JSFacts.

Section Classification.

Context {Meta : Type}.
Variable allEntryFolders : list CollectionEntryFolder.
Variable allAssetFolders : list CollectionAssetFolder.
Variable getFileExtension : CollectionEntryFolder -> string.

Local Abbreviation createFileList :=
  (createFileList (Meta:=Meta) allEntryFolders allAssetFolders getFileExtension).
Local Abbreviation classifyFile :=
  (classifyFile (Meta:=Meta) allEntryFolders allAssetFolders getFileExtension).
Local Abbreviation entryConfigOf := (entryConfigOf allEntryFolders getFileExtension).
Local Abbreviation assetConfigOf :=
  (assetConfigOf allEntryFolders allAssetFolders getFileExtension).
Local Abbreviation entryItemsOf :=
  (entryItemsOf (Meta:=Meta) allEntryFolders getFileExtension).
Local Abbreviation assetItemsOf :=
  (assetItemsOf (Meta:=Meta) allEntryFolders allAssetFolders getFileExtension).

Lemma entryFolderMatches_spec (path : string) (c : CollectionEntryFolder) :
  entryFolderMatches path c = true <-> EntryFolderMatches path c.
Proof.
  unfold entryFolderMatches, EntryFolderMatches, StartsWith, filePathValues.
  destruct (folderPath c) as [folder|]; simpl.
  - unfold JS.truthy. destruct (String.eqb_spec folder EmptyString) as [->|Hne]; simpl.
    + rewrite includes_In. split.
      * intros H. right. split; [now right|].
        destruct (filePathMap c) as [m|]; [|contradiction].
        apply in_map_iff in H. destruct H as [[l p'] [Hp Hin]]. simpl in Hp. subst p'.
        now exists m, l.
      * intros [(f & [= <-] & Hf & _)|[_ (m & l & -> & Hin)]]; [congruence|].
        apply in_map_iff. now exists (l, path).
    + rewrite startsWith_spec. split.
      * intros H. left. now exists folder.
      * intros [(f & [= <-] & _ & H)|[[H|[= H]] _]]; [assumption|discriminate|congruence].
  - rewrite includes_In. split.
    + intros H. right. split; [now left|].
      destruct (filePathMap c) as [m|]; [|contradiction].
      apply in_map_iff in H. destruct H as [[l p'] [Hp Hin]]. simpl in Hp. subst p'.
      now exists m, l.
    + intros [(f & [=] & _)|[_ (m & l & -> & Hin)]].
      apply in_map_iff. now exists (l, path).
Qed.

Lemma assetFolderMatches_spec (path : string) (c : CollectionAssetFolder) :
  assetFolderMatches path c = true <-> AssetFolderMatches path c.
Proof.
  unfold assetFolderMatches, AssetFolderMatches, StartsWith.
  destruct (entryRelative c).
  - apply startsWith_spec.
  - destruct (JS.matchEnclosingDir path) as [dir|].
    + rewrite String.eqb_eq. split; [now intros -> | now intros [= ->]].
    + split; discriminate.
Qed.

Lemma findLast_LastMatch {A : Type} (p : A -> bool) (P : A -> Prop) (l : list A) (c : A) :
  (forall x, p x = true <-> P x) ->
  JS.findLast p l = Some c <-> LastMatch P l c.
Proof.
  intros Hp. rewrite findLast_Some. unfold LastMatch.
  split; intros (b & a & Hl & Hc & Ha); exists b, a; repeat split; try assumption.
  - now apply Hp.
  - intros c' Hin HP. apply Hp in HP. rewrite (Ha c' Hin) in HP. discriminate.
  - now apply Hp.
  - intros c' Hin. destruct (p c') eqn:E; [|reflexivity].
    exfalso. apply (Ha c' Hin). now apply Hp.
Qed.

Lemma entryItemsOf_path (fileInfo : BaseFileListItem Meta) (x : ListItem Meta) :
  In x (entryItemsOf fileInfo) ->
  itemPath x = path fileInfo /\ is_Some (entryConfigOf (path fileInfo)).
Proof.
  unfold entryItemsOf. destruct (entryConfigOf (path fileInfo)) as [c|]; [|intros []].
  intros [<-|[]]. split; [reflexivity | now exists c].
Qed.

Lemma assetItemsOf_path (fileInfo : BaseFileListItem Meta) (x : ListItem Meta) :
  In x (assetItemsOf fileInfo) ->
  itemPath x = path fileInfo /\ entryConfigOf (path fileInfo) = None.
Proof.
  unfold assetItemsOf, assetConfigOf.
  destruct (JS.findLast _ allAssetFolders) as [c|]; [|intros []].
  destruct (negb _ && negb (bool_decide _)) eqn:E; [|intros []].
  intros [<-|[]]. split; [reflexivity|].
  apply andb_true_iff in E. destruct E as [_ E]. apply negb_true_iff in E.
  apply bool_decide_eq_false in E.
  destruct (entryConfigOf (path fileInfo)) as [c'|]; [|reflexivity].
  exfalso. apply E. now exists c'.
Qed.

(** One round of [files.forEach], when every entry pushed so far is under a
    path that classifies as an entry. *)
Lemma classifyFile_spec (e a : list (ListItem Meta)) (fileInfo : BaseFileListItem Meta) :
  (forall x, In x e -> is_Some (entryConfigOf (itemPath x))) ->
  classifyFile (e, a) fileInfo = (e ++ entryItemsOf fileInfo, a ++ assetItemsOf fileInfo).
Proof.
  intros Hinv. unfold classifyFile.
  assert (He : (match JS.findLast (entryFolderMatches (path fileInfo)) allEntryFolders with
                | Some config =>
                    if JS.includes (filePathValues config) (path fileInfo)
                       || String.eqb (JS.pop (JS.split "." (JS.pop (JS.split "/" (path fileInfo)))))
                            (getFileExtension config)
                    then e ++ [{| fileInfo := fileInfo; type := entry config |}]
                    else e
                | None => e
                end) = e ++ entryItemsOf fileInfo).
  { unfold entryItemsOf, entryConfigOf, fileExtension, fileName.
    destruct (JS.findLast _ allEntryFolders) as [c|]; [|now rewrite app_nil_r].
    destruct (_ || _); [reflexivity | now rewrite app_nil_r]. }
  rewrite He. f_equal.
  assert (Hex : existsb (fun x : ListItem Meta => String.eqb (itemPath x) (path fileInfo))
                  (e ++ entryItemsOf fileInfo)
                = bool_decide (is_Some (entryConfigOf (path fileInfo)))).
  { destruct (existsb _ _) eqn:E.
    - symmetry. apply bool_decide_eq_true.
      apply existsb_exists in E. destruct E as [x [Hin Hx]].
      apply String.eqb_eq in Hx. apply in_app_or in Hin. destruct Hin as [Hin|Hin].
      + rewrite <- Hx. now apply Hinv.
      + now apply entryItemsOf_path in Hin.
    - symmetry. apply bool_decide_eq_false. intros [c Hc].
      assert (existsb (fun x : ListItem Meta => String.eqb (itemPath x) (path fileInfo))
                (e ++ entryItemsOf fileInfo) = true); [|congruence].
      apply existsb_exists. exists {| fileInfo := fileInfo; type := entry c |}.
      split; [|apply String.eqb_refl].
      apply in_or_app. right. unfold entryItemsOf. rewrite Hc. now left. }
  rewrite Hex. unfold assetItemsOf, assetConfigOf, fileName.
  destruct (JS.findLast _ allAssetFolders) as [c|]; [|now rewrite app_nil_r].
  destruct (_ && _); [reflexivity | now rewrite app_nil_r].
Qed.

Lemma classify_fold (files : list (BaseFileListItem Meta)) (e a : list (ListItem Meta)) :
  (forall x, In x e -> is_Some (entryConfigOf (itemPath x))) ->
  fold_left classifyFile files (e, a)
  = (e ++ flat_map entryItemsOf files, a ++ flat_map assetItemsOf files).
Proof.
  revert e a. induction files as [|f files IH]; intros e a Hinv; cbn [fold_left flat_map].
  - now rewrite !app_nil_r.
  - rewrite classifyFile_spec by assumption. rewrite IH.
    + now rewrite <- !app_assoc.
    + intros x Hin. apply in_app_or in Hin. destruct Hin as [Hin|Hin]; [now apply Hinv|].
      apply entryItemsOf_path in Hin. destruct Hin as [-> H]. exact H.
Qed.

(** [createFileList] classifies every file on its own. *)
Lemma createFileList_spec (files : list (BaseFileListItem Meta)) :
  createFileList files
  = {| entryFiles := flat_map entryItemsOf files;
       assetFiles := flat_map assetItemsOf files;
       allFiles := flat_map entryItemsOf files ++ flat_map assetItemsOf files;
       count := length (flat_map entryItemsOf files ++ flat_map assetItemsOf files) |}.
Proof.
  unfold createFileList. rewrite classify_fold by (intros x []).
  reflexivity.
Qed.

End Classification.

Section ClassificationTheorems.

Context {Meta : Type}.
Variable allEntryFolders : list CollectionEntryFolder.
Variable allAssetFolders : list CollectionAssetFolder.
Variable getFileExtension : CollectionEntryFolder -> string.

Local Abbreviation createFileList :=
  (createFileList (Meta:=Meta) allEntryFolders allAssetFolders getFileExtension).
Local Abbreviation entryConfigOf := (entryConfigOf allEntryFolders getFileExtension).
Local Abbreviation assetConfigOf :=
  (assetConfigOf allEntryFolders allAssetFolders getFileExtension).
Local Abbreviation entryItemsOf :=
  (entryItemsOf (Meta:=Meta) allEntryFolders getFileExtension).
Local Abbreviation assetItemsOf :=
  (assetItemsOf (Meta:=Meta) allEntryFolders allAssetFolders getFileExtension).

Lemma entryConfigOf_Some (path : string) (config : CollectionEntryFolder) :
  entryConfigOf path = Some config <->
  LastMatch (EntryFolderMatches path) allEntryFolders config
  /\ (In path (filePathValues config)
      \/ fileExtension path = getFileExtension config).
Proof.
  unfold entryConfigOf.
  rewrite <- (findLast_LastMatch (entryFolderMatches path)) by apply entryFolderMatches_spec.
  destruct (JS.findLast _ allEntryFolders) as [c|].
  - destruct (JS.includes _ _ || String.eqb _ _) eqn:E.
    + apply orb_true_iff in E. rewrite includes_In, String.eqb_eq in E.
      split; [intros [= <-]; now split | now intros [[= <-] _]].
    + apply orb_false_iff in E. destruct E as [E1 E2].
      split; [discriminate|]. intros [[= <-] [H|H]].
      * apply includes_In in H. congruence.
      * apply String.eqb_eq in H. congruence.
  - split; [discriminate | now intros [[=] _]].
Qed.

(** C2, as the code has it: a file is listed as an entry exactly when some
    entry folder matches its path and the last matching folder, in the order
    of [allEntryFolders], either has the path in its [filePathMap] or expects
    the file's extension; that last folder is the [config] of the entry.  A
    folder matches by the prefix [folderPath] when [folderPath] is a
    non-empty string, and otherwise when the path is a value of its
    [filePathMap]. *)
Theorem entry_files_last_match (files : list (BaseFileListItem Meta)) (item : ListItem Meta) :
  In item (entryFiles (createFileList files)) <->
  exists fileInfo config,
    In fileInfo files
    /\ item = {| fileInfo := fileInfo; type := entry config |}
    /\ LastMatch (EntryFolderMatches (path fileInfo)) allEntryFolders config
    /\ (In (path fileInfo) (filePathValues config)
        \/ fileExtension (path fileInfo) = getFileExtension config).
Proof.
  rewrite createFileList_spec. simpl. rewrite in_flat_map. split.
  - intros (f & Hf & Hin). unfold entryItemsOf in Hin.
    destruct (entryConfigOf (path f)) as [c|] eqn:Hc; [|destruct Hin].
    destruct Hin as [<-|[]]. apply entryConfigOf_Some in Hc.
    exists f, c. tauto.
  - intros (f & c & Hf & -> & Hlast & Hext). exists f. split; [assumption|].
    unfold entryItemsOf.
    rewrite (proj2 (entryConfigOf_Some (path f) c)) by tauto. now left.
Qed.

(** On a folder that has either a non-empty [folderPath] and no map, or a
    map and no [folderPath], the test of the code and the test as the
    specification words it agree. *)
Lemma spec_entry_test_agrees (path : string) (c : CollectionEntryFolder) :
  (filePathMap c = None /\ exists folder, folderPath c = Some folder /\ folder <> EmptyString)
  \/ (folderPath c = None /\ filePathMap c <> None) ->
  specEntryFolderMatches path c = entryFolderMatches path c.
Proof.
  unfold specEntryFolderMatches, entryFolderMatches, filePathValues.
  intros [(Hm & folder & Hf & Hne)|(Hf & Hm)].
  - rewrite Hm, Hf. simpl. unfold JS.truthy.
    apply String.eqb_neq in Hne. now rewrite Hne.
  - rewrite Hf. simpl. destruct (filePathMap c); [reflexivity | congruence].
Qed.

Lemma assetConfigOf_Some (path : string) (config : CollectionAssetFolder) :
  assetConfigOf path = Some config <->
  LastMatch (AssetFolderMatches path) allAssetFolders config
  /\ JS.startsWith (fileName path) "+" = false
  /\ entryConfigOf path = None.
Proof.
  unfold assetConfigOf.
  rewrite <- (findLast_LastMatch (assetFolderMatches path)) by apply assetFolderMatches_spec.
  destruct (JS.findLast _ allAssetFolders) as [c|].
  - destruct (JS.startsWith _ _); simpl.
    + split; [discriminate | intros (_ & H & _); discriminate].
    + destruct (entryConfigOf path) as [c'|].
      * rewrite bool_decide_eq_true_2 by (now exists c'). simpl.
        split; [discriminate | intros (_ & _ & H); discriminate].
      * rewrite bool_decide_eq_false_2 by (intros [? ?]; discriminate). simpl.
        split; [intros [= <-]; tauto | now intros ([= <-] & _)].
  - split; [discriminate | now intros ([=] & _)].
Qed.

(** The paths listed as entries are those that classify as entries. *)
Lemma entry_path_listed (files : list (BaseFileListItem Meta)) (p : string) :
  (exists e, In e (entryFiles (createFileList files)) /\ itemPath e = p) <->
  In p (List.map path files) /\ is_Some (entryConfigOf p).
Proof.
  rewrite createFileList_spec. simpl. split.
  - intros (e & Hin & <-). apply in_flat_map in Hin. destruct Hin as (f & Hf & Hin).
    apply entryItemsOf_path in Hin. destruct Hin as [-> H].
    split; [now apply in_map | assumption].
  - intros [Hin [c Hc]]. apply in_map_iff in Hin. destruct Hin as (f & <- & Hf).
    exists {| fileInfo := f; type := entry c |}. split; [|reflexivity].
    apply in_flat_map. exists f. split; [assumption|].
    unfold entryItemsOf. rewrite Hc. now left.
Qed.

(** What [createFileList] lists as an asset: a file whose path is matched
    by some asset folder, the last such folder being attached, whose name
    does not start with [+], and whose path is not the path of an entry of
    the list. *)
Theorem asset_files_last_match (files : list (BaseFileListItem Meta)) (item : ListItem Meta) :
  In item (assetFiles (createFileList files)) <->
  exists fileInfo config,
    In fileInfo files
    /\ item = {| fileInfo := fileInfo; type := asset config |}
    /\ LastMatch (AssetFolderMatches (path fileInfo)) allAssetFolders config
    /\ JS.startsWith (fileName (path fileInfo)) "+" = false
    /\ ~ (exists e, In e (entryFiles (createFileList files))
                    /\ itemPath e = path fileInfo).
Proof.
  split.
  - rewrite createFileList_spec at 1. simpl. rewrite in_flat_map.
    intros (f & Hf & Hin). unfold assetItemsOf in Hin.
    destruct (assetConfigOf (path f)) as [c|] eqn:Hc; [|destruct Hin].
    destruct Hin as [<-|[]]. apply assetConfigOf_Some in Hc.
    destruct Hc as (Hlast & Hname & Hnone).
    exists f, c. repeat split; try assumption.
    intros He. apply entry_path_listed in He. destruct He as [_ [c' Hc']]. congruence.
  - intros (f & c & Hf & -> & Hlast & Hname & Hno).
    rewrite createFileList_spec. simpl. apply in_flat_map. exists f. split; [assumption|].
    unfold assetItemsOf.
    rewrite (proj2 (assetConfigOf_Some (path f) c)); [now left|].
    repeat split; try assumption.
    destruct (entryConfigOf (path f)) as [c'|] eqn:Hc'; [|reflexivity].
    exfalso. apply Hno. apply entry_path_listed. split; [now apply in_map | now exists c'].
Qed.

End ClassificationTheorems.

Section Distinctness.

Context {Meta : Type}.
Variable allEntryFolders : list CollectionEntryFolder.
Variable allAssetFolders : list CollectionAssetFolder.
Variable getFileExtension : CollectionEntryFolder -> string.

Local Abbreviation createFileList :=
  (createFileList (Meta:=Meta) allEntryFolders allAssetFolders getFileExtension).
Local Abbreviation entryConfigOf := (entryConfigOf allEntryFolders getFileExtension).
Local Abbreviation entryItemsOf :=
  (entryItemsOf (Meta:=Meta) allEntryFolders getFileExtension).
Local Abbreviation assetItemsOf :=
  (assetItemsOf (Meta:=Meta) allEntryFolders allAssetFolders getFileExtension).

Lemma in_flat_map_keys {A B K : Type} (k : A -> K) (key : B -> K) (g : A -> list B)
    (l : list A) (p : K) :
  (forall x y, In y (g x) -> key y = k x) ->
  In p (List.map key (flat_map g l)) -> In p (List.map k l).
Proof.
  intros Hg Hin. apply in_map_iff in Hin. destruct Hin as (y & <- & Hy).
  apply in_flat_map in Hy. destruct Hy as (x & Hx & Hy).
  rewrite (Hg x y Hy). now apply in_map.
Qed.

Lemma flat_map_keys_NoDup {A B K : Type} (k : A -> K) (key : B -> K) (g : A -> list B)
    (l : list A) :
  (forall x y, In y (g x) -> key y = k x) ->
  (forall x, (length (g x) <= 1)%nat) ->
  List.NoDup (List.map k l) -> List.NoDup (List.map key (flat_map g l)).
Proof.
  intros Hg Hlen. induction l as [|x l IH]; simpl; intros Hnd.
  - constructor.
  - inversion Hnd as [|? ? Hnotin Hnd']; subst.
    specialize (IH Hnd'). specialize (Hlen x).
    destruct (g x) as [|y [|z rest]] eqn:Egx; simpl in *; [assumption | | lia].
    constructor; [|assumption].
    intros Hin. apply Hnotin. rewrite <- (Hg x y) by (rewrite Egx; now left).
    now apply (in_flat_map_keys k key g l).
Qed.

Lemma entryItemsOf_length (f : BaseFileListItem Meta) : (length (entryItemsOf f) <= 1)%nat.
Proof. unfold entryItemsOf. destruct (entryConfigOf _); simpl; lia. Qed.

Lemma assetItemsOf_length (f : BaseFileListItem Meta) : (length (assetItemsOf f) <= 1)%nat.
Proof. unfold assetItemsOf. destruct (assetConfigOf _ _ _ _); simpl; lia. Qed.

(** No path is listed both as an entry and as an asset. *)
Lemma entry_asset_disjoint (files : list (BaseFileListItem Meta)) (e a : ListItem Meta) :
  In e (entryFiles (createFileList files)) ->
  In a (assetFiles (createFileList files)) ->
  itemPath e <> itemPath a.
Proof.
  rewrite createFileList_spec. simpl. intros He Ha Heq.
  apply in_flat_map in He. destruct He as (f & _ & He).
  apply in_flat_map in Ha. destruct Ha as (g & _ & Ha).
  apply entryItemsOf_path in He. destruct He as [He [c Hc]].
  apply assetItemsOf_path in Ha. destruct Ha as [Ha Hnone].
  congruence.
Qed.

(** C8: on a file list, whose paths are pairwise distinct (the path is the
    key of a file within a sync), no path appears more than once in
    [allFiles]; and no path is both the path of an entry and the path of an
    asset. *)
Theorem allFiles_paths_distinct (files : list (BaseFileListItem Meta)) :
  (List.NoDup (List.map path files) ->
   List.NoDup (List.map itemPath (allFiles (createFileList files))))
  /\ (forall e a,
        In e (entryFiles (createFileList files)) ->
        In a (assetFiles (createFileList files)) ->
        itemPath e <> itemPath a).
Proof.
  split; [|apply entry_asset_disjoint].
  intros Hnd.
  assert (Hall : allFiles (createFileList files)
                 = entryFiles (createFileList files) ++ assetFiles (createFileList files))
    by now rewrite createFileList_spec.
  rewrite Hall, map_app. apply NoDup_ListNoDup, NoDup_app.
  repeat split.
  - apply NoDup_ListNoDup. rewrite createFileList_spec. simpl.
    apply (flat_map_keys_NoDup path itemPath); try assumption.
    + intros x y Hy. now apply entryItemsOf_path in Hy.
    + apply entryItemsOf_length.
  - intros p Hp Hq.
    apply list_elem_of_In in Hp, Hq.
    apply in_map_iff in Hp. destruct Hp as (e & <- & He).
    apply in_map_iff in Hq. destruct Hq as (a & Heq & Ha).
    now apply (entry_asset_disjoint files e a He Ha).
  - apply NoDup_ListNoDup. rewrite createFileList_spec. simpl.
    apply (flat_map_keys_NoDup path itemPath); try assumption.
    + intros x y Hy. now apply assetItemsOf_path in Hy.
    + apply assetItemsOf_length.
Qed.

End Distinctness.

(** *** The directory captured by the regular expression *)

Section EnclosingDirectory.

Lemma split_nonempty (sep : ascii) (s : string) : JS.split sep s <> [].
Proof.
  destruct s as [|c s]; simpl; [discriminate|].
  destruct (Ascii.eqb c sep); [discriminate|].
  destruct (JS.split sep s); discriminate.
Qed.

Lemma parentDirectory_cons (c : ascii) (s : string) :
  parentDirectory (String c s)
  = if Ascii.eqb c "/"%char
    then Some (match parentDirectory s with
               | Some p => String "/"%char p
               | None => EmptyString
               end)
    else option_map (String c) (parentDirectory s).
Proof.
  unfold parentDirectory. simpl.
  pose proof (split_nonempty "/"%char s) as Hne.
  destruct (Ascii.eqb c "/"%char).
  - destruct (JS.split "/"%char s) as [|h t]; [congruence|].
    change (List.removelast (EmptyString :: h :: t))
      with (EmptyString :: List.removelast (h :: t)).
    destruct (List.removelast (h :: t)) as [|d ds]; reflexivity.
  - destruct (JS.split "/"%char s) as [|h t]; [congruence|].
    destruct t as [|h' t]; [reflexivity|].
    change (List.removelast (String c h :: h' :: t))
      with (String c h :: List.removelast (h' :: t)).
    change (List.removelast (h :: h' :: t)) with (h :: List.removelast (h' :: t)).
    destruct (List.removelast (h' :: t)) as [|d ds]; reflexivity.
Qed.

Lemma dotsThenSlash_parentDirectory (s : string) :
  JS.noLineTerminator s = true -> JS.dotsThenSlash s = parentDirectory s.
Proof.
  induction s as [|c s IH]; [reflexivity|].
  simpl. intros H. apply andb_true_iff in H. destruct H as [Hc Hs].
  apply negb_true_iff in Hc. rewrite Hc, parentDirectory_cons, (IH Hs).
  destruct (parentDirectory s); destruct (Ascii.eqb_spec c "/"%char) as [->|]; reflexivity.
Qed.

(** On a path without line terminator, the directory that
    [/^(.+)\//] captures is the parent directory of the path, when that is
    not the empty string; otherwise nothing is captured. *)
Lemma matchEnclosingDir_parentDirectory (path dir : string) :
  JS.noLineTerminator path = true ->
  JS.matchEnclosingDir path = Some dir <->
  parentDirectory path = Some dir /\ dir <> EmptyString.
Proof.
  destruct path as [|c s]; [intros _; split; [discriminate | intros [H _]; discriminate]|].
  simpl. intros H. apply andb_true_iff in H. destruct H as [Hc Hs].
  apply negb_true_iff in Hc.
  rewrite Hc, parentDirectory_cons, (dotsThenSlash_parentDirectory s Hs).
  destruct (parentDirectory s) as [p|]; destruct (Ascii.eqb_spec c "/"%char) as [->|Hne]; simpl.
  - split; [intros [= <-]; split; [reflexivity | discriminate] | now intros [[= <-] _]].
  - split; [intros [= <-]; split; [reflexivity | discriminate] | now intros [[= <-] _]].
  - split; [discriminate | intros [[= <-] H]; congruence].
  - split; [discriminate | intros [H _]; discriminate].
Qed.

End EnclosingDirectory.

(** *** The classification on the sample files *)

Ltac distinct_strings :=
  repeat (constructor; [simpl; intuition discriminate|]); constructor.

(** The scenario of the specification: one entry, one asset; the file in a
    subdirectory of the asset folder and the [+layout] file are dropped. *)
Example scenario_classified :
  let l := createFileList [Sample.posts] [Sample.images] Sample.mdExtension
             Sample.scenarioFiles in
  List.map itemPath (entryFiles l) = ["content/posts/a.md"]
  /\ List.map itemPath (assetFiles l) = ["static/images/cat.png"]
  /\ count l = 2.
Proof. vm_compute. repeat split. Qed.

(** Two folders match, the later one in the list is the one attached. *)
Example last_matching_folder_attached :
  entryFiles (createFileList [Sample.content; Sample.posts] [] Sample.mdExtension
                [Sample.file "content/posts/a.md"])
  = [{| fileInfo := Sample.file "content/posts/a.md"; type := entry Sample.posts |}]
  /\ entryFolderMatches "content/posts/a.md" Sample.content = true.
Proof. vm_compute. split; reflexivity. Qed.

(** C2, as stated, fails: the claim tests [filePathMap] first and
    [folderPath] otherwise, the code tests a non-empty [folderPath] first.
    A folder with both is matched by its prefix though the path is not in
    its map; a folder whose [folderPath] is the empty string matches no path
    though every path starts with the empty string. *)
Lemma entry_folder_test_counterexample :
  (entryFiles (createFileList [Sample.pages] [] Sample.mdExtension
                 [Sample.file "content/x.md"])
   = [{| fileInfo := Sample.file "content/x.md"; type := entry Sample.pages |}]
   /\ specEntryConfigOf [Sample.pages] Sample.mdExtension "content/x.md" = None)
  /\ (entryFiles (createFileList [Sample.root] [] Sample.mdExtension
                    [Sample.file "x.md"]) = []
      /\ specEntryConfigOf [Sample.root] Sample.mdExtension "x.md" = Some Sample.root).
Proof. vm_compute. repeat split. Qed.

(** C3, the input on which the code departs from it: under the asset folder
    [static] (not entry-relative), the file [dog.png] of the subdirectory
    whose name holds a line feed is listed as an asset of [static], though
    its parent directory is not [static]. *)
Lemma asset_in_subdirectory_listed :
  assetFiles (createFileList [] [Sample.static] Sample.mdExtension
                [Sample.file Sample.lineFeedPath])
  = [{| fileInfo := Sample.file Sample.lineFeedPath; type := asset Sample.static |}]
  /\ parentDirectory Sample.lineFeedPath = Some ("static/x" ++ String "010" "y")%string
  /\ parentDirectory Sample.lineFeedPath <> Some (internalPath Sample.static).
Proof. vm_compute. repeat split. discriminate. Qed.

(** The files of the scenario have distinct paths, and so has [allFiles]. *)
Lemma allFiles_paths_distinct_witness :
  List.NoDup (List.map path Sample.scenarioFiles)
  /\ List.NoDup
       (List.map itemPath
          (allFiles (createFileList [Sample.posts] [Sample.images] Sample.mdExtension
                       Sample.scenarioFiles))).
Proof.
  assert (H : List.NoDup (List.map path Sample.scenarioFiles))
    by (simpl; distinct_strings).
  split; [exact H|].
  exact (proj1 (allFiles_paths_distinct [Sample.posts] [Sample.images]
                  Sample.mdExtension Sample.scenarioFiles) H).
Defined.

(** ** Properties of [fetchAndParseFiles] *)

Ltac run_task :=
  unfold bind, ret, await, metaDB_get, metaDB_set, cacheDB_entries,
    cacheDB_saveEntries, cacheDB_deleteEntries, repository_branch,
    repository_setBranch, allEntries_set, allAssets_set, dataLoaded_set;
  simpl.

Section Sync.

Context {Meta Entry Asset : Type}.
Variable allEntryFolders : list CollectionEntryFolder.
Variable allAssetFolders : list CollectionAssetFolder.
Variable getFileExtension : CollectionEntryFolder -> string.
Variable parseEntryFiles : list (ListItem Meta) -> list Entry.
Variable parseAssetFiles : list (ListItem Meta * string) -> list Asset.

Local Abbreviation World := (World Meta Entry Asset).
Local Abbreviation createFileList :=
  (createFileList (Meta:=Meta) allEntryFolders allAssetFolders getFileExtension).
Local Abbreviation resolveBranch := (resolveBranch (Meta:=Meta) (Entry:=Entry) (Asset:=Asset)).
Local Abbreviation resolveFileList :=
  (resolveFileList (Entry:=Entry) (Asset:=Asset)
     allEntryFolders allAssetFolders getFileExtension).
Local Abbreviation loadFiles := (loadFiles parseEntryFiles parseAssetFiles).
Local Abbreviation fetchAndParseFiles :=
  (fetchAndParseFiles allEntryFolders allAssetFolders getFileExtension
     parseEntryFiles parseAssetFiles).

Lemma nonEmpty_spec {A : Type} (l : list A) : nonEmpty l = true <-> l <> [].
Proof. unfold nonEmpty. destruct l; simpl; split; congruence. Qed.

Lemma nonEmpty_false {A : Type} (l : list A) : nonEmpty l = false <-> l = [].
Proof. unfold nonEmpty. destruct l; simpl; split; congruence. Qed.

Lemma cacheIsCurrent_spec (cachedHash : option string) (lastHash : string)
    (entries : list (string * FileData Meta)) :
  cacheIsCurrent cachedHash lastHash entries = true <->
  cachedHash = Some lastHash /\ lastHash <> EmptyString /\ entries <> [].
Proof.
  unfold cacheIsCurrent. rewrite !andb_true_iff, nonEmpty_spec.
  destruct cachedHash as [c|]; simpl.
  - unfold JS.truthy. rewrite negb_true_iff, String.eqb_neq, String.eqb_eq. split.
    + intros [[Hc ->] He]. tauto.
    + intros ([= ->] & Hh & He). tauto.
  - split; [intros [[H _] _]; discriminate | intros [H _]; discriminate].
Qed.

Lemma skipn_length_app {A : Type} (l cs : list A) :
  List.skipn (length l) (l ++ cs) = cs.
Proof. induction l; simpl; auto. Qed.

(** What [resolveBranch] leaves of the world. *)
Lemma resolveBranch_world (args : Args Meta) (w w1 : World) (b : string) :
  resolveBranch args w = (Some b, w1) ->
  lastCommitHash w1 = lastCommitHash w
  /\ fileCache w1 = fileCache w
  /\ allEntries w1 = allEntries w
  /\ allAssets w1 = allAssets w
  /\ dataLoaded w1 = dataLoaded w
  /\ (exists cs, calls w1 = calls w ++ cs
                 /\ forall c, In c cs -> c = FetchDefaultBranchName).
Proof.
  unfold resolveBranch. run_task.
  destruct (JS.truthyOpt (repositoryBranch w)).
  - intros [= <- <-]. repeat split. exists []. rewrite app_nil_r. split; [reflexivity | intros c []].
  - destruct (fetchDefaultBranchName args) as [b'|]; [|discriminate].
    intros [= <- <-]. simpl. repeat split.
    exists [FetchDefaultBranchName]. split; [reflexivity|].
    intros c [<-|[]]. reflexivity.
Qed.

(** The branch is found again by the next sync, whatever else changed. *)
Lemma resolveBranch_again (args : Args Meta) (w w1 v : World) (b : string) :
  resolveBranch args w = (Some b, w1) ->
  repositoryBranch v = repositoryBranch w1 ->
  exists v1, resolveBranch args v = (Some b, v1).
Proof.
  unfold resolveBranch. run_task. intros H Hv. rewrite Hv.
  destruct (JS.truthyOpt (repositoryBranch w)) eqn:Ht.
  - injection H as <- <-. rewrite Ht. eauto.
  - destruct (fetchDefaultBranchName args) as [b'|]; [|discriminate].
    injection H as <- <-. simpl.
    destruct (JS.truthy b'); eauto.
Qed.

(** The sync once the branch and the commit hash are known. *)
Lemma sync_after_hash (args : Args Meta) (w w1 : World) (b h : string) :
  resolveBranch args w = (Some b, w1) ->
  fetchLastCommitHash args b = Some h ->
  fetchAndParseFiles args w
  = bind (resolveFileList args b (lastCommitHash w) (fileCache w) h)
         (loadFiles args b (fileCache w))
         (logCall (FetchLastCommitHash b) w1).
Proof.
  intros Hb Hh. unfold fetchAndParseFiles.
  unfold bind at 1 2 3 4, metaDB_get, cacheDB_entries, await. simpl.
  rewrite Hb, Hh. reflexivity.
Qed.


Lemma loadFiles_empty (args : Args Meta) (b : string)
    (entries : list (string * FileData Meta)) (fl : FileList Meta) (w : World) :
  count fl = 0 ->
  loadFiles args b entries fl w
  = (Some tt, withDataLoaded true (withAllAssets [] (withAllEntries [] w))).
Proof. intros H. unfold loadFiles. rewrite H. reflexivity. Qed.

Lemma loadFiles_calls (args : Args Meta) (b : string)
    (entries : list (string * FileData Meta)) (fl : FileList Meta) (w : World) :
  calls (snd (loadFiles args b entries fl w)) = calls w ++ loadCalls args b entries fl.
Proof.
  unfold loadFiles, loadCalls, deleteCalls.
  destruct (Nat.eqb (count fl) 0); run_task; [now rewrite app_nil_r|].
  destruct (nonEmpty (fetchingFilesOf _ _)); run_task.
  - destruct (fetchFileContents args b _); simpl; [|reflexivity].
    destruct (nonEmpty (unusedPathsOf _ _)); simpl; now rewrite <- !app_assoc.
  - destruct (nonEmpty (unusedPathsOf _ _)); simpl; [reflexivity | now rewrite app_nil_r].
Qed.

(** [loadFiles] writes neither the commit hash nor the branch. *)
Lemma loadFiles_frame (args : Args Meta) (b : string)
    (entries : list (string * FileData Meta)) (fl : FileList Meta) (w : World) :
  lastCommitHash (snd (loadFiles args b entries fl w)) = lastCommitHash w
  /\ repositoryBranch (snd (loadFiles args b entries fl w)) = repositoryBranch w.
Proof.
  unfold loadFiles.
  destruct (Nat.eqb (count fl) 0); run_task; [now split|].
  destruct (nonEmpty (fetchingFilesOf _ _)); run_task.
  - destruct (fetchFileContents args b _); simpl; [|now split].
    destruct (nonEmpty (unusedPathsOf _ _)); simpl; now split.
  - destruct (nonEmpty (unusedPathsOf _ _)); simpl; now split.
Qed.

(** A non-empty file list whose contents are at hand is published, and the
    cache reconciled. *)
Lemma loadFiles_completes (args : Args Meta) (b : string)
    (entries : list (string * FileData Meta)) (fl : FileList Meta) (w : World)
    (fetched : gmap string (FileData Meta)) :
  count fl <> 0 ->
  fetchedFileMapOf args b (fromEntries entries) fl = Some fetched ->
  exists w',
    loadFiles args b entries fl w = (Some tt, w')
    /\ allEntries w' = publishedEntries parseEntryFiles (fromEntries entries) fetched fl
    /\ allAssets w' = publishedAssets parseAssetFiles (fromEntries entries) fetched fl
    /\ dataLoaded w' = true
    /\ fileCache w' = reconciledCache (fromEntries entries) fl fetched (fileCache w).
Proof.
  intros Hc Hf. unfold loadFiles, fetchedFileMapOf, reconciledCache in *.
  apply Nat.eqb_neq in Hc. rewrite Hc. run_task.
  destruct (nonEmpty (fetchingFilesOf _ _)); run_task.
  - rewrite Hf. simpl.
    destruct (nonEmpty (unusedPathsOf _ _)); simpl; eexists; repeat split.
  - injection Hf as <-.
    destruct (nonEmpty (unusedPathsOf _ _)); simpl; eexists; repeat split.
Qed.

(** When fetching the contents fails, nothing is published or cached. *)
Lemma loadFiles_fails (args : Args Meta) (b : string)
    (entries : list (string * FileData Meta)) (fl : FileList Meta) (w : World) :
  count fl <> 0 ->
  fetchedFileMapOf args b (fromEntries entries) fl = None ->
  loadFiles args b entries fl w
  = (None, logCall (FetchFileContents b (fetchingFilesOf (fromEntries entries) fl)) w).
Proof.
  intros Hc Hf. unfold loadFiles, fetchedFileMapOf in *.
  apply Nat.eqb_neq in Hc. rewrite Hc. run_task.
  destruct (nonEmpty (fetchingFilesOf _ _)); [|discriminate].
  run_task. now rewrite Hf.
Qed.

Lemma loadCalls_kinds (args : Args Meta) (b : string)
    (entries : list (string * FileData Meta)) (fl : FileList Meta) (c : Call Meta) :
  In c (loadCalls args b entries fl) ->
  (exists files, c = FetchFileContents b files /\ files <> [])
  \/ (exists es, c = SaveEntries es)
  \/ (exists ps, c = DeleteEntries ps).
Proof.
  unfold loadCalls, deleteCalls.
  destruct (Nat.eqb (count fl) 0); [intros []|].
  destruct (nonEmpty (fetchingFilesOf _ _)) eqn:Hne.
  - apply nonEmpty_spec in Hne. intros [<-|Hin]; [left; eauto|].
    destruct (fetchFileContents args b _); [|destruct Hin].
    destruct Hin as [<-|Hin]; [right; left; eauto|].
    destruct (nonEmpty (unusedPathsOf _ _)); [|destruct Hin].
    destruct Hin as [<-|[]]. right; right; eauto.
  - destruct (nonEmpty (unusedPathsOf _ _)); [|intros []].
    intros [<-|[]]. right; right; eauto.
Qed.


(** The sync from the resolution of the file list on, in its two cases. *)
Lemma sync_cache_current (args : Args Meta) (w w1 : World) (b h : string) :
  resolveBranch args w = (Some b, w1) ->
  fetchLastCommitHash args b = Some h ->
  cacheIsCurrent (lastCommitHash w) h (fileCache w) = true ->
  fetchAndParseFiles args w
  = loadFiles args b (fileCache w)
      (cachedFileList allEntryFolders allAssetFolders getFileExtension (fileCache w))
      (logCall (FetchLastCommitHash b) w1).
Proof.
  intros Hb Hh Hc. rewrite (sync_after_hash args w w1 b h Hb Hh).
  unfold resolveFileList. rewrite Hc. reflexivity.
Qed.

Lemma sync_full_refresh (args : Args Meta) (w w1 : World) (b h : string) :
  resolveBranch args w = (Some b, w1) ->
  fetchLastCommitHash args b = Some h ->
  cacheIsCurrent (lastCommitHash w) h (fileCache w) = false ->
  fetchAndParseFiles args w
  = match fetchFileList args b with
    | Some files =>
        loadFiles args b (fileCache w) (createFileList files)
          (withLastCommitHash (Some h)
             (logCall (MetaSet h)
                (logCall (FetchFileList b) (logCall (FetchLastCommitHash b) w1))))
    | None => (None, logCall (FetchFileList b) (logCall (FetchLastCommitHash b) w1))
    end.
Proof.
  intros Hb Hh Hc. rewrite (sync_after_hash args w w1 b h Hb Hh).
  unfold resolveFileList. rewrite Hc. run_task.
  destruct (fetchFileList args b); reflexivity.
Qed.

Lemma sync_calls (args : Args Meta) (w w1 : World) (b h : string) :
  resolveBranch args w = (Some b, w1) ->
  fetchLastCommitHash args b = Some h ->
  exists cs,
    (forall c, In c cs -> c = FetchDefaultBranchName)
    /\ callsDuring (fetchAndParseFiles args) w
       = cs ++ FetchLastCommitHash b
               :: callsAfterHash allEntryFolders allAssetFolders getFileExtension
                    args b (lastCommitHash w) (fileCache w) h.
Proof.
  intros Hb Hh. destruct (resolveBranch_world args w w1 b Hb) as (_ & _ & _ & _ & _ & cs & Hcs & Hkind).
  exists cs. split; [assumption|].
  unfold callsDuring, callsAfterHash.
  destruct (cacheIsCurrent (lastCommitHash w) h (fileCache w)) eqn:Hc.
  - rewrite (sync_cache_current args w w1 b h Hb Hh Hc), loadFiles_calls. simpl.
    rewrite Hcs, <- !app_assoc. apply skipn_length_app.
  - rewrite (sync_full_refresh args w w1 b h Hb Hh Hc).
    destruct (fetchFileList args b) as [files|].
    + rewrite loadFiles_calls. simpl. rewrite Hcs, <- !app_assoc. apply skipn_length_app.
    + simpl. rewrite Hcs, <- !app_assoc. apply skipn_length_app.
Qed.

(** C1: in a sync that resolves the branch and the commit hash (the hash of
    a commit, which is not the empty string), [fetchFileList] is called if
    and only if it is not the case that the cached hash equals the resolved
    hash and the file cache is non-empty; in that case the sync is
    [loadFiles] on the file list rebuilt from the cached records. *)
Theorem file_list_fetched_unless_cache_current (args : Args Meta) (w w1 : World) (b h : string) :
  resolveBranch args w = (Some b, w1) ->
  fetchLastCommitHash args b = Some h ->
  h <> EmptyString ->
  ((exists b', In (FetchFileList b') (callsDuring (fetchAndParseFiles args) w))
   <-> ~ (lastCommitHash w = Some h /\ fileCache w <> []))
  /\ (lastCommitHash w = Some h /\ fileCache w <> [] ->
      fetchAndParseFiles args w
      = loadFiles args b (fileCache w)
          (cachedFileList allEntryFolders allAssetFolders getFileExtension (fileCache w))
          (logCall (FetchLastCommitHash b) w1)).
Proof.
  intros Hb Hh Hne.
  assert (Hcur : (lastCommitHash w = Some h /\ fileCache w <> [])
                 <-> (lastCommitHash w = Some h /\ h <> EmptyString /\ fileCache w <> []))
    by tauto.
  rewrite Hcur. clear Hcur Hne. split.
  - destruct (sync_calls args w w1 b h Hb Hh) as (cs & Hcs & ->).
    rewrite <- cacheIsCurrent_spec. unfold callsAfterHash.
    destruct (cacheIsCurrent (lastCommitHash w) h (fileCache w)) eqn:Hc.
    + split; [|congruence]. intros [b' Hin] _.
      apply in_app_or in Hin. destruct Hin as [Hin|[Hin|Hin]].
      * apply Hcs in Hin. discriminate.
      * discriminate.
      * apply loadCalls_kinds in Hin.
        destruct Hin as [(? & ? & _)|[(? & ?)|(? & ?)]]; discriminate.
    + split; [congruence|]. intros _. exists b.
      apply in_or_app. right. right. now left.
  - intros Hcur. apply cacheIsCurrent_spec in Hcur.
    now apply sync_cache_current with (h := h).
Qed.

(** C7: in a sync that takes the full-refresh path and obtains the file
    list, [metaDB.set('last_commit_hash', lastHash)] is the call that follows
    [fetchFileList], before any [fetchFileContents]; the hash is the stored
    one when the sync ends, whether it ends normally or with the failure of
    [fetchFileContents]. *)
Theorem hash_persisted_before_contents (args : Args Meta) (w w1 : World) (b h : string)
    (files : list (BaseFileListItem Meta)) :
  resolveBranch args w = (Some b, w1) ->
  fetchLastCommitHash args b = Some h ->
  ~ (lastCommitHash w = Some h /\ h <> EmptyString /\ fileCache w <> []) ->
  fetchFileList args b = Some files ->
  lastCommitHash (snd (fetchAndParseFiles args w)) = Some h
  /\ exists before after,
       callsDuring (fetchAndParseFiles args) w
       = before ++ FetchFileList b :: MetaSet h :: after
       /\ (forall c, In c before -> c = FetchDefaultBranchName \/ c = FetchLastCommitHash b)
       /\ (forall c, In c after ->
             (exists fs, c = FetchFileContents b fs)
             \/ (exists es, c = SaveEntries es)
             \/ (exists ps, c = DeleteEntries ps)).
Proof.
  intros Hb Hh Hnot Hfiles.
  assert (Hc : cacheIsCurrent (lastCommitHash w) h (fileCache w) = false).
  { destruct (cacheIsCurrent _ _ _) eqn:E; [|reflexivity].
    apply cacheIsCurrent_spec in E. contradiction. }
  split.
  - rewrite (sync_full_refresh args w w1 b h Hb Hh Hc), Hfiles.
    now rewrite (proj1 (loadFiles_frame _ _ _ _ _)).
  - destruct (sync_calls args w w1 b h Hb Hh) as (cs & Hcs & ->).
    unfold callsAfterHash. rewrite Hc, Hfiles.
    exists (cs ++ [FetchLastCommitHash b]),
           (loadCalls args b (fileCache w) (createFileList files)).
    repeat split.
    + now rewrite <- app_assoc.
    + intros c Hin. apply in_app_or in Hin. destruct Hin as [Hin|[<-|[]]]; auto.
    + intros c Hin. apply loadCalls_kinds in Hin.
      destruct Hin as [(fs & -> & _)|[?|?]]; eauto.
Qed.

(** C9: when the classified file list has count 0, the sync ends normally
    with empty entries and assets published and the load-complete flag set,
    and [fetchFileContents] is not called. *)
Theorem empty_file_list_completes (args : Args Meta) (w w1 w2 : World) (b h : string)
    (fileList : FileList Meta) :
  resolveBranch args w = (Some b, w1) ->
  fetchLastCommitHash args b = Some h ->
  resolveFileList args b (lastCommitHash w) (fileCache w) h
    (logCall (FetchLastCommitHash b) w1) = (Some fileList, w2) ->
  count fileList = 0 ->
  exists w',
    fetchAndParseFiles args w = (Some tt, w')
    /\ allEntries w' = []
    /\ allAssets w' = []
    /\ dataLoaded w' = true
    /\ forall b' fs, ~ In (FetchFileContents b' fs) (callsDuring (fetchAndParseFiles args) w).
Proof.
  intros Hb Hh Hl Hcount.
  exists (withDataLoaded true (withAllAssets [] (withAllEntries [] w2))).
  split; [|repeat split].
  - rewrite (sync_after_hash args w w1 b h Hb Hh). unfold bind. rewrite Hl.
    now apply loadFiles_empty.
  - intros b' fs Hin.
    destruct (sync_calls args w w1 b h Hb Hh) as (cs & Hcs & Heq).
    rewrite Heq in Hin. clear Heq.
    assert (Hno : forall es fl, count fl = 0 ->
              loadCalls args b es fl = []).
    { intros es fl H. unfold loadCalls. now rewrite H. }
    unfold resolveFileList, callsAfterHash in *.
    destruct (cacheIsCurrent (lastCommitHash w) h (fileCache w)).
    + injection Hl as <- <-. unfold cachedFileList in Hin. rewrite Hno in Hin by assumption.
      apply in_app_or in Hin. destruct Hin as [Hin|[Hin|[]]]; [|discriminate].
      apply Hcs in Hin. discriminate.
    + revert Hl. run_task. destruct (fetchFileList args b) as [files|]; [|discriminate].
      intros [= <- <-]. rewrite Hno in Hin by assumption.
      apply in_app_or in Hin. destruct Hin as [Hin|[Hin|[Hin|[Hin|[]]]]]; try discriminate.
      apply Hcs in Hin. discriminate.
Qed.

End Sync.

(** *** The object store and the objects built from its entries *)

Section Store.

Context {Meta : Type}.
Implicit Types (db es : list (string * FileData Meta)) (k : string).

Lemma getEntry_cons db (e : string * FileData Meta) k :
  getEntry k (e :: db) = if String.eqb (fst e) k then Some (snd e) else getEntry k db.
Proof. unfold getEntry. simpl. now destruct (String.eqb (fst e) k). Qed.

Lemma getEntry_Some_In db k (r : FileData Meta) :
  getEntry k db = Some r -> In (k, r) db.
Proof.
  induction db as [|[k' r'] db IH]; [discriminate|].
  rewrite getEntry_cons. simpl.
  destruct (String.eqb_spec k' k) as [->|]; [intros [= ->]; now left | auto].
Qed.

Lemma getEntry_None db k : getEntry k db = None <-> ~ In k (List.map fst db).
Proof.
  induction db as [|[k' r'] db IH]; [simpl; tauto|].
  rewrite getEntry_cons. simpl.
  destruct (String.eqb_spec k' k) as [->|Hne].
  - split; [discriminate | intros H; exfalso; apply H; now left].
  - rewrite IH. tauto.
Qed.

Lemma getEntry_deleteEntries db (paths : list string) k :
  getEntry k (deleteEntries paths db)
  = if JS.includes paths k then None else getEntry k db.
Proof.
  induction db as [|[k' r'] db IH]; simpl.
  - now destruct (JS.includes paths k).
  - destruct (JS.includes paths k') eqn:Hk'; simpl.
    + rewrite IH, getEntry_cons. simpl.
      destruct (String.eqb_spec k' k) as [->|]; [now rewrite Hk' | reflexivity].
    + rewrite !getEntry_cons, IH. simpl.
      destruct (String.eqb_spec k' k) as [->|]; [now rewrite Hk' | reflexivity].
Qed.

Lemma hasKey_spec db k : hasKey k db = true <-> In k (List.map fst db).
Proof.
  unfold hasKey. rewrite existsb_exists, in_map_iff. split.
  - intros (e & He & Heq). apply String.eqb_eq in Heq. eauto.
  - intros (e & Heq & He). exists e. split; [assumption | now apply String.eqb_eq].
Qed.

Lemma getEntry_replace db (e : string * FileData Meta) k :
  getEntry k (List.map (fun e' => if String.eqb (fst e') (fst e) then e else e') db)
  = if String.eqb (fst e) k
    then (if hasKey (fst e) db then Some (snd e) else None)
    else getEntry k db.
Proof.
  induction db as [|[k' r'] db IH]; simpl.
  - now destruct (String.eqb (fst e) k).
  - unfold hasKey in *. simpl.
    destruct (String.eqb_spec k' (fst e)) as [->|Hne]; rewrite !getEntry_cons, IH; simpl.
    + destruct (String.eqb_spec (fst e) k); reflexivity.
    + destruct (String.eqb_spec (fst e) k) as [Heq|]; [|reflexivity].
      destruct (String.eqb_spec k' k); [congruence | reflexivity].
Qed.

Lemma getEntry_app db1 db2 k :
  getEntry k (db1 ++ db2)
  = match getEntry k db1 with Some r => Some r | None => getEntry k db2 end.
Proof.
  induction db1 as [|e db1 IH]; [reflexivity|].
  simpl. rewrite !getEntry_cons, IH. now destruct (String.eqb (fst e) k).
Qed.

Lemma getEntry_saveEntry db (e : string * FileData Meta) k :
  getEntry k (saveEntry db e)
  = if String.eqb (fst e) k then Some (snd e) else getEntry k db.
Proof.
  unfold saveEntry. destruct (hasKey (fst e) db) eqn:Hk.
  - now rewrite getEntry_replace, Hk.
  - rewrite getEntry_app, getEntry_cons. simpl.
    destruct (String.eqb_spec (fst e) k) as [Heq|Hne].
    + assert (Hnot : getEntry k db = None).
      { apply getEntry_None. intros H. apply hasKey_spec in H. congruence. }
      now rewrite Hnot.
    + now destruct (getEntry k db).
Qed.

Lemma getEntry_saveEntries_other es db k :
  ~ In k (List.map fst es) -> getEntry k (saveEntries es db) = getEntry k db.
Proof.
  unfold saveEntries. revert db. induction es as [|e es IH]; intros db Hk; simpl; [reflexivity|].
  rewrite IH by (intros H; apply Hk; now right).
  rewrite getEntry_saveEntry.
  destruct (String.eqb_spec (fst e) k) as [Heq|]; [|reflexivity].
  exfalso. apply Hk. now left.
Qed.

(** Saving entries under distinct keys stores each of them. *)
Lemma getEntry_saveEntries es db k (r : FileData Meta) :
  List.NoDup (List.map fst es) -> In (k, r) es ->
  getEntry k (saveEntries es db) = Some r.
Proof.
  unfold saveEntries. revert db. induction es as [|e es IH]; intros db Hnd Hin; [destruct Hin|].
  simpl in *. inversion Hnd as [|? ? Hnotin Hnd']; subst.
  destruct Hin as [->|Hin].
  - fold (saveEntries es (saveEntry db (k, r))).
    rewrite getEntry_saveEntries_other by assumption.
    rewrite getEntry_saveEntry. simpl. now rewrite String.eqb_refl.
  - now apply IH.
Qed.

Lemma fromEntries_snoc es (e : string * FileData Meta) :
  fromEntries (es ++ [e]) = <[fst e := snd e]> (fromEntries es).
Proof. unfold fromEntries. now rewrite fold_left_app. Qed.

Lemma fromEntries_is_Some es k :
  is_Some (fromEntries es !! k) <-> In k (List.map fst es).
Proof.
  induction es as [|e es IH] using rev_ind.
  - unfold fromEntries. simpl. rewrite lookup_empty. split; [intros [? ?]; discriminate | tauto].
  - rewrite fromEntries_snoc, map_app, in_app_iff. simpl.
    destruct (decide (fst e = k)) as [->|Hne].
    + rewrite lookup_insert_eq. split; [tauto | eauto].
    + rewrite lookup_insert_ne by assumption. rewrite IH. tauto.
Qed.

Lemma objectKeys_In (o : gmap string (FileData Meta)) k :
  In k (objectKeys o) <-> is_Some (o !! k).
Proof.
  unfold objectKeys. rewrite in_map_iff. split.
  - intros ([k' r] & <- & Hin). apply list_elem_of_In, elem_of_map_to_list in Hin. eauto.
  - intros [r Hr]. exists (k, r). split; [reflexivity|].
    now apply list_elem_of_In, elem_of_map_to_list.
Qed.

Lemma objectEntries_In (o : gmap string (FileData Meta)) k (r : FileData Meta) :
  In (k, r) (objectEntries o) <-> o !! k = Some r.
Proof. unfold objectEntries. rewrite <- list_elem_of_In. apply elem_of_map_to_list. Qed.

Lemma objectEntries_NoDup (o : gmap string (FileData Meta)) :
  List.NoDup (List.map fst (objectEntries o)).
Proof. apply NoDup_ListNoDup, NoDup_fst_map_to_list. Qed.

(** Filtering the entries on their keys keeps the object at the keys kept. *)
Lemma fromEntries_filter es (q : string -> bool) k :
  q k = true ->
  fromEntries (List.filter (fun e => q (fst e)) es) !! k = fromEntries es !! k.
Proof.
  intros Hq. induction es as [|e es IH] using rev_ind; [reflexivity|].
  rewrite List.filter_app. simpl. destruct (q (fst e)) eqn:He.
  - rewrite !fromEntries_snoc.
    destruct (decide (fst e = k)) as [->|Hne].
    + now rewrite !lookup_insert_eq.
    + now rewrite !lookup_insert_ne.
  - rewrite app_nil_r, fromEntries_snoc, lookup_insert_ne; [assumption|].
    intros Heq. rewrite Heq in He. congruence.
Qed.

End Store.

(** *** The cache after a sync *)

Section SyncCache.

Context {Meta Entry Asset : Type}.
Variable allEntryFolders : list CollectionEntryFolder.
Variable allAssetFolders : list CollectionAssetFolder.
Variable getFileExtension : CollectionEntryFolder -> string.
Variable parseEntryFiles : list (ListItem Meta) -> list Entry.
Variable parseAssetFiles : list (ListItem Meta * string) -> list Asset.

Local Abbreviation World := (World Meta Entry Asset).
Local Abbreviation createFileList :=
  (createFileList (Meta:=Meta) allEntryFolders allAssetFolders getFileExtension).
Local Abbreviation resolveBranch := (resolveBranch (Meta:=Meta) (Entry:=Entry) (Asset:=Asset)).
Local Abbreviation resolveFileList :=
  (resolveFileList (Entry:=Entry) (Asset:=Asset)
     allEntryFolders allAssetFolders getFileExtension).
Local Abbreviation loadFiles := (loadFiles parseEntryFiles parseAssetFiles).
Local Abbreviation fetchAndParseFiles :=
  (fetchAndParseFiles allEntryFolders allAssetFolders getFileExtension
     parseEntryFiles parseAssetFiles).

Lemma resolveFileList_world (args : Args Meta) (b h : string) (cachedHash : option string)
    (entries : list (string * FileData Meta)) (w w2 : World) (fl : FileList Meta) :
  resolveFileList args b cachedHash entries h w = (Some fl, w2) ->
  fileCache w2 = fileCache w
  /\ repositoryBranch w2 = repositoryBranch w
  /\ exists cs, calls w2 = calls w ++ cs
                /\ forall c, In c cs -> c = FetchFileList b \/ c = MetaSet h.
Proof.
  unfold resolveFileList. destruct (cacheIsCurrent cachedHash h entries).
  - intros [= <- <-]. repeat split. exists []. rewrite app_nil_r. split; [reflexivity | intros c []].
  - run_task. destruct (fetchFileList args b); [|discriminate].
    intros [= <- <-]. simpl. repeat split.
    exists [FetchFileList b; MetaSet h]. rewrite <- app_assoc. split; [reflexivity|].
    intros c [<-|[<-|[]]]; auto.
Qed.

(** A sync that ends normally went through its three stages. *)
Lemma sync_completed_inv (args : Args Meta) (w w' : World) :
  fetchAndParseFiles args w = (Some tt, w') ->
  exists b h w1 w2 fl pre,
    resolveBranch args w = (Some b, w1)
    /\ fetchLastCommitHash args b = Some h
    /\ resolveFileList args b (lastCommitHash w) (fileCache w) h
         (logCall (FetchLastCommitHash b) w1) = (Some fl, w2)
    /\ loadFiles args b (fileCache w) fl w2 = (Some tt, w')
    /\ fileCache w2 = fileCache w
    /\ callsDuring (fetchAndParseFiles args) w = pre ++ loadCalls args b (fileCache w) fl
    /\ forall c, In c pre ->
         c = FetchDefaultBranchName \/ c = FetchLastCommitHash b
         \/ c = FetchFileList b \/ c = MetaSet h.
Proof.
  intros Hrun.
  destruct (resolveBranch args w) as [[b|] w1] eqn:Hb.
  2:{ revert Hrun. unfold fetchAndParseFiles.
      unfold bind at 1 2 3, metaDB_get, cacheDB_entries. simpl. rewrite Hb. discriminate. }
  destruct (fetchLastCommitHash args b) as [h|] eqn:Hh.
  2:{ revert Hrun. unfold fetchAndParseFiles.
      unfold bind at 1 2 3 4, metaDB_get, cacheDB_entries, await. simpl.
      rewrite Hb, Hh. discriminate. }
  pose proof Hrun as Hrun'.
  rewrite (sync_after_hash _ _ _ _ _ args w w1 b h Hb Hh) in Hrun'. unfold bind in Hrun'.
  destruct (resolveFileList args b (lastCommitHash w) (fileCache w) h
              (logCall (FetchLastCommitHash b) w1)) as [[fl|] w2] eqn:Hl; [|discriminate].
  destruct (resolveBranch_world args w w1 b Hb) as (_ & Hfc1 & _ & _ & _ & cs1 & Hcs1 & Hk1).
  destruct (resolveFileList_world _ _ _ _ _ _ _ _ Hl) as (Hfc2 & _ & cs2 & Hcs2 & Hk2).
  simpl in Hfc2, Hcs2.
  exists b, h, w1, w2, fl, (cs1 ++ [FetchLastCommitHash b] ++ cs2).
  repeat split; try assumption.
  - congruence.
  - unfold callsDuring. rewrite Hrun. simpl.
    replace w' with (snd (loadFiles args b (fileCache w) fl w2)) by now rewrite Hrun'.
    rewrite loadFiles_calls, Hcs2, Hcs1. rewrite <- ?app_assoc. simpl.
    rewrite <- ?app_assoc. apply skipn_length_app.
  - intros c Hin. apply in_app_or in Hin. destruct Hin as [Hin|[<-|Hin]].
    + left. now apply Hk1.
    + right. now left.
    + destruct (Hk2 c Hin); auto.
Qed.

Lemma restoreCached_path (cachedFiles : gmap string (FileData Meta)) (file : ListItem Meta) :
  itemPath (restoreCached cachedFiles file) = itemPath file.
Proof.
  unfold restoreCached. destruct (strictEq _ _); [|reflexivity].
  now destruct (cachedFiles !! itemPath file).
Qed.

Lemma restoreAll_paths (cachedFiles : gmap string (FileData Meta)) (files : list (ListItem Meta)) :
  List.map itemPath (restoreAll cachedFiles files) = List.map itemPath files.
Proof.
  unfold restoreAll. rewrite List.map_map. apply map_ext, restoreCached_path.
Qed.

(** The paths deleted from the cache: those of its records that are not
    paths of [allFiles]. *)
Lemma unusedPathsOf_In (entries : list (string * FileData Meta)) (fl : FileList Meta)
    (p : string) :
  In p (unusedPathsOf (fromEntries entries) fl) <->
  In p (List.map fst entries) /\ ~ In p (List.map itemPath (allFiles fl)).
Proof.
  unfold unusedPathsOf. rewrite filter_In, objectKeys_In, fromEntries_is_Some.
  rewrite restoreAll_paths, negb_true_iff.
  split; intros [H1 H2]; (split; [assumption|]).
  - intros Hin. apply includes_In in Hin. congruence.
  - destruct (JS.includes _ p) eqn:E; [|reflexivity].
    apply includes_In in E. contradiction.
Qed.

Lemma getEntry_reconciledCache (entries db : list (string * FileData Meta))
    (fl : FileList Meta) (fetched : gmap string (FileData Meta)) (p : string) :
  getEntry p (reconciledCache (fromEntries entries) fl fetched db)
  = if JS.includes (unusedPathsOf (fromEntries entries) fl) p then None
    else if nonEmpty (fetchingFilesOf (fromEntries entries) fl)
         then getEntry p (saveEntries (objectEntries fetched) db)
         else getEntry p db.
Proof.
  unfold reconciledCache.
  destruct (nonEmpty (unusedPathsOf _ _)) eqn:Hu.
  - rewrite getEntry_deleteEntries.
    now destruct (nonEmpty (fetchingFilesOf _ _)).
  - apply nonEmpty_false in Hu. rewrite Hu. simpl.
    now destruct (nonEmpty (fetchingFilesOf _ _)).
Qed.

(** C4, as the code has it: when a sync ends normally and has called
    [fetchFileContents] (which it does exactly on a non-empty list of files
    to fetch), the entries of the returned object are saved to the file
    cache as they are, and for every fetched file the cache then holds,
    under the file's path, the record returned for it.  The sync adds
    nothing to that record: it has the [sha] of the file when the returned
    record has it, and then the cache holds a record with the file's [sha]
    and the returned [meta], [text] and [size]. *)
Theorem fetched_files_cached (args : Args Meta) (w w' : World) (b : string)
    (files : list (ListItem Meta)) :
  fetchAndParseFiles args w = (Some tt, w') ->
  In (FetchFileContents b files) (callsDuring (fetchAndParseFiles args) w) ->
  files <> []
  /\ exists fetched,
       fetchFileContents args b files = Some fetched
       /\ In (SaveEntries (objectEntries fetched)) (callsDuring (fetchAndParseFiles args) w)
       /\ forall file record,
            In file files ->
            fetched !! itemPath file = Some record ->
            getEntry (itemPath file) (fileCache w') = Some record
            /\ (JS.read (sha record) = JS.read (sha (data (fileInfo file))) ->
                exists cached,
                  getEntry (itemPath file) (fileCache w') = Some cached
                  /\ JS.read (sha cached) = JS.read (sha (data (fileInfo file)))
                  /\ meta cached = meta record
                  /\ text cached = text record
                  /\ size cached = size record).
Proof.
  intros Hrun Hin.
  destruct (sync_completed_inv args w w' Hrun)
    as (b0 & h & w1 & w2 & fl & pre & Hb & Hh & Hl & Hload & Hfc & Hcalls & Hpre).
  rewrite Hcalls in *. clear Hcalls.
  apply in_app_or in Hin. destruct Hin as [Hin|Hin].
  { apply Hpre in Hin. destruct Hin as [H|[H|[H|H]]]; discriminate. }
  assert (Hin' := Hin). unfold loadCalls in Hin'.
  destruct (Nat.eqb (count fl) 0) eqn:Hcount; [destruct Hin'|].
  apply Nat.eqb_neq in Hcount.
  set (cachedFiles := fromEntries (fileCache w)) in *.
  destruct (nonEmpty (fetchingFilesOf cachedFiles fl)) eqn:Hne.
  2:{ unfold deleteCalls in Hin'. destruct (nonEmpty (unusedPathsOf _ _)); [|destruct Hin'].
      destruct Hin' as [H|[]]; discriminate. }
  assert (Hfiles : b = b0 /\ files = fetchingFilesOf cachedFiles fl).
  { destruct Hin' as [[= -> ->]|Hin']; [now split|].
    destruct (fetchFileContents args b0 _); [|destruct Hin'].
    destruct Hin' as [H|Hin']; [discriminate|].
    unfold deleteCalls in Hin'. destruct (nonEmpty (unusedPathsOf _ _)); [|destruct Hin'].
    destruct Hin' as [H|[]]; discriminate. }
  destruct Hfiles as [-> ->]. clear Hin'.
  split; [now apply nonEmpty_spec|].
  destruct (fetchedFileMapOf args b0 cachedFiles fl) as [fetched|] eqn:Hf.
  2:{ rewrite (loadFiles_fails parseEntryFiles parseAssetFiles args b0 (fileCache w) fl w2 Hcount Hf) in Hload.
      discriminate. }
  assert (Hf' := Hf). unfold fetchedFileMapOf in Hf'. rewrite Hne in Hf'.
  exists fetched. split; [assumption|]. split.
  - apply in_or_app. right. unfold loadCalls.
    apply Nat.eqb_neq in Hcount. rewrite Hcount. fold cachedFiles. rewrite Hne, Hf'.
    right. now left.
  - intros file record Hfile Hrec.
    assert (Hcached : getEntry (itemPath file) (fileCache w') = Some record);
      [|split; [exact Hcached | intros Hsha; exists record; now repeat split]].
    destruct (loadFiles_completes parseEntryFiles parseAssetFiles args b0 (fileCache w) fl w2 fetched Hcount Hf)
      as (w'' & Hload' & _ & _ & _ & Hcache).
    rewrite Hload in Hload'. injection Hload' as <-.
    rewrite Hcache. fold cachedFiles. unfold cachedFiles at 1.
    rewrite getEntry_reconciledCache. fold cachedFiles. rewrite Hne.
    assert (Hused : JS.includes (unusedPathsOf cachedFiles fl) (itemPath file) = false).
    { destruct (JS.includes _ _) eqn:E; [|reflexivity].
      apply includes_In, unusedPathsOf_In in E. destruct E as [_ E]. exfalso. apply E.
      unfold fetchingFilesOf in Hfile. apply filter_In in Hfile. destruct Hfile as [Hfile _].
      rewrite <- (restoreAll_paths cachedFiles). now apply in_map. }
    rewrite Hused. apply getEntry_saveEntries.
    + apply objectEntries_NoDup.
    + now apply objectEntries_In.
Qed.

(** The garbage collection of a sync that ends normally: when the file
    list is not empty, a path that had a record before the sync and is not a
    path of [allFiles] has none after it; when the list is empty, the cache
    is left as it was. *)
Lemma unused_paths_deleted (args : Args Meta) (w w' : World) :
  fetchAndParseFiles args w = (Some tt, w') ->
  exists fl,
    (count fl <> 0 ->
     forall p, In p (List.map fst (fileCache w)) ->
               ~ In p (List.map itemPath (allFiles fl)) ->
               getEntry p (fileCache w') = None)
    /\ (count fl = 0 -> fileCache w' = fileCache w)
    /\ exists b h w1 w2,
         resolveBranch args w = (Some b, w1)
         /\ fetchLastCommitHash args b = Some h
         /\ resolveFileList args b (lastCommitHash w) (fileCache w) h
              (logCall (FetchLastCommitHash b) w1) = (Some fl, w2).
Proof.
  intros Hrun.
  destruct (sync_completed_inv args w w' Hrun)
    as (b0 & h & w1 & w2 & fl & pre & Hb & Hh & Hl & Hload & Hfc & _ & _).
  exists fl. split; [|split; [|now exists b0, h, w1, w2]].
  - intros Hcount p Hp Hnot.
    destruct (fetchedFileMapOf args b0 (fromEntries (fileCache w)) fl) as [fetched|] eqn:Hf.
    2:{ rewrite (loadFiles_fails parseEntryFiles parseAssetFiles args b0 (fileCache w) fl w2 Hcount Hf) in Hload.
        discriminate. }
    destruct (loadFiles_completes parseEntryFiles parseAssetFiles args b0 (fileCache w) fl w2 fetched Hcount Hf)
      as (w'' & Hload' & _ & _ & _ & Hcache).
    rewrite Hload in Hload'. injection Hload' as <-.
    rewrite Hcache, getEntry_reconciledCache.
    rewrite (proj2 (includes_In _ _)); [reflexivity|].
    now apply unusedPathsOf_In.
  - intros Hcount. rewrite loadFiles_empty in Hload by assumption.
    injection Hload as <-. simpl. assumption.
Qed.

End SyncCache.

(** *** Syncs on a cache that is current *)

Section CacheHit.

Context {Meta Entry Asset : Type}.
Variable allEntryFolders : list CollectionEntryFolder.
Variable allAssetFolders : list CollectionAssetFolder.
Variable getFileExtension : CollectionEntryFolder -> string.
Variable parseEntryFiles : list (ListItem Meta) -> list Entry.
Variable parseAssetFiles : list (ListItem Meta * string) -> list Asset.

Local Abbreviation World := (World Meta Entry Asset).
Local Abbreviation createFileList :=
  (createFileList (Meta:=Meta) allEntryFolders allAssetFolders getFileExtension).
Local Abbreviation cachedFileList :=
  (cachedFileList (Meta:=Meta) allEntryFolders allAssetFolders getFileExtension).
Local Abbreviation entryConfigOf := (entryConfigOf allEntryFolders getFileExtension).
Local Abbreviation assetConfigOf :=
  (assetConfigOf allEntryFolders allAssetFolders getFileExtension).
Local Abbreviation entryItemsOf :=
  (entryItemsOf (Meta:=Meta) allEntryFolders getFileExtension).
Local Abbreviation assetItemsOf :=
  (assetItemsOf (Meta:=Meta) allEntryFolders allAssetFolders getFileExtension).
Local Abbreviation resolveBranch := (resolveBranch (Meta:=Meta) (Entry:=Entry) (Asset:=Asset)).
Local Abbreviation loadFiles := (loadFiles parseEntryFiles parseAssetFiles).
Local Abbreviation fetchAndParseFiles :=
  (fetchAndParseFiles allEntryFolders allAssetFolders getFileExtension
     parseEntryFiles parseAssetFiles).

Lemma filter_nil {A : Type} (p : A -> bool) (l : list A) :
  (forall x, In x l -> p x = false) -> List.filter p l = [].
Proof.
  induction l as [|x l IH]; intros H; simpl; [reflexivity|].
  rewrite (H x) by now left. apply IH. intros y Hy. apply H. now right.
Qed.

Lemma fromEntries_lookup_In (es : list (string * FileData Meta)) (k : string)
    (r : FileData Meta) :
  fromEntries es !! k = Some r -> In (k, r) es.
Proof.
  induction es as [|e es IH] using rev_ind.
  - unfold fromEntries. simpl. now rewrite lookup_empty.
  - rewrite fromEntries_snoc, in_app_iff.
    destruct (decide (fst e = k)) as [<-|Hne].
    + rewrite lookup_insert_eq. intros [= <-]. right. left. now destruct e.
    + rewrite lookup_insert_ne by assumption. auto.
Qed.

(** The files listed by [createFileList] are files of its input. *)
Lemma allFiles_from_input (files : list (BaseFileListItem Meta)) (item : ListItem Meta) :
  In item (allFiles (createFileList files)) -> In (fileInfo item) files.
Proof.
  rewrite createFileList_spec. simpl. rewrite in_app_iff, !in_flat_map.
  intros [(f & Hf & Hin)|(f & Hf & Hin)].
  - unfold entryItemsOf in Hin. destruct (entryConfigOf _); [|destruct Hin].
    destruct Hin as [<-|[]]. assumption.
  - unfold assetItemsOf in Hin. destruct (assetConfigOf _); [|destruct Hin].
    destruct Hin as [<-|[]]. assumption.
Qed.

(** On a cache whose records all carry commit information, no file of the
    list rebuilt from it has to be fetched. *)
Lemma nothing_to_fetch (entries : list (string * FileData Meta)) :
  AllWithMeta entries ->
  fetchingFilesOf (fromEntries entries) (cachedFileList entries) = [].
Proof.
  intros Hmeta. unfold fetchingFilesOf, restoreAll.
  apply filter_nil.
  intros item Hin. apply in_map_iff in Hin. destruct Hin as (file & <- & Hfile).
  apply allFiles_from_input, in_map_iff in Hfile.
  destruct Hfile as ([p r] & Hfi & He). simpl in Hfi.
  unfold lacksMeta, restoreCached.
  assert (Hm : JS.read (meta (data (fileInfo file))) <> None).
  { rewrite <- Hfi. simpl. now apply (Hmeta p r). }
  destruct (strictEq _ _); [|now destruct (JS.read _)].
  destruct (fromEntries entries !! itemPath file) as [record|] eqn:Hrec;
    [|now destruct (JS.read _)].
  apply fromEntries_lookup_In, Hmeta in Hrec. simpl.
  destruct (meta record); simpl in *; congruence.
Qed.


(** The cache after the garbage collection of a sync on the cached list. *)
Local Abbreviation collected entries :=
  (deleteEntries (unusedPathsOf (fromEntries entries) (cachedFileList entries)) entries).

Lemma deleteEntries_nil (db : list (string * FileData Meta)) : deleteEntries [] db = db.
Proof.
  unfold deleteEntries. induction db as [|e db IH]; simpl in *; [reflexivity | congruence].
Qed.

Lemma flat_map_map_filter {A B C : Type} (g : B -> list C) (mk : A -> B)
    (keep : A -> bool) (l : list A) :
  (forall x, In x l -> keep x = false -> g (mk x) = []) ->
  flat_map g (List.map mk (List.filter keep l)) = flat_map g (List.map mk l).
Proof.
  induction l as [|x l IH]; intros H; simpl; [reflexivity|].
  destruct (keep x) eqn:Hk; simpl.
  - rewrite IH; [reflexivity|]. intros y Hy. apply H. now right.
  - rewrite (H x) by (auto; now left). simpl. apply IH. intros y Hy. apply H. now right.
Qed.

(** A record whose file is listed has its path among the paths used. *)
Lemma listed_record_used (entries : list (string * FileData Meta))
    (e : string * FileData Meta) (x : ListItem Meta) :
  In e entries ->
  In x (entryItemsOf {| path := fst e; data := snd e |})
  \/ In x (assetItemsOf {| path := fst e; data := snd e |}) ->
  In (fst e) (List.map itemPath (allFiles (cachedFileList entries))).
Proof.
  intros He Hx. unfold cachedFileList. rewrite createFileList_spec. simpl.
  apply in_map_iff. exists x. split.
  - destruct Hx as [Hx|Hx].
    + now apply entryItemsOf_path in Hx.
    + now apply assetItemsOf_path in Hx.
  - apply in_or_app. destruct Hx as [Hx|Hx]; [left | right];
      apply in_flat_map; exists {| path := fst e; data := snd e |};
      (split; [|assumption]); apply in_map_iff; now exists e.
Qed.

Lemma unused_record_not_listed (entries : list (string * FileData Meta))
    (e : string * FileData Meta) :
  In e entries ->
  negb (JS.includes (unusedPathsOf (fromEntries entries) (cachedFileList entries)) (fst e))
  = false ->
  entryItemsOf {| path := fst e; data := snd e |} = []
  /\ assetItemsOf {| path := fst e; data := snd e |} = [].
Proof.
  intros He Hk. apply negb_false_iff, includes_In, unusedPathsOf_In in Hk.
  destruct Hk as [_ Hk]. split.
  - destruct (entryItemsOf _) as [|x l] eqn:E; [reflexivity|].
    exfalso. apply Hk. apply (listed_record_used entries e x He). left. rewrite E. now left.
  - destruct (assetItemsOf _) as [|x l] eqn:E; [reflexivity|].
    exfalso. apply Hk. apply (listed_record_used entries e x He). right. rewrite E. now left.
Qed.

(** Collecting the unused records does not change the list rebuilt from
    the cache. *)
Lemma cachedFileList_collected (entries : list (string * FileData Meta)) :
  cachedFileList (collected entries) = cachedFileList entries.
Proof.
  unfold deleteEntries.
  set (keep := fun e : string * FileData Meta =>
                 negb (JS.includes
                         (unusedPathsOf (fromEntries entries) (cachedFileList entries))
                         (fst e))).
  assert (Hkeep : forall e, In e entries -> keep e = false ->
            entryItemsOf {| path := fst e; data := snd e |} = []
            /\ assetItemsOf {| path := fst e; data := snd e |} = [])
    by (intros e Hin Hk; now apply (unused_record_not_listed entries)).
  clearbody keep.
  unfold cachedFileList. rewrite !createFileList_spec.
  set (mk := fun e : string * FileData Meta => {| path := fst e; data := snd e |}).
  assert (He : flat_map entryItemsOf (List.map mk (List.filter keep entries))
               = flat_map entryItemsOf (List.map mk entries)).
  { apply flat_map_map_filter. intros e Hin Hk. exact (proj1 (Hkeep e Hin Hk)). }
  assert (Ha : flat_map assetItemsOf (List.map mk (List.filter keep entries))
               = flat_map assetItemsOf (List.map mk entries)).
  { apply flat_map_map_filter. intros e Hin Hk. exact (proj2 (Hkeep e Hin Hk)). }
  now rewrite He, Ha.
Qed.

(** Nor what the cache restores to the files of that list. *)
Lemma restoreCached_collected (entries : list (string * FileData Meta)) (item : ListItem Meta) :
  In item (allFiles (cachedFileList entries)) ->
  restoreCached (fromEntries (collected entries)) item
  = restoreCached (fromEntries entries) item.
Proof.
  intros Hin. unfold restoreCached, deleteEntries.
  rewrite (fromEntries_filter entries
             (fun k => negb (JS.includes
                (unusedPathsOf (fromEntries entries) (cachedFileList entries)) k))
             (itemPath item)); [reflexivity|].
  apply negb_true_iff. destruct (JS.includes _ _) eqn:E; [|reflexivity].
  apply includes_In, unusedPathsOf_In in E. destruct E as [_ E].
  exfalso. apply E. now apply in_map.
Qed.

Lemma restoreAll_collected (entries : list (string * FileData Meta))
    (items : list (ListItem Meta)) :
  (forall item, In item items -> In item (allFiles (cachedFileList entries))) ->
  restoreAll (fromEntries (collected entries)) items
  = restoreAll (fromEntries entries) items.
Proof.
  intros Hsub. unfold restoreAll. apply map_ext_in.
  intros item Hin. apply restoreCached_collected. now apply Hsub.
Qed.

Lemma collected_nonempty (entries : list (string * FileData Meta)) :
  count (cachedFileList entries) <> 0 -> collected entries <> [].
Proof.
  intros Hcount Hnil.
  assert (Hall : allFiles (cachedFileList entries) <> []).
  { intros H. apply Hcount. unfold cachedFileList in *.
    rewrite createFileList_spec in *. simpl in *. now rewrite H. }
  destruct (allFiles (cachedFileList entries)) as [|item rest] eqn:E; [congruence|].
  assert (Hitem : In item (allFiles (cachedFileList entries))) by (rewrite E; now left).
  pose proof Hitem as Hfile. apply allFiles_from_input, in_map_iff in Hfile.
  destruct Hfile as (e & Hfi & He).
  assert (Hkeep : In e (collected entries)).
  { apply filter_In. split; [assumption|].
    apply negb_true_iff. destruct (JS.includes _ _) eqn:Ei; [|reflexivity].
    apply includes_In, unusedPathsOf_In in Ei. destruct Ei as [_ Ei].
    exfalso. apply Ei. apply in_map_iff. exists item. split; [|assumption].
    unfold itemPath. now rewrite <- Hfi. }
  rewrite Hnil in Hkeep. destruct Hkeep.
Qed.

Lemma collected_AllWithMeta (entries : list (string * FileData Meta)) :
  AllWithMeta entries -> AllWithMeta (collected entries).
Proof.
  intros H p r Hin. apply filter_In in Hin. destruct Hin as [Hin _]. now apply (H p r).
Qed.


(** A sync on a current cache whose records all carry commit information:
    it fetches no contents, publishes what the cache holds, and collects the
    records that are not listed. *)
Lemma sync_on_current_cache (args : Args Meta) (w w1 : World) (b h : string) :
  resolveBranch args w = (Some b, w1) ->
  fetchLastCommitHash args b = Some h ->
  lastCommitHash w = Some h -> h <> EmptyString -> fileCache w <> [] ->
  AllWithMeta (fileCache w) ->
  exists w',
    fetchAndParseFiles args w = (Some tt, w')
    /\ lastCommitHash w' = Some h
    /\ repositoryBranch w' = repositoryBranch w1
    /\ dataLoaded w' = true
    /\ (forall b' fs, ~ In (FetchFileContents b' fs) (callsDuring (fetchAndParseFiles args) w))
    /\ ((count (cachedFileList (fileCache w)) = 0
         /\ allEntries w' = [] /\ allAssets w' = []
         /\ fileCache w' = fileCache w)
        \/ (count (cachedFileList (fileCache w)) <> 0
            /\ allEntries w'
               = publishedEntries parseEntryFiles (fromEntries (fileCache w)) ∅
                   (cachedFileList (fileCache w))
            /\ allAssets w'
               = publishedAssets parseAssetFiles (fromEntries (fileCache w)) ∅
                   (cachedFileList (fileCache w))
            /\ fileCache w' = collected (fileCache w))).
Proof.
  intros Hb Hh Hhash Hne Hcache Hmeta.
  assert (Hcur : cacheIsCurrent (lastCommitHash w) h (fileCache w) = true)
    by now apply cacheIsCurrent_spec.
  pose proof (sync_cache_current allEntryFolders allAssetFolders getFileExtension
                parseEntryFiles parseAssetFiles args w w1 b h Hb Hh Hcur) as Hrun.
  destruct (resolveBranch_world args w w1 b Hb) as (Hh1 & Hfc1 & _).
  pose proof (nothing_to_fetch (fileCache w) Hmeta) as Hnone.
  set (fl := cachedFileList (fileCache w)) in *.
  assert (Hcalls : forall b' fs,
            ~ In (FetchFileContents b' fs) (callsDuring (fetchAndParseFiles args) w)).
  { intros b' fs Hin.
    destruct (sync_calls allEntryFolders allAssetFolders getFileExtension
                parseEntryFiles parseAssetFiles args w w1 b h Hb Hh) as (cs & Hcs & Heq).
    rewrite Heq in Hin. unfold callsAfterHash in Hin. rewrite Hcur in Hin.
    apply in_app_or in Hin. destruct Hin as [Hin|[Hin|Hin]].
    - apply Hcs in Hin. discriminate.
    - discriminate.
    - fold fl in Hin. unfold loadCalls in Hin.
      destruct (Nat.eqb (count fl) 0); [destruct Hin|].
      rewrite Hnone in Hin. simpl in Hin. unfold deleteCalls in Hin.
      destruct (nonEmpty _); [|destruct Hin]. destruct Hin as [Hin|[]]. discriminate. }
  destruct (Nat.eq_dec (count fl) 0) as [Hcount|Hcount].
  - rewrite loadFiles_empty in Hrun by assumption.
    eexists. split; [exact Hrun|]. simpl.
    repeat split; try assumption; try congruence.
    left. repeat split; try assumption; congruence.
  - assert (Hf : fetchedFileMapOf args b (fromEntries (fileCache w)) fl = Some ∅).
    { unfold fetchedFileMapOf. now rewrite Hnone. }
    destruct (loadFiles_completes parseEntryFiles parseAssetFiles args b (fileCache w) fl
                (logCall (FetchLastCommitHash b) w1) ∅ Hcount Hf)
      as (w' & Hload & He & Ha & Hd & Hc).
    exists w'. split; [now rewrite Hrun|].
    pose proof (loadFiles_frame parseEntryFiles parseAssetFiles args b (fileCache w) fl
                  (logCall (FetchLastCommitHash b) w1)) as [Hfr1 Hfr2].
    rewrite Hload in Hfr1, Hfr2. simpl in Hfr1, Hfr2.
    repeat split; try assumption; try congruence.
    right. repeat split; try assumption.
    rewrite Hc. simpl. rewrite Hfc1. unfold reconciledCache. rewrite Hnone. simpl.
    destruct (nonEmpty (unusedPathsOf _ _)) eqn:Hu; [reflexivity|].
    apply nonEmpty_false in Hu. fold fl. rewrite Hu. now rewrite deleteEntries_nil.
Qed.

(** C6: when the commit hash of the repository is the non-empty hash the
    last sync stored (the remote state is unchanged) and the file cache is
    non-empty with commit information in every record (the cache is fully
    populated), two consecutive syncs both end normally, publish the same
    entries and the same assets, and neither calls [fetchFileContents]. *)
Theorem consecutive_syncs_idempotent (args : Args Meta) (w w1 : World) (b h : string) :
  resolveBranch args w = (Some b, w1) ->
  fetchLastCommitHash args b = Some h ->
  lastCommitHash w = Some h -> h <> EmptyString -> fileCache w <> [] ->
  AllWithMeta (fileCache w) ->
  exists wA wB,
    fetchAndParseFiles args w = (Some tt, wA)
    /\ fetchAndParseFiles args wA = (Some tt, wB)
    /\ allEntries wA = allEntries wB
    /\ allAssets wA = allAssets wB
    /\ dataLoaded wA = true /\ dataLoaded wB = true
    /\ (forall b' fs, ~ In (FetchFileContents b' fs) (callsDuring (fetchAndParseFiles args) w))
    /\ (forall b' fs, ~ In (FetchFileContents b' fs) (callsDuring (fetchAndParseFiles args) wA)).
Proof.
  intros Hb Hh Hhash Hne Hcache Hmeta.
  destruct (sync_on_current_cache args w w1 b h Hb Hh Hhash Hne Hcache Hmeta)
    as (wA & HrunA & HhashA & HbranchA & HloadedA & HcallsA & Hout).
  destruct (resolveBranch_again args w w1 wA b Hb HbranchA) as (wA1 & HbA).
  assert (HcacheA : fileCache wA <> [] /\ AllWithMeta (fileCache wA)
                    /\ cachedFileList (fileCache wA) = cachedFileList (fileCache w)).
  { destruct Hout as [(Hc & _ & _ & Hfc)|(Hc & _ & _ & Hfc)]; rewrite Hfc.
    - now repeat split.
    - repeat split.
      + now apply collected_nonempty.
      + now apply collected_AllWithMeta.
      + apply cachedFileList_collected. }
  destruct HcacheA as (HneA & HmetaA & Hlist).
  destruct (sync_on_current_cache args wA wA1 b h HbA Hh HhashA Hne HneA HmetaA)
    as (wB & HrunB & _ & _ & HloadedB & HcallsB & HoutB).
  exists wA, wB. repeat split; try assumption.
  - rewrite Hlist in HoutB.
    destruct Hout as [(Hc & He & _ & Hfc)|(Hc & He & _ & Hfc)];
      destruct HoutB as [(Hc' & He' & _ & _)|(Hc' & He' & _ & _)]; try contradiction.
    + congruence.
    + rewrite He, He', Hfc. unfold publishedEntries.
      rewrite restoreAll_collected; [reflexivity|].
      intros item Hin. unfold cachedFileList in *.
      rewrite createFileList_spec in *. simpl in *. apply in_or_app. now left.
  - rewrite Hlist in HoutB.
    destruct Hout as [(Hc & _ & Ha & Hfc)|(Hc & _ & Ha & Hfc)];
      destruct HoutB as [(Hc' & _ & Ha' & _)|(Hc' & _ & Ha' & _)]; try contradiction.
    + congruence.
    + rewrite Ha, Ha', Hfc. unfold publishedAssets.
      rewrite restoreAll_collected; [reflexivity|].
      intros item Hin. unfold cachedFileList in *.
      rewrite createFileList_spec in *. simpl in *. apply in_or_app. now right.
Qed.

End CacheHit.

(** *** Syncs on the sample repository *)

(** A sync whose stored hash is the hash of the repository and whose cache
    holds a record: the listing is not fetched. *)
Lemma file_list_fetched_unless_cache_current_witness :
  let w := Sample.stores (Some "c0ffee") [("content/posts/a.md", Sample.cachedPost)] in
  let args := Sample.repository "c0ffee" [Sample.file "content/posts/a.md"] None in
  resolveBranch args w = (Some "main", w)
  /\ fetchLastCommitHash args "main" = Some "c0ffee"
  /\ "c0ffee" <> EmptyString
  /\ ((exists b', In (FetchFileList b') (callsDuring (Sample.sync args) w))
      <-> ~ (lastCommitHash w = Some "c0ffee" /\ fileCache w <> [])).
Proof.
  intros w args.
  assert (Hne : "c0ffee" <> EmptyString) by discriminate.
  split; [reflexivity|]. split; [reflexivity|]. split; [exact Hne|].
  exact (proj1 (file_list_fetched_unless_cache_current
                  [Sample.posts] [Sample.images] Sample.mdExtension
                  Sample.parseEntries Sample.parseAssets
                  args w w "main" "c0ffee" eq_refl eq_refl Hne)).
Defined.

(** A sync on a moved repository whose contents cannot be fetched: it fails,
    and the new hash is the stored one. *)
Lemma hash_persisted_before_contents_witness :
  let w := Sample.stores (Some "c0ffee") [("content/posts/a.md", Sample.cachedPost)] in
  let files := [Sample.file "content/posts/b.md"] in
  let args := Sample.repository "d00d1e" files None in
  fst (Sample.sync args w) = None
  /\ lastCommitHash (snd (Sample.sync args w)) = Some "d00d1e".
Proof.
  intros w files args. split; [reflexivity|].
  refine (proj1 (hash_persisted_before_contents
                   [Sample.posts] [Sample.images] Sample.mdExtension
                   Sample.parseEntries Sample.parseAssets
                   args w w "main" "d00d1e" files eq_refl eq_refl _ eq_refl)).
  intros [H _]. discriminate.
Defined.

(** A sync on a repository without files. *)
Lemma empty_file_list_completes_witness :
  let w := Sample.stores (Some "c0ffee") [("content/posts/a.md", Sample.cachedPost)] in
  let args := Sample.repository "d00d1e" [] None in
  exists w',
    Sample.sync args w = (Some tt, w')
    /\ allEntries w' = [] /\ allAssets w' = [] /\ dataLoaded w' = true
    /\ forall b' fs, ~ In (FetchFileContents b' fs) (callsDuring (Sample.sync args) w).
Proof.
  intros w args.
  exact (empty_file_list_completes
           [Sample.posts] [Sample.images] Sample.mdExtension
           Sample.parseEntries Sample.parseAssets
           args w w
           (snd (resolveFileList [Sample.posts] [Sample.images] Sample.mdExtension
                   args "main" (lastCommitHash w) (fileCache w) "d00d1e"
                   (logCall (FetchLastCommitHash "main") w)))
           "main" "d00d1e"
           (createFileList [Sample.posts] [Sample.images] Sample.mdExtension [])
           eq_refl eq_refl eq_refl eq_refl).
Defined.

(** A first sync: the post is fetched and its record is in the cache. *)
Lemma fetched_files_cached_witness :
  let w := Sample.stores None [] in
  let args := Sample.repository "d00d1e" [Sample.file "content/posts/a.md"]
                (Some {[ "content/posts/a.md" := Sample.cachedPost ]}) in
  getEntry "content/posts/a.md" (fileCache (snd (Sample.sync args w)))
  = Some Sample.cachedPost.
Proof.
  intros w args.
  assert (Hrun : Sample.sync args w = (Some tt, snd (Sample.sync args w)))
    by (vm_compute; reflexivity).
  assert (Hcall : In (FetchFileContents "main" [Sample.postItem])
                     (callsDuring (Sample.sync args) w))
    by (vm_compute; do 3 right; left; reflexivity).
  destruct (fetched_files_cached
              [Sample.posts] [Sample.images] Sample.mdExtension
              Sample.parseEntries Sample.parseAssets
              args w (snd (Sample.sync args w)) "main" [Sample.postItem] Hrun Hcall)
    as (_ & fetched & Hf & _ & Hcached).
  injection Hf as <-.
  exact (proj1 (Hcached Sample.postItem Sample.cachedPost (or_introl eq_refl) eq_refl)).
Defined.

(** C4, as stated, fails: the post, whose [sha] is [3b18e5], is fetched, the
    record returned for it has commit information and text and no [sha],
    the sync ends normally, and the cache holds that record: a record
    without the [sha] of the file. *)
Lemma fetched_record_cached_verbatim_counterexample :
  let returned := {| sha := JS.Absent; size := JS.Absent; text := JS.Value "# A";
                     meta := JS.Value tt |} in
  let w := Sample.stores None [] in
  let args := Sample.repository "d00d1e" [Sample.file "content/posts/a.md"]
                (Some {[ "content/posts/a.md" := returned ]}) in
  fst (Sample.sync args w) = Some tt
  /\ callsDuring (Sample.sync args) w
     = [FetchLastCommitHash "main"; FetchFileList "main"; MetaSet "d00d1e";
        FetchFileContents "main" [Sample.postItem];
        SaveEntries [("content/posts/a.md", returned)]]
  /\ JS.read (sha (data (fileInfo Sample.postItem))) = Some "3b18e5"
  /\ getEntry "content/posts/a.md" (fileCache (snd (Sample.sync args w))) = Some returned
  /\ JS.read (sha returned) = None.
Proof. vm_compute. repeat split. Qed.

(** Two syncs on a current cache that also holds a record of a file that is
    not listed. *)
Lemma consecutive_syncs_idempotent_witness :
  let w := Sample.stores (Some "c0ffee")
             [("content/posts/a.md", Sample.cachedPost); ("notes.txt", Sample.cachedNote)] in
  let args := Sample.repository "c0ffee" [Sample.file "content/posts/a.md"] None in
  exists wA wB,
    Sample.sync args w = (Some tt, wA)
    /\ Sample.sync args wA = (Some tt, wB)
    /\ allEntries wA = allEntries wB
    /\ allAssets wA = allAssets wB
    /\ dataLoaded wA = true /\ dataLoaded wB = true
    /\ (forall b' fs, ~ In (FetchFileContents b' fs) (callsDuring (Sample.sync args) w))
    /\ (forall b' fs, ~ In (FetchFileContents b' fs) (callsDuring (Sample.sync args) wA)).
Proof.
  intros w args.
  refine (consecutive_syncs_idempotent
            [Sample.posts] [Sample.images] Sample.mdExtension
            Sample.parseEntries Sample.parseAssets
            args w w "main" "c0ffee" eq_refl eq_refl eq_refl _ _ _).
  - discriminate.
  - discriminate.
  - intros p r [H|[H|[]]]; injection H as _ <-; discriminate.
Defined.

(** C5, the input on which the code departs from it: the cache holds a
    record for a post, the repository has moved to a commit without files.
    The sync ends normally with nothing listed and nothing published, and
    the record of the post is still in the cache; the next sync, finding the
    stored hash current and the cache non-empty, publishes the post again. *)
Lemma stale_record_kept_when_list_empty :
  let w := Sample.stores (Some "c0ffee") [("content/posts/a.md", Sample.cachedPost)] in
  let args := Sample.repository "d00d1e" [] None in
  let w' := snd (Sample.sync args w) in
  fst (Sample.sync args w) = Some tt
  /\ allFiles (createFileList [Sample.posts] [Sample.images] Sample.mdExtension
                 (Meta:=unit) []) = []
  /\ allEntries w' = []
  /\ getEntry "content/posts/a.md" (fileCache w') = Some Sample.cachedPost
  /\ List.map itemPath (allEntries (snd (Sample.sync args w'))) = ["content/posts/a.md"].
Proof. vm_compute. repeat split. Qed.

(** ** Properties of [getI18nConfig] *)

Section SiteConfigWritten.

Lemma sameEntry_refl (p : I18n.Property) (o : I18n.Raw.RawI18nConfig) : I18n.sameEntry p o o.
Proof. now destruct p. Qed.

Lemma sameEntry_trans (p : I18n.Property) (o1 o2 o3 : I18n.Raw.RawI18nConfig) :
  I18n.sameEntry p o1 o2 -> I18n.sameEntry p o2 o3 -> I18n.sameEntry p o1 o3.
Proof. destruct p; simpl; congruence. Qed.

(** Two objects with the same four entries are equal. *)
Lemma sameEntry_all (o1 o2 : I18n.Raw.RawI18nConfig) :
  (forall p, I18n.sameEntry p o1 o2) <-> o1 = o2.
Proof.
  split; [|intros ->; intros p; apply sameEntry_refl].
  intros H. destruct o1, o2.
  pose proof (H I18n.PStructure). pose proof (H I18n.PLocales).
  pose proof (H I18n.PDefaultLocale). pose proof (H I18n.PSaveAllLocales).
  simpl in *. congruence.
Qed.

(** What [Object.assign(target, source)] leaves in [target]: the entries of
    [source], and the entries of [target] for the properties [source] does
    not have. *)
Lemma assign_entries (target source : I18n.Raw.RawI18nConfig) (p : I18n.Property) :
  if I18n.hasOwn p source
  then I18n.sameEntry p (I18n.assign target source) source
  else I18n.sameEntry p (I18n.assign target source) target.
Proof.
  destruct target as [t1 t2 t3 t4], source as [s1 s2 s3 s4].
  destruct p; simpl; [destruct s1 | destruct s2 | destruct s3 | destruct s4]; reflexivity.
Qed.

(** The store after a call for an object-valued site and collection. *)
Lemma getI18nConfig_store (s c : I18n.Raw.RawI18nConfig)
    (file : option I18n.RawCollectionFile) :
  snd (I18n.getI18nConfig (Some {| I18n.collectionI18n := I18n.I18nObject c |}) file
         (Some {| I18n.siteI18n := I18n.I18nObject s |}))
  = Some {| I18n.siteI18n :=
              I18n.I18nObject
                match I18n.fileObject file with
                | Some fo => I18n.assign (I18n.assign s c) fo
                | None => I18n.assign s c
                end |}.
Proof.
  destruct file as [[[|[]|fo]]|]; reflexivity.
Qed.

End SiteConfigWritten.

(** C10, as the code has it: when the site's [i18n] value and the
    collection's are objects, [getI18nConfig] leaves in the [siteConfig]
    store an object that has, for every property, the entry of the file's
    [i18n] object when a file with an object that has the property is
    given, else the entry of the collection's object when that has the
    property, else the entry the site's object had.  A later call works on
    that object: for a collection whose [i18n] is [true] it returns the
    normalization of it, so with the locales of the earlier collection when
    that lists some and the file lists none.  The store is as it was
    exactly when every entry of the object left there is the entry the
    site's object had. *)
Theorem getI18nConfig_writes_site_config (site : I18n.SiteConfig)
    (collection : I18n.RawCollection) (file : option I18n.RawCollectionFile) :
  I18n.isObject (I18n.siteI18n site) = true ->
  I18n.isObject (I18n.collectionI18n collection) = true ->
  let s := I18n.asObject (I18n.siteI18n site) in
  let c := I18n.asObject (I18n.collectionI18n collection) in
  let fileLacks p := forall fo, I18n.fileObject file = Some fo -> I18n.hasOwn p fo = false in
  let after := snd (I18n.getI18nConfig (Some collection) file (Some site)) in
  exists merged,
    after = Some {| I18n.siteI18n := I18n.I18nObject merged |}
    /\ (forall p fo, I18n.fileObject file = Some fo -> I18n.hasOwn p fo = true ->
                     I18n.sameEntry p merged fo)
    /\ (forall p, fileLacks p -> I18n.hasOwn p c = true -> I18n.sameEntry p merged c)
    /\ (forall p, fileLacks p -> I18n.hasOwn p c = false -> I18n.sameEntry p merged s)
    /\ fst (I18n.getI18nConfig
              (Some {| I18n.collectionI18n := I18n.I18nBoolean true |}) None after)
       = I18n.normalize (Some merged) false
    /\ (forall ls, I18n.Raw.locales c = JS.Value ls -> ls <> [] -> fileLacks I18n.PLocales ->
                   I18n.locales
                     (fst (I18n.getI18nConfig
                             (Some {| I18n.collectionI18n := I18n.I18nBoolean true |})
                             None after))
                   = ls)
    /\ (after = Some site <-> forall p, I18n.sameEntry p merged s).
Proof.
  intros Hsite Hcollection.
  destruct site as [[|bs|s]]; simpl in Hsite; try discriminate.
  destruct collection as [[|bc|c]]; simpl in Hcollection; try discriminate.
  cbv zeta. cbn [I18n.asObject I18n.siteI18n I18n.collectionI18n].
  rewrite getI18nConfig_store.
  set (merged := match I18n.fileObject file with
                 | Some fo => I18n.assign (I18n.assign s c) fo
                 | None => I18n.assign s c
                 end).
  assert (Hfile : forall p fo, I18n.fileObject file = Some fo -> I18n.hasOwn p fo = true ->
                               I18n.sameEntry p merged fo).
  { intros p fo Hfo Hp. subst merged. rewrite Hfo.
    pose proof (assign_entries (I18n.assign s c) fo p) as H. now rewrite Hp in H. }
  assert (Hbelow : forall p,
            (forall fo, I18n.fileObject file = Some fo -> I18n.hasOwn p fo = false) ->
            I18n.sameEntry p merged (I18n.assign s c)).
  { intros p Hlacks. subst merged. destruct (I18n.fileObject file) as [fo|].
    - pose proof (assign_entries (I18n.assign s c) fo p) as H.
      now rewrite (Hlacks fo eq_refl) in H.
    - apply sameEntry_refl. }
  assert (Hcoll : forall p,
            (forall fo, I18n.fileObject file = Some fo -> I18n.hasOwn p fo = false) ->
            I18n.hasOwn p c = true -> I18n.sameEntry p merged c).
  { intros p Hlacks Hp. apply (sameEntry_trans p _ _ _ (Hbelow p Hlacks)).
    pose proof (assign_entries s c p) as H. now rewrite Hp in H. }
  assert (Hsite' : forall p,
            (forall fo, I18n.fileObject file = Some fo -> I18n.hasOwn p fo = false) ->
            I18n.hasOwn p c = false -> I18n.sameEntry p merged s).
  { intros p Hlacks Hp. apply (sameEntry_trans p _ _ _ (Hbelow p Hlacks)).
    pose proof (assign_entries s c p) as H. now rewrite Hp in H. }
  clearbody merged.
  exists merged. split; [reflexivity|]. split; [exact Hfile|]. split; [exact Hcoll|].
  split; [exact Hsite'|]. split; [reflexivity|]. split.
  - intros ls Hls Hne Hlacks.
    assert (Hmerged : I18n.Raw.locales merged = JS.Value ls).
    { rewrite <- Hls. apply (Hcoll I18n.PLocales Hlacks). simpl. now rewrite Hls. }
    unfold I18n.getI18nConfig, I18n.normalize. simpl.
    change (I18n.assignIfObject merged (I18n.I18nBoolean true)) with merged.
    rewrite Hmerged. simpl.
    destruct ls; [congruence | reflexivity].
  - rewrite sameEntry_all. split; [now intros [= ->] | now intros ->].
Qed.

(** Asking for the configuration of [blog] changes the site configuration:
    its locales are those of [blog] afterwards. *)
Lemma getI18nConfig_writes_site_config_witness :
  snd (I18n.getI18nConfig (Some Sample.blog) None (Some Sample.siteConfig))
  <> Some Sample.siteConfig.
Proof.
  destruct (getI18nConfig_writes_site_config Sample.siteConfig Sample.blog None
              eq_refl eq_refl) as (merged & _ & _ & Hcoll & _ & _ & _ & Hsame).
  intros Heq.
  pose proof (proj1 Hsame Heq I18n.PLocales) as Hsite.
  assert (Hnofile : forall fo, I18n.fileObject None = Some fo ->
                               I18n.hasOwn I18n.PLocales fo = false)
    by (intros fo H; discriminate H).
  pose proof (Hcoll I18n.PLocales Hnofile eq_refl) as Hblog.
  simpl in Hsite, Hblog. rewrite Hblog in Hsite. discriminate Hsite.
Defined.

(** C10, as stated, fails: the site's [i18n] and the collection's are
    objects, and the call leaves the site configuration as it was, because
    the one entry of the collection's object is the entry the site has. *)
Lemma site_config_unchanged_counterexample :
  I18n.isObject (I18n.siteI18n Sample.siteConfig) = true
  /\ I18n.isObject (I18n.collectionI18n Sample.news) = true
  /\ snd (I18n.getI18nConfig (Some Sample.news) None (Some Sample.siteConfig))
     = Some Sample.siteConfig.
Proof. repeat split. Qed.

(** The overrides of one collection reach another: once the configuration
    of [blog] has been asked for, [docs] has the locales of [blog] and its
    default locale; before, it has those of the site. *)
Example blog_overrides_reach_docs :
  let fresh := Some Sample.siteConfig in
  let used := snd (I18n.getI18nConfig (Some Sample.blog) None fresh) in
  I18n.locales (fst (I18n.getI18nConfig (Some Sample.docs) None fresh)) = ["en"]
  /\ I18n.locales (fst (I18n.getI18nConfig (Some Sample.docs) None used)) = ["en"; "fr"]
  /\ I18n.defaultLocale (fst (I18n.getI18nConfig (Some Sample.docs) None fresh)) = "en"
  /\ I18n.defaultLocale (fst (I18n.getI18nConfig (Some Sample.docs) None used)) = "fr"
  /\ used <> fresh.
Proof. vm_compute. repeat split. discriminate. Qed.

(** ** Further properties of [createFileList] *)

Section ClassificationMore.

Context {Meta : Type}.
Variable allEntryFolders : list CollectionEntryFolder.
Variable allAssetFolders : list CollectionAssetFolder.
Variable getFileExtension : CollectionEntryFolder -> string.

Local Abbreviation createFileList :=
  (createFileList (Meta:=Meta) allEntryFolders allAssetFolders getFileExtension).
Local Abbreviation entryConfigOf := (entryConfigOf allEntryFolders getFileExtension).
Local Abbreviation assetConfigOf :=
  (assetConfigOf allEntryFolders allAssetFolders getFileExtension).
Local Abbreviation entryItemsOf :=
  (entryItemsOf (Meta:=Meta) allEntryFolders getFileExtension).
Local Abbreviation assetItemsOf :=
  (assetItemsOf (Meta:=Meta) allEntryFolders allAssetFolders getFileExtension).

Lemma entryItemsOf_cases (f : BaseFileListItem Meta) :
  entryItemsOf f = []
  \/ exists c, entryConfigOf (path f) = Some c
               /\ entryItemsOf f = [{| fileInfo := f; type := entry c |}].
Proof.
  unfold entryItemsOf. destruct (entryConfigOf (path f)) as [c|]; [right; eauto | now left].
Qed.

Lemma assetItemsOf_cases (f : BaseFileListItem Meta) :
  assetItemsOf f = []
  \/ exists c, assetConfigOf (path f) = Some c
               /\ entryItemsOf f = []
               /\ assetItemsOf f = [{| fileInfo := f; type := asset c |}].
Proof.
  unfold assetItemsOf. destruct (assetConfigOf (path f)) as [c|] eqn:Hc; [right | now left].
  exists c. repeat split. apply assetConfigOf_Some in Hc. destruct Hc as (_ & _ & Hnone).
  unfold entryItemsOf. now rewrite Hnone.
Qed.

Lemma flat_map_sublist (g : BaseFileListItem Meta -> list (ListItem Meta))
    (files : list (BaseFileListItem Meta)) :
  (forall f, g f = [] \/ exists x, g f = [x] /\ fileInfo x = f) ->
  sublist (List.map fileInfo (flat_map g files)) files.
Proof.
  intros Hg. induction files as [|f files IH]; simpl; [constructor|].
  destruct (Hg f) as [->|(x & -> & Hx)]; simpl.
  - now apply sublist_cons.
  - rewrite Hx. now apply sublist_skip.
Qed.

(** The entries and the assets are listed in the order of the input: the
    files behind [entryFiles], and those behind [assetFiles], are the input
    with some files left out. *)
Theorem classified_files_keep_order (files : list (BaseFileListItem Meta)) :
  sublist (List.map fileInfo (entryFiles (createFileList files))) files
  /\ sublist (List.map fileInfo (assetFiles (createFileList files))) files.
Proof.
  rewrite createFileList_spec. simpl. split; apply flat_map_sublist; intros f.
  - destruct (entryItemsOf_cases f) as [H|(c & _ & H)]; [now left | right].
    rewrite H. eauto.
  - destruct (assetItemsOf_cases f) as [H|(c & _ & _ & H)]; [now left | right].
    rewrite H. eauto.
Qed.

(** [count] is the number of entries plus the number of assets, and never
    more than the number of input files: a file is listed at most once. *)
Theorem count_at_most_input (files : list (BaseFileListItem Meta)) :
  count (createFileList files)
  = length (entryFiles (createFileList files)) + length (assetFiles (createFileList files))
  /\ count (createFileList files) <= length files.
Proof.
  rewrite createFileList_spec. simpl. rewrite length_app. split; [reflexivity|].
  induction files as [|f files IH]; simpl; [lia|].
  rewrite !length_app.
  destruct (assetItemsOf_cases f) as [Ha|(c & _ & He & Ha)].
  - rewrite Ha. destruct (entryItemsOf_cases f) as [He|(c & _ & He)]; rewrite He; simpl; lia.
  - rewrite Ha, He. simpl. lia.
Qed.

(** Classifying a concatenation is classifying its parts: whether and how a
    file is listed does not depend on the other files. *)
Theorem createFileList_app (xs ys : list (BaseFileListItem Meta)) :
  entryFiles (createFileList (xs ++ ys))
  = entryFiles (createFileList xs) ++ entryFiles (createFileList ys)
  /\ assetFiles (createFileList (xs ++ ys))
     = assetFiles (createFileList xs) ++ assetFiles (createFileList ys)
  /\ count (createFileList (xs ++ ys))
     = count (createFileList xs) + count (createFileList ys).
Proof.
  rewrite !createFileList_spec. simpl. rewrite !flat_map_app, !length_app.
  repeat split. lia.
Qed.

(** Files with the same path are listed alike: two items of [allFiles] under
    one path have the same [type] and [config]. *)
Theorem same_path_same_type (files : list (BaseFileListItem Meta)) (x y : ListItem Meta) :
  In x (allFiles (createFileList files)) ->
  In y (allFiles (createFileList files)) ->
  itemPath x = itemPath y ->
  type x = type y.
Proof.
  assert (Hkind : forall z, In z (allFiles (createFileList files)) ->
            (exists c, entryConfigOf (itemPath z) = Some c /\ type z = entry c)
            \/ (exists c, assetConfigOf (itemPath z) = Some c /\ type z = asset c
                          /\ entryConfigOf (itemPath z) = None)).
  { intros z. rewrite createFileList_spec. simpl. rewrite in_app_iff, !in_flat_map.
    intros [(f & _ & Hz)|(f & _ & Hz)].
    - left. destruct (entryItemsOf_cases f) as [H|(c & Hc & H)]; rewrite H in Hz;
        [destruct Hz|]. destruct Hz as [<-|[]]. eauto.
    - right. destruct (assetItemsOf_cases f) as [H|(c & Hc & _ & H)]; rewrite H in Hz;
        [destruct Hz|]. destruct Hz as [<-|[]]. exists c. repeat split; [assumption|].
      apply assetConfigOf_Some in Hc. tauto. }
  intros Hx Hy Heq.
  destruct (Hkind x Hx) as [(c & Hc & ->)|(c & Hc & -> & Hn)];
    destruct (Hkind y Hy) as [(d & Hd & ->)|(d & Hd & -> & Hm)];
    rewrite Heq in *; congruence.
Qed.

Lemma string_app_assoc (a b c : string) :
  ((a ++ b) ++ c = a ++ (b ++ c))%string.
Proof.
  induction a as [|x a IH]; [reflexivity|].
  change (String x ((a ++ b) ++ c) = String x (a ++ (b ++ c)))%string. now f_equal.
Qed.

Lemma dotsThenSlash_prefix (s p : string) :
  JS.dotsThenSlash s = Some p -> exists rest, s = (p ++ String "/" rest)%string.
Proof.
  revert p. induction s as [|c s IH]; intros p; simpl; [discriminate|].
  destruct (JS.isLineTerminator c); [discriminate|].
  destruct (JS.dotsThenSlash s) as [q|].
  - intros [= <-]. destruct (IH q eq_refl) as [rest ->]. now exists rest.
  - destruct (Ascii.eqb_spec c "/"%char) as [->|]; [|discriminate].
    intros [= <-]. now exists s.
Qed.

Lemma matchEnclosingDir_prefix (path dir : string) :
  JS.matchEnclosingDir path = Some dir ->
  dir <> EmptyString /\ exists rest, path = (dir ++ String "/" rest)%string.
Proof.
  destruct path as [|c s]; simpl; [discriminate|].
  destruct (JS.isLineTerminator c); [discriminate|].
  destruct (JS.dotsThenSlash s) as [q|] eqn:Hq; [|discriminate].
  intros [= <-]. split; [discriminate|].
  destruct (dotsThenSlash_prefix s q Hq) as [rest ->]. now exists rest.
Qed.

(** Every asset lies under the internal path of its folder: its path is
    [internalPath], a slash, and more, whether the folder is entry-relative
    or not.  So a file at the root of the repository is never an asset, and
    a folder that is not entry-relative lists nothing when its internal path
    is the empty string. *)
Theorem asset_under_internalPath (files : list (BaseFileListItem Meta)) (item : ListItem Meta) :
  In item (assetFiles (createFileList files)) ->
  exists config rest,
    type item = asset config
    /\ In config allAssetFolders
    /\ itemPath item = (internalPath config ++ String "/" rest)%string
    /\ (entryRelative config = false -> internalPath config <> EmptyString).
Proof.
  rewrite createFileList_spec. simpl. rewrite in_flat_map. intros (f & _ & Hin).
  destruct (assetItemsOf_cases f) as [H|(c & Hc & _ & H)]; rewrite H in Hin; [destruct Hin|].
  destruct Hin as [<-|[]]. apply assetConfigOf_Some in Hc.
  destruct Hc as ((before & after & Hl & Hm & _) & _ & _).
  assert (Hc : In c allAssetFolders) by (rewrite Hl; apply in_or_app; right; now left).
  unfold AssetFolderMatches in Hm. unfold itemPath. simpl.
  destruct (entryRelative c) eqn:Hrel.
  - destruct Hm as [rest Hrest]. exists c, rest.
    split; [reflexivity|]. split; [assumption|]. split; [|congruence].
    rewrite Hrest. apply string_app_assoc.
  - apply matchEnclosingDir_prefix in Hm. destruct Hm as [Hne [rest Hrest]].
    exists c, rest. split; [reflexivity|]. split; [assumption|]. split; [assumption|].
    intros _. exact Hne.
Qed.

End ClassificationMore.

(** *** The name and the extension of a path *)

Section NameAndExtension.

Lemma string_app_cons (c : ascii) (a b : string) :
  (String c a ++ b = String c (a ++ b))%string.
Proof. reflexivity. Qed.

Lemma split_no_sep (sep : ascii) (s : string) :
  JS.occurs sep s = false -> JS.split sep s = [s].
Proof.
  induction s as [|c s IH]; simpl; [reflexivity|].
  intros H. apply orb_false_iff in H. destruct H as [Hc Hs].
  rewrite Hc, (IH Hs). reflexivity.
Qed.

(** Splitting at a separator that stands between [a] and [b]. *)
Lemma split_app (sep : ascii) (a b : string) :
  JS.split sep (a ++ String sep b) = JS.split sep a ++ JS.split sep b.
Proof.
  induction a as [|c a IH].
  - change (EmptyString ++ String sep b)%string with (String sep b).
    simpl. now rewrite Ascii.eqb_refl.
  - rewrite string_app_cons. simpl. rewrite IH.
    destruct (Ascii.eqb c sep); [reflexivity|].
    pose proof (split_nonempty sep a) as Hne.
    destruct (JS.split sep a) as [|h t]; [congruence | reflexivity].
Qed.

(** Appending text without separator extends the last part. *)
Lemma split_app_no_sep (sep : ascii) (p s : string) :
  JS.occurs sep s = false ->
  JS.split sep (p ++ s)
  = List.removelast (JS.split sep p) ++ [(JS.pop (JS.split sep p) ++ s)%string].
Proof.
  intros Hs. induction p as [|c p IH].
  - change (EmptyString ++ s)%string with s. now rewrite split_no_sep.
  - rewrite string_app_cons. simpl. rewrite IH.
    pose proof (split_nonempty sep p) as Hne. unfold JS.pop in *.
    destruct (Ascii.eqb c sep).
    + destruct (JS.split sep p) as [|h t]; [congruence | reflexivity].
    + destruct (JS.split sep p) as [|h [|h' t]]; [congruence | reflexivity | reflexivity].
Qed.

Lemma pop_app (l1 l2 : list string) : l2 <> [] -> JS.pop (l1 ++ l2) = JS.pop l2.
Proof.
  intros H. unfold JS.pop. induction l1 as [|x l1 IH]; [reflexivity|].
  simpl. rewrite IH. destruct (l1 ++ l2) eqn:E; [|reflexivity].
  apply app_eq_nil in E. destruct E. congruence.
Qed.

Lemma fileName_slash (dir name : string) :
  JS.occurs "/" name = false -> fileName (dir ++ String "/" name) = name.
Proof.
  intros H. unfold fileName.
  rewrite split_app, pop_app by apply split_nonempty. now rewrite split_no_sep.
Qed.

Lemma fileName_plain (name : string) : JS.occurs "/" name = false -> fileName name = name.
Proof. intros H. unfold fileName. now rewrite split_no_sep. Qed.

(** The [name] that [createFileList] takes from a path is what follows the
    last slash: the whole path when it has no slash. *)
Theorem fileName_after_last_slash (dir name : string) :
  JS.occurs "/" name = false ->
  fileName (dir ++ String "/" name) = name /\ fileName name = name.
Proof.
  intros H. split; [now apply fileName_slash | now apply fileName_plain].
Qed.

(** The [extension] that [createFileList] compares with the expected one is
    what follows the last dot of the name; a name without dot is its own
    extension, so a file named like the expected extension passes the
    test. *)
Theorem fileExtension_after_last_dot (stem ext : string) :
  JS.occurs "." ext = false ->
  JS.occurs "/" ext = false ->
  fileExtension (stem ++ String "." ext) = ext
  /\ fileExtension (stem ++ String "/" ext) = ext
  /\ fileExtension ext = ext.
Proof.
  intros Hdot Hslash. unfold fileExtension. repeat split.
  - assert (Hname : fileName (stem ++ String "." ext)
                    = (fileName stem ++ String "." ext)%string).
    { unfold fileName. rewrite split_app_no_sep by (simpl; now rewrite Hslash).
      now rewrite pop_app by discriminate. }
    rewrite Hname, split_app, pop_app by apply split_nonempty. now rewrite split_no_sep.
  - rewrite (fileName_slash stem ext Hslash). now rewrite split_no_sep.
  - rewrite (fileName_plain ext Hslash). now rewrite split_no_sep.
Qed.

End NameAndExtension.

(** The name and the extension of a post. *)
Lemma fileName_after_last_slash_witness :
  fileName "content/posts/a.md" = "a.md".
Proof. exact (proj1 (fileName_after_last_slash "content/posts" "a.md" eq_refl)). Defined.

(** The extension of a post, and of a file named [md]. *)
Lemma fileExtension_after_last_dot_witness :
  fileExtension "content/posts/a.md" = "md" /\ fileExtension "content/posts/md" = "md".
Proof.
  split.
  - exact (proj1 (fileExtension_after_last_dot "content/posts/a" "md" eq_refl eq_refl)).
  - exact (proj1 (proj2 (fileExtension_after_last_dot "content/posts" "md" eq_refl eq_refl))).
Defined.

(** ** Further properties of [fetchAndParseFiles] *)

Section SyncMore.

Context {Meta Entry Asset : Type}.
Variable allEntryFolders : list CollectionEntryFolder.
Variable allAssetFolders : list CollectionAssetFolder.
Variable getFileExtension : CollectionEntryFolder -> string.
Variable parseEntryFiles : list (ListItem Meta) -> list Entry.
Variable parseAssetFiles : list (ListItem Meta * string) -> list Asset.

Local Abbreviation World := (World Meta Entry Asset).
Local Abbreviation createFileList :=
  (createFileList (Meta:=Meta) allEntryFolders allAssetFolders getFileExtension).
Local Abbreviation cachedFileList :=
  (cachedFileList (Meta:=Meta) allEntryFolders allAssetFolders getFileExtension).
Local Abbreviation resolveBranch := (resolveBranch (Meta:=Meta) (Entry:=Entry) (Asset:=Asset)).
Local Abbreviation resolveFileList :=
  (resolveFileList (Entry:=Entry) (Asset:=Asset)
     allEntryFolders allAssetFolders getFileExtension).
Local Abbreviation loadFiles := (loadFiles parseEntryFiles parseAssetFiles).
Local Abbreviation fetchAndParseFiles :=
  (fetchAndParseFiles allEntryFolders allAssetFolders getFileExtension
     parseEntryFiles parseAssetFiles).
Local Abbreviation resolvedBranch :=
  (resolvedBranch (Meta:=Meta) (Entry:=Entry) (Asset:=Asset)).
Local Abbreviation resolvedHash :=
  (resolvedHash (Meta:=Meta) (Entry:=Entry) (Asset:=Asset)).
Local Abbreviation resolvedFileList :=
  (resolvedFileList (Entry:=Entry) (Asset:=Asset)
     allEntryFolders allAssetFolders getFileExtension).
Local Abbreviation syncCalls :=
  (syncCalls (Entry:=Entry) (Asset:=Asset)
     allEntryFolders allAssetFolders getFileExtension).

(** [resolveBranch] in its three cases. *)
Lemma resolveBranch_run (args : Args Meta) (w : World) :
  resolveBranch args w
  = if JS.truthyOpt (repositoryBranch w)
    then (Some (default EmptyString (repositoryBranch w)), w)
    else match fetchDefaultBranchName args with
         | Some b => (Some b, withRepositoryBranch (Some b) (logCall FetchDefaultBranchName w))
         | None => (None, logCall FetchDefaultBranchName w)
         end.
Proof.
  unfold resolveBranch. run_task.
  destruct (JS.truthyOpt (repositoryBranch w)); [reflexivity|].
  destruct (fetchDefaultBranchName args); reflexivity.
Qed.

Lemma resolvedBranch_run (args : Args Meta) (w : World) :
  resolvedBranch args w = fst (resolveBranch args w).
Proof.
  rewrite resolveBranch_run. unfold resolvedBranch.
  destruct (JS.truthyOpt (repositoryBranch w)); [reflexivity|].
  destruct (fetchDefaultBranchName args); reflexivity.
Qed.

Lemma resolvedBranch_Some (args : Args Meta) (w : World) (b : string) :
  resolvedBranch args w = Some b <-> exists w1, resolveBranch args w = (Some b, w1).
Proof.
  rewrite resolvedBranch_run. split.
  - destruct (resolveBranch args w) as [o w1]. simpl. intros ->. eauto.
  - intros [w1 ->]. reflexivity.
Qed.

(** The sync when the branch or the commit hash cannot be resolved. *)
Lemma sync_branch_fails (args : Args Meta) (w w1 : World) :
  resolveBranch args w = (None, w1) -> fetchAndParseFiles args w = (None, w1).
Proof.
  intros Hb. unfold fetchAndParseFiles.
  unfold bind at 1 2 3, metaDB_get, cacheDB_entries. simpl. now rewrite Hb.
Qed.

Lemma sync_hash_fails (args : Args Meta) (w w1 : World) (b : string) :
  resolveBranch args w = (Some b, w1) ->
  fetchLastCommitHash args b = None ->
  fetchAndParseFiles args w = (None, logCall (FetchLastCommitHash b) w1).
Proof.
  intros Hb Hh. unfold fetchAndParseFiles.
  unfold bind at 1 2 3 4, metaDB_get, cacheDB_entries, await. simpl. now rewrite Hb, Hh.
Qed.

Lemma resolveBranch_calls (args : Args Meta) (w : World) :
  calls (snd (resolveBranch args w))
  = calls w ++ (if JS.truthyOpt (repositoryBranch w) then [] else [FetchDefaultBranchName]).
Proof.
  rewrite resolveBranch_run. destruct (JS.truthyOpt (repositoryBranch w)); simpl.
  - now rewrite app_nil_r.
  - destruct (fetchDefaultBranchName args); reflexivity.
Qed.

(** The calls of a sync, whatever its outcome. *)
Lemma sync_calls_all (args : Args Meta) (w : World) :
  callsDuring (fetchAndParseFiles args) w = syncCalls args w.
Proof.
  unfold syncCalls, callsDuring. rewrite resolvedBranch_run.
  pose proof (resolveBranch_calls args w) as Hcalls.
  destruct (resolveBranch args w) as [[b|] w1] eqn:Hb; simpl in *.
  - destruct (fetchLastCommitHash args b) as [h|] eqn:Hh.
    + unfold callsAfterHash.
      destruct (cacheIsCurrent (lastCommitHash w) h (fileCache w)) eqn:Hc.
      * rewrite (sync_cache_current allEntryFolders allAssetFolders getFileExtension
                   parseEntryFiles parseAssetFiles args w w1 b h Hb Hh Hc).
        rewrite loadFiles_calls. simpl. rewrite Hcalls, <- !app_assoc.
        apply skipn_length_app.
      * rewrite (sync_full_refresh allEntryFolders allAssetFolders getFileExtension
                   parseEntryFiles parseAssetFiles args w w1 b h Hb Hh Hc).
        destruct (fetchFileList args b) as [files|].
        -- rewrite loadFiles_calls. simpl. rewrite Hcalls, <- !app_assoc.
           apply skipn_length_app.
        -- simpl. rewrite Hcalls, <- !app_assoc. apply skipn_length_app.
    + rewrite (sync_hash_fails args w w1 b Hb Hh). simpl.
      rewrite Hcalls, <- !app_assoc. apply skipn_length_app.
  - rewrite (sync_branch_fails args w w1 Hb). simpl.
    rewrite Hcalls, app_nil_r. apply skipn_length_app.
Qed.

Ltac solve_sublist :=
  repeat first [ apply sublist_nil | apply sublist_skip | apply sublist_cons ].

(** A sync calls each collaborator and each database write at most once,
    and in this order: default branch, commit hash, file list, storing the
    hash, file contents, saving the fetched records, deleting the unused
    ones. *)
Theorem sync_calls_in_order (args : Args Meta) (w : World) :
  exists b h files es ps,
    sublist (callsDuring (fetchAndParseFiles args) w)
      [FetchDefaultBranchName; FetchLastCommitHash b; FetchFileList b; MetaSet h;
       FetchFileContents b files; SaveEntries es; DeleteEntries ps].
Proof.
  rewrite sync_calls_all. unfold syncCalls, callsAfterHash, loadCalls, deleteCalls.
  destruct (JS.truthyOpt (repositoryBranch w));
    destruct (resolvedBranch args w) as [b|];
    try destruct (fetchLastCommitHash args b) as [h|];
    try destruct (cacheIsCurrent (lastCommitHash w) h (fileCache w));
    try destruct (fetchFileList args b) as [files|];
    repeat match goal with
           | |- context [if ?c then _ else _] => destruct c
           | |- context [match fetchFileContents ?a ?b ?c with _ => _ end] =>
               destruct (fetchFileContents a b c)
           end;
    simpl; do 5 eexists; solve_sublist.
  Unshelve.
  all: first [exact EmptyString | exact []].
Qed.

Lemma resolveBranch_fields (args : Args Meta) (w : World) :
  let w1 := snd (resolveBranch args w) in
  lastCommitHash w1 = lastCommitHash w
  /\ fileCache w1 = fileCache w
  /\ allEntries w1 = allEntries w
  /\ allAssets w1 = allAssets w
  /\ dataLoaded w1 = dataLoaded w
  /\ repositoryBranch w1
     = if JS.truthyOpt (repositoryBranch w) then repositoryBranch w
       else match fetchDefaultBranchName args with
            | Some b => Some b
            | None => repositoryBranch w
            end.
Proof.
  rewrite resolveBranch_run. destruct (JS.truthyOpt (repositoryBranch w)); simpl.
  - repeat split.
  - destruct (fetchDefaultBranchName args); simpl; repeat split.
Qed.

(** What is left of the stores when [loadFiles] fails, and when it ends. *)
Lemma loadFiles_None (args : Args Meta) (b : string)
    (entries : list (string * FileData Meta)) (fl : FileList Meta) (w : World) :
  fst (loadFiles args b entries fl w) = None ->
  count fl <> 0
  /\ loadFiles args b entries fl w
     = (None, logCall (FetchFileContents b (fetchingFilesOf (fromEntries entries) fl)) w).
Proof.
  intros Hnone. destruct (Nat.eq_dec (count fl) 0) as [Hc|Hc].
  - rewrite loadFiles_empty in Hnone by assumption. discriminate.
  - split; [assumption|].
    destruct (fetchedFileMapOf args b (fromEntries entries) fl) as [fetched|] eqn:Hf.
    + destruct (loadFiles_completes parseEntryFiles parseAssetFiles args b entries fl w
                  fetched Hc Hf) as (w' & Hrun & _).
      rewrite Hrun in Hnone. discriminate.
    + now apply loadFiles_fails.
Qed.

Lemma loadFiles_Some (args : Args Meta) (b : string)
    (entries : list (string * FileData Meta)) (fl : FileList Meta) (w w' : World) :
  loadFiles args b entries fl w = (Some tt, w') ->
  dataLoaded w' = true
  /\ (count fl = 0 -> allEntries w' = [] /\ allAssets w' = [] /\ fileCache w' = fileCache w)
  /\ (count fl <> 0 ->
      exists fetched,
        fetchedFileMapOf args b (fromEntries entries) fl = Some fetched
        /\ allEntries w' = publishedEntries parseEntryFiles (fromEntries entries) fetched fl
        /\ allAssets w' = publishedAssets parseAssetFiles (fromEntries entries) fetched fl
        /\ fileCache w' = reconciledCache (fromEntries entries) fl fetched (fileCache w)).
Proof.
  intros Hrun. destruct (Nat.eq_dec (count fl) 0) as [Hc|Hc].
  - rewrite loadFiles_empty in Hrun by assumption. injection Hrun as <-. simpl.
    split; [reflexivity|]. split; [now intros _ | contradiction].
  - destruct (fetchedFileMapOf args b (fromEntries entries) fl) as [fetched|] eqn:Hf.
    + destruct (loadFiles_completes parseEntryFiles parseAssetFiles args b entries fl w
                  fetched Hc Hf) as (w'' & Hrun' & He & Ha & Hd & Hcache).
      rewrite Hrun in Hrun'. injection Hrun' as <-.
      split; [assumption|]. split; [contradiction|]. intros _. now exists fetched.
    + rewrite (loadFiles_fails parseEntryFiles parseAssetFiles args b entries fl w Hc Hf)
        in Hrun. discriminate.
Qed.

(** A sync whose file list is resolved is [loadFiles] on that list, run on
    stores that differ from the initial ones by the branch, the stored hash
    and the calls. *)
Lemma sync_resolved (args : Args Meta) (w : World) (fl : FileList Meta) :
  resolvedFileList args w = Some fl ->
  exists b h w2,
    resolvedBranch args w = Some b
    /\ resolvedHash args w = Some h
    /\ fetchAndParseFiles args w = loadFiles args b (fileCache w) fl w2
    /\ fileCache w2 = fileCache w
    /\ allEntries w2 = allEntries w
    /\ allAssets w2 = allAssets w
    /\ dataLoaded w2 = dataLoaded w
    /\ lastCommitHash w2 = Some h
    /\ repositoryBranch w2 = repositoryBranch (snd (resolveBranch args w)).
Proof.
  unfold resolvedFileList, resolvedHash.
  destruct (resolvedBranch args w) as [b|] eqn:Hrb; [|discriminate].
  destruct (fetchLastCommitHash args b) as [h|] eqn:Hh; [|discriminate].
  pose proof (resolveBranch_fields args w) as (F1 & F2 & F3 & F4 & F5 & _).
  apply resolvedBranch_Some in Hrb. destruct Hrb as [w1 Hb]. rewrite Hb in *. simpl in *.
  destruct (cacheIsCurrent (lastCommitHash w) h (fileCache w)) eqn:Hc.
  - intros [= <-]. exists b, h, (logCall (FetchLastCommitHash b) w1).
    rewrite (sync_cache_current allEntryFolders allAssetFolders getFileExtension
               parseEntryFiles parseAssetFiles args w w1 b h Hb Hh Hc).
    apply cacheIsCurrent_spec in Hc. destruct Hc as (Hc & _ & _).
    simpl. repeat split; congruence.
  - destruct (fetchFileList args b) as [files|] eqn:Hfiles; [|discriminate].
    intros [= <-].
    exists b, h, (withLastCommitHash (Some h)
                    (logCall (MetaSet h)
                       (logCall (FetchFileList b) (logCall (FetchLastCommitHash b) w1)))).
    rewrite (sync_full_refresh allEntryFolders allAssetFolders getFileExtension
               parseEntryFiles parseAssetFiles args w w1 b h Hb Hh Hc), Hfiles.
    simpl. repeat split; congruence.
Qed.

(** A sync whose file list is not resolved fails and leaves the published
    stores and the file cache as they were. *)
Lemma sync_unresolved (args : Args Meta) (w : World) :
  resolvedFileList args w = None ->
  fst (fetchAndParseFiles args w) = None
  /\ fileCache (snd (fetchAndParseFiles args w)) = fileCache w
  /\ allEntries (snd (fetchAndParseFiles args w)) = allEntries w
  /\ allAssets (snd (fetchAndParseFiles args w)) = allAssets w
  /\ dataLoaded (snd (fetchAndParseFiles args w)) = dataLoaded w
  /\ lastCommitHash (snd (fetchAndParseFiles args w)) = lastCommitHash w
  /\ repositoryBranch (snd (fetchAndParseFiles args w))
     = repositoryBranch (snd (resolveBranch args w)).
Proof.
  unfold resolvedFileList, resolvedHash. rewrite resolvedBranch_run.
  pose proof (resolveBranch_fields args w) as (F1 & F2 & F3 & F4 & F5 & _).
  destruct (resolveBranch args w) as [[b|] w1] eqn:Hb; simpl in *.
  - destruct (fetchLastCommitHash args b) as [h|] eqn:Hh.
    + destruct (cacheIsCurrent (lastCommitHash w) h (fileCache w)) eqn:Hc; [discriminate|].
      destruct (fetchFileList args b) as [files|] eqn:Hfiles; [discriminate|]. intros _.
      rewrite (sync_full_refresh allEntryFolders allAssetFolders getFileExtension
                 parseEntryFiles parseAssetFiles args w w1 b h Hb Hh Hc), Hfiles.
      simpl. repeat split; assumption.
    + intros _. rewrite (sync_hash_fails args w w1 b Hb Hh). simpl. repeat split; assumption.
  - intros _. rewrite (sync_branch_fails args w w1 Hb). simpl. repeat split; assumption.
Qed.

Lemma callsAfterHash_kinds (args : Args Meta) (b h : string) (cachedHash : option string)
    (entries : list (string * FileData Meta)) (c : Call Meta) :
  In c (callsAfterHash allEntryFolders allAssetFolders getFileExtension
          args b cachedHash entries h) ->
  c = FetchFileList b \/ c = MetaSet h
  \/ (exists files, c = FetchFileContents b files /\ files <> [])
  \/ (exists es, c = SaveEntries es)
  \/ (exists ps, c = DeleteEntries ps).
Proof.
  unfold callsAfterHash. destruct (cacheIsCurrent cachedHash h entries).
  - intros Hin. apply loadCalls_kinds in Hin. tauto.
  - intros [<-|Hin]; [now left|].
    destruct (fetchFileList args b); [|destruct Hin].
    destruct Hin as [<-|Hin]; [right; now left|].
    apply loadCalls_kinds in Hin. tauto.
Qed.

(** The list a sync resolves is a list [createFileList] made. *)
Lemma resolvedFileList_created (args : Args Meta) (w : World) (fl : FileList Meta) :
  resolvedFileList args w = Some fl -> exists files, fl = createFileList files.
Proof.
  unfold resolvedFileList.
  destruct (resolvedBranch args w) as [b|]; [|discriminate].
  destruct (resolvedHash args w) as [h|]; [|discriminate].
  destruct (cacheIsCurrent _ _ _).
  - intros [= <-]. now eexists.
  - destruct (fetchFileList args b) as [files|]; [|discriminate]. intros [= <-]. now eexists.
Qed.

(** The default branch is asked for exactly when [repository.branch] is
    unset or empty; the answer is stored in [repository.branch], which a
    sync otherwise leaves as it is, whatever its outcome. *)
Theorem default_branch_fetched_iff_unset (args : Args Meta) (w : World) :
  (In FetchDefaultBranchName (callsDuring (fetchAndParseFiles args) w)
   <-> JS.truthyOpt (repositoryBranch w) = false)
  /\ repositoryBranch (snd (fetchAndParseFiles args w))
     = if JS.truthyOpt (repositoryBranch w) then repositoryBranch w
       else match fetchDefaultBranchName args with
            | Some b => Some b
            | None => repositoryBranch w
            end.
Proof.
  split.
  - rewrite sync_calls_all. unfold syncCalls.
    assert (Htail : ~ In FetchDefaultBranchName
              match resolvedBranch args w with
              | Some branch =>
                  FetchLastCommitHash branch
                  :: match fetchLastCommitHash args branch with
                     | Some lastHash =>
                         callsAfterHash allEntryFolders allAssetFolders getFileExtension
                           args branch (lastCommitHash w) (fileCache w) lastHash
                     | None => []
                     end
              | None => []
              end).
    { destruct (resolvedBranch args w) as [b|]; [|intros []].
      intros [H|Hin]; [discriminate|].
      destruct (fetchLastCommitHash args b) as [h|]; [|destruct Hin].
      apply callsAfterHash_kinds in Hin.
      destruct Hin as [H|[H|[(? & H & _)|[(? & H)|(? & H)]]]]; discriminate. }
    rewrite in_app_iff. destruct (JS.truthyOpt (repositoryBranch w)).
    + split; [intros [[]|H]; contradiction | discriminate].
    + split; [reflexivity | intros _; left; now left].
  - pose proof (resolveBranch_fields args w) as (_ & _ & _ & _ & _ & <-).
    destruct (resolvedFileList args w) as [fl|] eqn:Hfl.
    + destruct (sync_resolved args w fl Hfl) as (b & h & w2 & _ & _ & -> & _ & _ & _ & _ & _ & <-).
      apply loadFiles_frame.
    + now destruct (sync_unresolved args w Hfl) as (_ & _ & _ & _ & _ & _ & ->).
Qed.

(** When the branch is resolved, the commit hash is asked for, also when
    the cache is current, and before anything else: only the call for the
    default branch, when the branch was unset, comes before it. *)
Theorem commit_hash_always_asked (args : Args Meta) (w : World) (b : string) :
  resolvedBranch args w = Some b ->
  In (FetchLastCommitHash b) (callsDuring (fetchAndParseFiles args) w)
  /\ exists rest,
       callsDuring (fetchAndParseFiles args) w
       = (if JS.truthyOpt (repositoryBranch w) then [] else [FetchDefaultBranchName])
         ++ FetchLastCommitHash b :: rest.
Proof.
  intros Hb. rewrite sync_calls_all. unfold syncCalls. rewrite Hb.
  split; [apply in_or_app; right; now left | now eexists].
Qed.

(** A sync in which a collaborator rejects publishes nothing and leaves the
    file cache alone.  The collaborator is [fetchDefaultBranchName],
    [fetchLastCommitHash] or [fetchFileList], so that no file list is
    resolved, or it is [fetchFileContents], asked for the files to fetch of
    the resolved list.  The sync then fails, and the three published stores
    and the records of the cache are as before the sync. *)
Theorem failed_sync_publishes_nothing (args : Args Meta) (w : World) :
  resolvedFileList args w = None
  \/ (exists fl b,
        resolvedFileList args w = Some fl
        /\ resolvedBranch args w = Some b
        /\ fetchingFilesOf (fromEntries (fileCache w)) fl <> []
        /\ fetchFileContents args b (fetchingFilesOf (fromEntries (fileCache w)) fl) = None) ->
  fst (fetchAndParseFiles args w) = None
  /\ allEntries (snd (fetchAndParseFiles args w)) = allEntries w
  /\ allAssets (snd (fetchAndParseFiles args w)) = allAssets w
  /\ dataLoaded (snd (fetchAndParseFiles args w)) = dataLoaded w
  /\ fileCache (snd (fetchAndParseFiles args w)) = fileCache w.
Proof.
  intros [Hfl|(fl & b & Hfl & Hb & Hne & Hreject)].
  - destruct (sync_unresolved args w Hfl) as (Hfail & Hfc & He & Ha & Hd & _).
    repeat split; assumption.
  - destruct (sync_resolved args w fl Hfl)
      as (b' & h & w2 & Hb' & _ & Hrun & Hfc & He & Ha & Hd & _ & _).
    assert (b' = b) by congruence. subst b'.
    assert (Hcount : count fl <> 0).
    { destruct (resolvedFileList_created args w fl Hfl) as [files ->].
      rewrite createFileList_spec in *. simpl in *.
      intros Hzero. apply Hne. apply length_zero_iff_nil in Hzero.
      unfold fetchingFilesOf. simpl. now rewrite Hzero. }
    assert (Hf : fetchedFileMapOf args b (fromEntries (fileCache w)) fl = None).
    { unfold fetchedFileMapOf. apply nonEmpty_spec in Hne. now rewrite Hne. }
    rewrite Hrun,
      (loadFiles_fails parseEntryFiles parseAssetFiles args b (fileCache w) fl w2 Hcount Hf).
    simpl. repeat split; assumption.
Qed.

(** After a sync that ends normally, the load-complete flag is set, the
    stored commit hash is the hash the sync resolved, and
    [repository.branch] is the branch it worked on. *)
Theorem completed_sync_state (args : Args Meta) (w w' : World) :
  fetchAndParseFiles args w = (Some tt, w') ->
  dataLoaded w' = true
  /\ exists b h,
       resolvedBranch args w = Some b
       /\ resolvedHash args w = Some h
       /\ lastCommitHash w' = Some h
       /\ repositoryBranch w' = Some b.
Proof.
  intros Hrun. destruct (resolvedFileList args w) as [fl|] eqn:Hfl.
  - destruct (sync_resolved args w fl Hfl)
      as (b & h & w2 & Hb & Hh & Hrun' & _ & _ & _ & _ & Hhash & Hbranch).
    rewrite Hrun in Hrun'. symmetry in Hrun'.
    split; [now apply (loadFiles_Some args b (fileCache w) fl w2 w')|].
    exists b, h. repeat split; try assumption.
    + replace w' with (snd (loadFiles args b (fileCache w) fl w2)) by now rewrite Hrun'.
      now rewrite (proj1 (loadFiles_frame _ _ _ _ _ _ _)).
    + replace w' with (snd (loadFiles args b (fileCache w) fl w2)) by now rewrite Hrun'.
      rewrite (proj2 (loadFiles_frame _ _ _ _ _ _ _)), Hbranch.
      pose proof (resolveBranch_fields args w) as (_ & _ & _ & _ & _ & ->).
      unfold resolvedBranch in Hb.
      destruct (repositoryBranch w) as [s|]; simpl in *.
      * destruct (JS.truthy s); [congruence|]. now rewrite Hb.
      * now rewrite Hb.
  - destruct (sync_unresolved args w Hfl) as (Hnone & _). rewrite Hrun in Hnone. discriminate.
Qed.

(** The branch a sync resolved is the branch the next sync resolves. *)
Lemma resolvedBranch_next (args : Args Meta) (w v : World) (b : string) :
  resolvedBranch args w = Some b ->
  repositoryBranch v = repositoryBranch (snd (resolveBranch args w)) ->
  resolvedBranch args v = Some b.
Proof.
  intros Hb Hv. pose proof (resolveBranch_fields args w) as (_ & _ & _ & _ & _ & Hr).
  unfold resolvedBranch in *. rewrite Hv, Hr.
  destruct (JS.truthyOpt (repositoryBranch w)) eqn:Ht.
  - now rewrite Ht.
  - rewrite Hb. simpl. destruct (JS.truthy b); reflexivity.
Qed.

(** The gap left by a failed fetch: when a sync has resolved its file list
    and then fails (fetching the contents), the hash it resolved is stored
    while the cache is as before; with a non-empty hash and a non-empty
    cache, the next sync on the same repository takes the cache for current:
    it does not fetch the file list and classifies the records of the old
    cache. *)
Theorem failed_fetch_then_cache_hit (args : Args Meta) (w : World) (fl : FileList Meta)
    (h : string) :
  resolvedFileList args w = Some fl ->
  resolvedHash args w = Some h ->
  h <> EmptyString ->
  fileCache w <> [] ->
  fst (fetchAndParseFiles args w) = None ->
  let w' := snd (fetchAndParseFiles args w) in
  lastCommitHash w' = Some h
  /\ fileCache w' = fileCache w
  /\ resolvedFileList args w' = Some (cachedFileList (fileCache w))
  /\ forall b, ~ In (FetchFileList b) (callsDuring (fetchAndParseFiles args) w').
Proof.
  intros Hfl Hh Hne Hcache Hfail w'.
  destruct (sync_resolved args w fl Hfl)
    as (b & h' & w2 & Hb & Hh' & Hrun & Hfc & _ & _ & _ & Hhash & Hbranch).
  assert (h' = h) by congruence. subst h'.
  assert (Hw' : lastCommitHash w' = Some h /\ fileCache w' = fileCache w
                /\ repositoryBranch w' = repositoryBranch (snd (resolveBranch args w))).
  { subst w'. rewrite Hrun in *. apply loadFiles_None in Hfail. destruct Hfail as [_ ->].
    simpl. repeat split; assumption. }
  destruct Hw' as (Hhash' & Hfc' & Hbranch').
  pose proof (resolvedBranch_next args w w' b Hb Hbranch') as Hb'.
  assert (Hh'' : fetchLastCommitHash args b = Some h).
  { unfold resolvedHash in Hh. now rewrite Hb in Hh. }
  assert (Hcur : cacheIsCurrent (lastCommitHash w') h (fileCache w') = true).
  { apply cacheIsCurrent_spec. rewrite Hfc'. now repeat split. }
  repeat split; try assumption.
  - unfold resolvedFileList, resolvedHash. rewrite Hb', Hh'', Hcur. now rewrite Hfc'.
  - intros b' Hin. rewrite sync_calls_all in Hin. unfold syncCalls in Hin.
    rewrite Hb', Hh'' in Hin. unfold callsAfterHash in Hin. rewrite Hcur in Hin.
    apply in_app_or in Hin. destruct Hin as [Hin|[Hin|Hin]].
    + destruct (JS.truthyOpt (repositoryBranch w')); [destruct Hin|].
      destruct Hin as [H|[]]. discriminate.
    + discriminate.
    + apply loadCalls_kinds in Hin.
      destruct Hin as [(? & H & _)|[(? & H)|(? & H)]]; discriminate.
Qed.

(** What restoring from the cache does to a file: with a record of the same
    [sha] that carries commit information, the file has commit information
    afterwards; without a record of the same [sha], the file is left as it
    is. *)
Lemma restoreCached_cases (cachedFiles : gmap string (FileData Meta)) (file : ListItem Meta) :
  (forall record,
     cachedFiles !! itemPath file = Some record ->
     strictEq (JS.read (sha record)) (JS.read (sha (data (fileInfo file)))) = true ->
     JS.read (meta (data (fileInfo (restoreCached cachedFiles file))))
     = match meta record with
       | JS.Absent => JS.read (meta (data (fileInfo file)))
       | other => JS.read other
       end)
  /\ ((forall record,
         cachedFiles !! itemPath file = Some record ->
         strictEq (JS.read (sha record)) (JS.read (sha (data (fileInfo file)))) = false) ->
      restoreCached cachedFiles file = file).
Proof.
  unfold restoreCached. split.
  - intros record Hrec Hsha. rewrite Hrec. simpl. rewrite Hsha. simpl.
    now destruct (meta record).
  - intros Hno. destruct (cachedFiles !! itemPath file) as [record|] eqn:Hrec; simpl.
    + now rewrite (Hno record eq_refl).
    + match goal with |- (if ?c then _ else _) = _ => now destruct c end.
Qed.

Lemma restoreCached_sha (cachedFiles : gmap string (FileData Meta)) (file : ListItem Meta) :
  JS.read (sha (data (fileInfo (restoreCached cachedFiles file))))
  = JS.read (sha (data (fileInfo file))).
Proof.
  unfold restoreCached.
  destruct (cachedFiles !! itemPath file) as [record|] eqn:Hrec; simpl.
  - destruct (strictEq _ _) eqn:E; [|reflexivity]. simpl.
    destruct (sha record), (sha (data (fileInfo file))); simpl in *;
      try reflexivity; try discriminate.
    apply String.eqb_eq in E. now subst.
  - match goal with |- context [if ?c then _ else _] => now destruct c end.
Qed.

(** A file that lacks commit information after the restore was not vouched
    for by a record of the same [sha]. *)
Lemma restoreCached_lacks_meta (cachedFiles : gmap string (FileData Meta))
    (file : ListItem Meta) (record : FileData Meta) :
  cachedFiles !! itemPath file = Some record ->
  strictEq (JS.read (sha record)) (JS.read (sha (data (fileInfo file)))) = true ->
  lacksMeta (restoreCached cachedFiles file) = true ->
  JS.read (meta record) = None.
Proof.
  intros Hrec Hsha Hlacks. unfold lacksMeta in Hlacks.
  rewrite (proj1 (restoreCached_cases cachedFiles file) record Hrec Hsha) in Hlacks.
  destruct (meta record); simpl in *; [reflexivity | reflexivity | discriminate].
Qed.

Lemma syncCalls_contents (args : Args Meta) (w : World) (b : string)
    (files : list (ListItem Meta)) :
  In (FetchFileContents b files) (syncCalls args w) ->
  exists fl,
    resolvedFileList args w = Some fl
    /\ resolvedBranch args w = Some b
    /\ files = fetchingFilesOf (fromEntries (fileCache w)) fl
    /\ files <> [].
Proof.
  unfold syncCalls, resolvedFileList, resolvedHash. intros Hin.
  apply in_app_or in Hin. destruct Hin as [Hin|Hin].
  { destruct (JS.truthyOpt (repositoryBranch w)); [destruct Hin|].
    destruct Hin as [H|[]]. discriminate. }
  destruct (resolvedBranch args w) as [b0|]; [|destruct Hin].
  destruct Hin as [H|Hin]; [discriminate|].
  destruct (fetchLastCommitHash args b0) as [h|]; [|destruct Hin].
  unfold callsAfterHash in Hin.
  assert (Hload : forall fl, In (FetchFileContents b files)
                               (loadCalls args b0 (fileCache w) fl) ->
            b = b0 /\ files = fetchingFilesOf (fromEntries (fileCache w)) fl /\ files <> []).
  { intros fl. unfold loadCalls, deleteCalls.
    destruct (Nat.eqb (count fl) 0); [intros []|].
    destruct (nonEmpty (fetchingFilesOf _ fl)) eqn:Hne.
    - apply nonEmpty_spec in Hne. intros [[= -> <-]|H]; [now repeat split|].
      destruct (fetchFileContents args b0 _); [|destruct H].
      destruct H as [H|H]; [discriminate|].
      destruct (nonEmpty (unusedPathsOf _ _)); [|destruct H].
      destruct H as [H|[]]. discriminate.
    - destruct (nonEmpty (unusedPathsOf _ _)); [|intros []].
      intros [H|[]]. discriminate. }
  destruct (cacheIsCurrent (lastCommitHash w) h (fileCache w)).
  - destruct (Hload _ Hin) as (-> & Hf & Hne). eauto.
  - destruct Hin as [H|Hin]; [discriminate|].
    destruct (fetchFileList args b0) as [listed|]; [|destruct Hin].
    destruct Hin as [H|Hin]; [discriminate|].
    destruct (Hload _ Hin) as (-> & Hf & Hne). simpl. eauto.
Qed.

(** Only what the cache cannot vouch for is fetched: a file passed to
    [fetchFileContents] is a file of the resolved list that has no commit
    information after the restore, and if the cache holds a record under its
    path with the same [sha], that record has no commit information. *)
Theorem fetched_files_not_in_cache (args : Args Meta) (w : World) (b : string)
    (files : list (ListItem Meta)) (file : ListItem Meta) :
  In (FetchFileContents b files) (callsDuring (fetchAndParseFiles args) w) ->
  In file files ->
  (exists fl, resolvedFileList args w = Some fl
              /\ In (itemPath file) (List.map itemPath (allFiles fl)))
  /\ JS.read (meta (data (fileInfo file))) = None
  /\ forall record,
       fromEntries (fileCache w) !! itemPath file = Some record ->
       strictEq (JS.read (sha record)) (JS.read (sha (data (fileInfo file)))) = true ->
       JS.read (meta record) = None.
Proof.
  rewrite sync_calls_all. intros Hcall Hfile.
  destruct (syncCalls_contents args w b files Hcall) as (fl & Hfl & _ & -> & _).
  unfold fetchingFilesOf, restoreAll in Hfile. apply filter_In in Hfile.
  destruct Hfile as [Hin Hlacks]. apply in_map_iff in Hin. destruct Hin as (item & <- & Hitem).
  split; [|split].
  - exists fl. split; [assumption|]. rewrite restoreCached_path. now apply in_map.
  - unfold lacksMeta in Hlacks. now destruct (JS.read _).
  - intros record. rewrite restoreCached_path, restoreCached_sha.
    intros Hrec Hsha.
    now apply (restoreCached_lacks_meta (fromEntries (fileCache w)) item record).
Qed.

(** The garbage collection as the code does it: after a sync that ends
    normally on a non-empty file list, a path that had a record and is not a
    path of [allFiles] has no record; on an empty file list the cache is
    left exactly as it was. *)
Theorem unlisted_records_deleted (args : Args Meta) (w w' : World) (fl : FileList Meta) :
  fetchAndParseFiles args w = (Some tt, w') ->
  resolvedFileList args w = Some fl ->
  (count fl <> 0 ->
   forall p, In p (List.map fst (fileCache w)) ->
             ~ In p (List.map itemPath (allFiles fl)) ->
             getEntry p (fileCache w') = None)
  /\ (count fl = 0 -> fileCache w' = fileCache w).
Proof.
  intros Hrun Hfl.
  destruct (sync_resolved args w fl Hfl) as (b & h & w2 & _ & _ & Hrun' & Hfc & _).
  rewrite Hrun in Hrun'. symmetry in Hrun'.
  destruct (loadFiles_Some args b (fileCache w) fl w2 w' Hrun') as (_ & Hzero & Hpos).
  split.
  - intros Hcount p Hp Hnot. destruct (Hpos Hcount) as (fetched & _ & _ & _ & ->).
    rewrite getEntry_reconciledCache.
    rewrite (proj2 (includes_In _ _)); [reflexivity|]. now apply unusedPathsOf_In.
  - intros Hcount. destruct (Hzero Hcount) as (_ & _ & ->). assumption.
Qed.

(** A sync does not touch the record of a listed file it did not fetch:
    under a path of [allFiles] for which [fetchFileContents] returned
    nothing, the cache holds after the sync what it held before. *)
Theorem listed_records_kept (args : Args Meta) (w w' : World) (fl : FileList Meta)
    (b : string) (fetched : gmap string (FileData Meta)) :
  fetchAndParseFiles args w = (Some tt, w') ->
  resolvedFileList args w = Some fl ->
  resolvedBranch args w = Some b ->
  fetchedFileMapOf args b (fromEntries (fileCache w)) fl = Some fetched ->
  forall p, In p (List.map itemPath (allFiles fl)) ->
            fetched !! p = None ->
            getEntry p (fileCache w') = getEntry p (fileCache w).
Proof.
  intros Hrun Hfl Hb Hf p Hp Hnone.
  destruct (sync_resolved args w fl Hfl) as (b' & h & w2 & Hb' & _ & Hrun' & Hfc & _).
  assert (b' = b) by congruence. subst b'.
  rewrite Hrun in Hrun'. symmetry in Hrun'.
  destruct (loadFiles_Some args b (fileCache w) fl w2 w' Hrun') as (_ & Hzero & Hpos).
  destruct (Nat.eq_dec (count fl) 0) as [Hcount|Hcount].
  - destruct (Hzero Hcount) as (_ & _ & ->). now rewrite Hfc.
  - destruct (Hpos Hcount) as (fetched' & Hf' & _ & _ & ->).
    assert (fetched' = fetched) by congruence. subst fetched'.
    rewrite getEntry_reconciledCache, Hfc.
    assert (Hused : JS.includes (unusedPathsOf (fromEntries (fileCache w)) fl) p = false).
    { destruct (JS.includes _ p) eqn:E; [|reflexivity].
      apply includes_In, unusedPathsOf_In in E. tauto. }
    rewrite Hused. destruct (nonEmpty (fetchingFilesOf _ _)); [|reflexivity].
    apply getEntry_saveEntries_other. intros Hin. apply in_map_iff in Hin.
    destruct Hin as ([k r] & Hk & Hin). simpl in Hk. subst k.
    apply objectEntries_In in Hin. congruence.
Qed.

Lemma fromEntries_lookup_NoDup (es : list (string * FileData Meta)) (k : string)
    (r : FileData Meta) :
  List.NoDup (List.map fst es) -> In (k, r) es -> fromEntries es !! k = Some r.
Proof.
  induction es as [|e es IH] using rev_ind; [intros _ []|].
  rewrite map_app, fromEntries_snoc. simpl. intros Hnd Hin.
  apply NoDup_ListNoDup, NoDup_app in Hnd. destruct Hnd as (Hnd & Hdisj & _).
  apply in_app_or in Hin. destruct Hin as [Hin|[Heq|[]]].
  - rewrite lookup_insert_ne.
    + apply IH; [now apply NoDup_ListNoDup | assumption].
    + intros Heq. apply (Hdisj k).
      * apply list_elem_of_In, in_map_iff. now exists (k, r).
      * rewrite <- Heq. apply list_elem_of_In. now left.
  - subst e. simpl. apply lookup_insert_eq.
Qed.

Lemma assignField_self {A : Type} (x : JS.field A) : JS.assignField x x = x.
Proof. now destruct x. Qed.

(** On the list rebuilt from a cache that has one record per path, restoring
    from that cache changes no file: each file already is its record. *)
Theorem cache_hit_restores_nothing (entries : list (string * FileData Meta)) :
  List.NoDup (List.map fst entries) ->
  restoreAll (fromEntries entries) (allFiles (cachedFileList entries))
  = allFiles (cachedFileList entries).
Proof.
  intros Hnd. unfold restoreAll. rewrite <- (List.map_id (allFiles _)) at 2.
  apply map_ext_in. intros item Hin.
  apply (allFiles_from_input allEntryFolders allAssetFolders getFileExtension) in Hin.
  apply in_map_iff in Hin. destruct Hin as ([p r] & Hfi & He). simpl in Hfi.
  pose proof (fromEntries_lookup_NoDup entries p r Hnd He) as Hrec.
  destruct item as [[p' d] t]. simpl in Hfi. injection Hfi as <- <-.
  unfold restoreCached, itemPath. simpl. rewrite Hrec. simpl.
  assert (Hsha : strictEq (JS.read (sha r)) (JS.read (sha r)) = true).
  { destruct (JS.read (sha r)); simpl; [apply String.eqb_refl | reflexivity]. }
  rewrite Hsha. unfold assignData. simpl. rewrite !assignField_self. now destruct r.
Qed.

Lemma restoreCached_type (cachedFiles : gmap string (FileData Meta)) (file : ListItem Meta) :
  type (restoreCached cachedFiles file) = type file.
Proof.
  unfold restoreCached.
  destruct (cachedFiles !! itemPath file) as [record|]; simpl;
    match goal with |- context [if ?c then _ else _] => now destruct c end.
Qed.

Lemma read_written {A : Type} (o : option A) : JS.read (JS.written o) = o.
Proof. now destruct o. Qed.

(** The parsers are given the listed files, each once and in the order of
    the list, with the path, the configuration and the [sha] they were
    listed with; the [name] of an asset is the name of its path. *)
Theorem parsers_get_listed_files (args : Args Meta) (w w' : World) (fl : FileList Meta) :
  fetchAndParseFiles args w = (Some tt, w') ->
  resolvedFileList args w = Some fl ->
  count fl <> 0 ->
  exists es ass,
    allEntries w' = parseEntryFiles es
    /\ allAssets w' = parseAssetFiles ass
    /\ List.map (fun e => (itemPath e, type e, JS.read (sha (data (fileInfo e))))) es
       = List.map (fun e => (itemPath e, type e, JS.read (sha (data (fileInfo e)))))
           (entryFiles fl)
    /\ List.map (fun a => (itemPath (fst a), type (fst a),
                           JS.read (sha (data (fileInfo (fst a)))))) ass
       = List.map (fun e => (itemPath e, type e, JS.read (sha (data (fileInfo e)))))
           (assetFiles fl)
    /\ forall a, In a ass -> snd a = fileName (itemPath (fst a)).
Proof.
  intros Hrun Hfl Hcount.
  destruct (sync_resolved args w fl Hfl) as (b & h & w2 & _ & _ & Hrun' & _).
  rewrite Hrun in Hrun'. symmetry in Hrun'.
  destruct (loadFiles_Some args b (fileCache w) fl w2 w' Hrun') as (_ & _ & Hpos).
  destruct (Hpos Hcount) as (fetched & _ & He & Ha & _).
  exists (List.map (entryWithContents fetched)
            (restoreAll (fromEntries (fileCache w)) (entryFiles fl))),
         (List.map (assetWithContents fetched)
            (restoreAll (fromEntries (fileCache w)) (assetFiles fl))).
  split; [exact He|]. split; [exact Ha|]. unfold restoreAll. rewrite !map_map.
  split; [|split].
  - apply map_ext. intros x. unfold itemPath. simpl.
    fold (itemPath (restoreCached (fromEntries (fileCache w)) x)).
    now rewrite restoreCached_path, restoreCached_type, restoreCached_sha.
  - apply map_ext. intros x. unfold itemPath. simpl.
    fold (itemPath (restoreCached (fromEntries (fileCache w)) x)).
    now rewrite restoreCached_path, restoreCached_type, restoreCached_sha.
  - intros a Hin. apply in_map_iff in Hin. destruct Hin as (x & <- & _). reflexivity.
Qed.

(** The parsers get complete files when [fetchFileContents] does its part:
    if it returns, for every file it is asked for, a record with commit
    information, then every file given to a parser has commit
    information. *)
Theorem complete_files_reach_parsers (args : Args Meta) (w w' : World) (fl : FileList Meta)
    (b : string) (fetched : gmap string (FileData Meta)) :
  fetchAndParseFiles args w = (Some tt, w') ->
  resolvedFileList args w = Some fl ->
  resolvedBranch args w = Some b ->
  count fl <> 0 ->
  fetchedFileMapOf args b (fromEntries (fileCache w)) fl = Some fetched ->
  (forall file, In file (fetchingFilesOf (fromEntries (fileCache w)) fl) ->
                exists r, fetched !! itemPath file = Some r /\ JS.read (meta r) <> None) ->
  exists es ass,
    allEntries w' = parseEntryFiles es
    /\ allAssets w' = parseAssetFiles ass
    /\ (forall e, In e es -> JS.read (meta (data (fileInfo e))) <> None)
    /\ (forall a, In a ass -> JS.read (meta (data (fileInfo (fst a)))) <> None).
Proof.
  intros Hrun Hfl Hb Hcount Hf Hall.
  destruct (sync_resolved args w fl Hfl) as (b' & h & w2 & Hb' & _ & Hrun' & _).
  assert (b' = b) by congruence. subst b'.
  rewrite Hrun in Hrun'. symmetry in Hrun'.
  destruct (loadFiles_Some args b (fileCache w) fl w2 w' Hrun') as (_ & _ & Hpos).
  destruct (Hpos Hcount) as (fetched' & Hf' & He & Ha & _).
  assert (fetched' = fetched) by congruence. subst fetched'.
  set (cached := fromEntries (fileCache w)) in *.
  assert (Hmeta : forall x, In x (allFiles fl) ->
            JS.nullish (JS.read (meta (data (fileInfo (restoreCached cached x)))))
                       (JS.read (meta (fetchedFor fetched (restoreCached cached x))))
            <> None).
  { intros x Hx.
    destruct (JS.read (meta (data (fileInfo (restoreCached cached x))))) eqn:E;
      simpl; [discriminate|].
    assert (Hfetch : In (restoreCached cached x) (fetchingFilesOf cached fl)).
    { apply filter_In. split; [now apply in_map|]. unfold lacksMeta. now rewrite E. }
    destruct (Hall _ Hfetch) as (r & Hr & Hm). unfold fetchedFor. now rewrite Hr. }
  destruct (resolvedFileList_created args w fl Hfl) as [files Hfiles].
  assert (Hsub : forall x, In x (entryFiles fl) \/ In x (assetFiles fl) -> In x (allFiles fl)).
  { intros x Hx. rewrite Hfiles in *. rewrite createFileList_spec in *. simpl in *.
    apply in_or_app. exact Hx. }
  exists (List.map (entryWithContents fetched) (restoreAll cached (entryFiles fl))),
         (List.map (assetWithContents fetched) (restoreAll cached (assetFiles fl))).
  split; [exact He|]. split; [exact Ha|]. split.
  - intros e Hin. apply in_map_iff in Hin. destruct Hin as (y & <- & Hy).
    apply in_map_iff in Hy. destruct Hy as (x & <- & Hx).
    simpl. rewrite read_written. apply Hmeta, Hsub. now left.
  - intros a Hin. apply in_map_iff in Hin. destruct Hin as (y & <- & Hy).
    apply in_map_iff in Hy. destruct Hy as (x & <- & Hx).
    simpl. rewrite read_written. apply Hmeta, Hsub. now right.
Qed.

End SyncMore.

(** *** The further properties on the sample repository *)

(** Two descriptors of one post, with different data, are listed alike. *)
Lemma same_path_same_type_witness :
  let other := {| path := "content/posts/a.md"; data := Sample.cachedPost |} in
  let files := [Sample.file "content/posts/a.md"; other] in
  let x := Sample.postItem in
  let y := {| fileInfo := other; type := entry Sample.posts |} in
  let fl := createFileList [Sample.posts] [Sample.images] Sample.mdExtension files in
  In x (allFiles fl) /\ In y (allFiles fl) /\ type x = type y.
Proof.
  intros other files x y fl.
  assert (Hx : In x (allFiles fl)) by (vm_compute; left; reflexivity).
  assert (Hy : In y (allFiles fl)) by (vm_compute; right; left; reflexivity).
  split; [exact Hx|]. split; [exact Hy|].
  exact (same_path_same_type [Sample.posts] [Sample.images] Sample.mdExtension
           files x y Hx Hy eq_refl).
Defined.

(** The image of the scenario lies under the internal path of its folder. *)
Lemma asset_under_internalPath_witness :
  let item := {| fileInfo := Sample.file "static/images/cat.png";
                 type := asset Sample.images |} in
  exists config rest,
    type item = asset config
    /\ In config [Sample.images]
    /\ itemPath item = (internalPath config ++ String "/" rest)%string
    /\ (entryRelative config = false -> internalPath config <> EmptyString).
Proof.
  intros item.
  apply (asset_under_internalPath [Sample.posts] [Sample.images] Sample.mdExtension
           Sample.scenarioFiles item).
  vm_compute. left. reflexivity.
Defined.

(** The directory captured from the path of the image is its parent
    directory. *)
Lemma matchEnclosingDir_parentDirectory_witness :
  JS.matchEnclosingDir "static/images/cat.png" = Some "static/images" <->
  parentDirectory "static/images/cat.png" = Some "static/images"
  /\ "static/images" <> EmptyString.
Proof.
  exact (matchEnclosingDir_parentDirectory "static/images/cat.png" "static/images" eq_refl).
Defined.

(** On a current cache the commit hash is asked for. *)
Lemma commit_hash_always_asked_witness :
  let w := Sample.stores (Some "c0ffee") [("content/posts/a.md", Sample.cachedPost)] in
  let args := Sample.repository "c0ffee" [Sample.file "content/posts/a.md"] None in
  In (FetchLastCommitHash "main") (callsDuring (Sample.sync args) w).
Proof.
  intros w args.
  exact (proj1 (commit_hash_always_asked
                  [Sample.posts] [Sample.images] Sample.mdExtension
                  Sample.parseEntries Sample.parseAssets args w "main" eq_refl)).
Defined.

(** A sync on a moved repository whose contents cannot be fetched leaves the
    cache as it was. *)
Lemma failed_sync_publishes_nothing_witness :
  let w := Sample.stores (Some "c0ffee") [("content/posts/a.md", Sample.cachedPost)] in
  let args := Sample.repository "d00d1e" [Sample.file "content/posts/b.md"] None in
  fst (Sample.sync args w) = None
  /\ fileCache (snd (Sample.sync args w)) = fileCache w.
Proof.
  intros w args.
  assert (Hne : fetchingFilesOf (fromEntries (fileCache w))
                  (createFileList [Sample.posts] [Sample.images] Sample.mdExtension
                     [Sample.file "content/posts/b.md"]) <> [])
    by (vm_compute; discriminate).
  destruct (failed_sync_publishes_nothing
              [Sample.posts] [Sample.images] Sample.mdExtension
              Sample.parseEntries Sample.parseAssets args w
              (or_intror
                 (ex_intro _ (createFileList [Sample.posts] [Sample.images] Sample.mdExtension
                                [Sample.file "content/posts/b.md"])
                    (ex_intro _ "main"
                       (conj eq_refl (conj eq_refl (conj Hne eq_refl)))))))
    as (Hfail & _ & _ & _ & Hcache).
  split; [exact Hfail | exact Hcache].
Defined.

(** A first sync that ends normally. *)
Lemma completed_sync_state_witness :
  let w := Sample.stores None [] in
  let args := Sample.repository "d00d1e" [Sample.file "content/posts/a.md"]
                (Some {[ "content/posts/a.md" := Sample.cachedPost ]}) in
  dataLoaded (snd (Sample.sync args w)) = true.
Proof.
  intros w args.
  assert (Hrun : Sample.sync args w = (Some tt, snd (Sample.sync args w)))
    by (vm_compute; reflexivity).
  exact (proj1 (completed_sync_state
                  [Sample.posts] [Sample.images] Sample.mdExtension
                  Sample.parseEntries Sample.parseAssets
                  args w (snd (Sample.sync args w)) Hrun)).
Defined.

(** The sync that fails on fetching a new post, and the next one: the new
    hash is stored, the cache is the old one, and the listing is not
    fetched again. *)
Lemma failed_fetch_then_cache_hit_witness :
  let w := Sample.stores (Some "c0ffee") [("content/posts/a.md", Sample.cachedPost)] in
  let args := Sample.repository "d00d1e" [Sample.file "content/posts/b.md"] None in
  let w' := snd (Sample.sync args w) in
  lastCommitHash w' = Some "d00d1e"
  /\ fileCache w' = fileCache w
  /\ forall b, ~ In (FetchFileList b) (callsDuring (Sample.sync args) w').
Proof.
  intros w args w'.
  assert (Hfail : fst (Sample.sync args w) = None) by (vm_compute; reflexivity).
  assert (Hne : "d00d1e" <> EmptyString) by discriminate.
  assert (Hcache : fileCache w <> []) by discriminate.
  destruct (failed_fetch_then_cache_hit
              [Sample.posts] [Sample.images] Sample.mdExtension
              Sample.parseEntries Sample.parseAssets args w
              (createFileList [Sample.posts] [Sample.images] Sample.mdExtension
                 [Sample.file "content/posts/b.md"])
              "d00d1e" eq_refl eq_refl Hne Hcache Hfail)
    as (Hhash & Hfc & _ & Hcalls).
  split; [exact Hhash|]. split; [exact Hfc | exact Hcalls].
Defined.

(** The post fetched by a first sync had no commit information. *)
Lemma fetched_files_not_in_cache_witness :
  let w := Sample.stores None [] in
  let args := Sample.repository "d00d1e" [Sample.file "content/posts/a.md"]
                (Some {[ "content/posts/a.md" := Sample.cachedPost ]}) in
  In (FetchFileContents "main" [Sample.postItem]) (callsDuring (Sample.sync args) w)
  /\ JS.read (meta (data (fileInfo Sample.postItem))) = None.
Proof.
  intros w args.
  assert (Hcall : In (FetchFileContents "main" [Sample.postItem])
                     (callsDuring (Sample.sync args) w))
    by (vm_compute; do 3 right; left; reflexivity).
  split; [exact Hcall|].
  exact (proj1 (proj2 (fetched_files_not_in_cache
                         [Sample.posts] [Sample.images] Sample.mdExtension
                         Sample.parseEntries Sample.parseAssets
                         args w "main" [Sample.postItem] Sample.postItem
                         Hcall (or_introl eq_refl)))).
Defined.

(** A sync on a current cache that also holds the record of a text file
    that is not listed: the record is deleted. *)
Lemma unlisted_records_deleted_witness :
  let w := Sample.stores (Some "c0ffee")
             [("content/posts/a.md", Sample.cachedPost); ("notes.txt", Sample.cachedNote)] in
  let args := Sample.repository "c0ffee" [Sample.file "content/posts/a.md"] None in
  getEntry "notes.txt" (fileCache w) = Some Sample.cachedNote
  /\ getEntry "notes.txt" (fileCache (snd (Sample.sync args w))) = None.
Proof.
  intros w args. split; [reflexivity|].
  assert (Hrun : Sample.sync args w = (Some tt, snd (Sample.sync args w)))
    by (vm_compute; reflexivity).
  refine (proj1 (unlisted_records_deleted
                   [Sample.posts] [Sample.images] Sample.mdExtension
                   Sample.parseEntries Sample.parseAssets
                   args w (snd (Sample.sync args w))
                   (cachedFileList [Sample.posts] [Sample.images] Sample.mdExtension
                      (fileCache w))
                   Hrun eq_refl) _ "notes.txt" _ _).
  - discriminate.
  - right. left. reflexivity.
  - intros [H|[]]. discriminate H.
Defined.

(** In that sync the record of the post, which is listed and not fetched,
    stays as it is. *)
Lemma listed_records_kept_witness :
  let w := Sample.stores (Some "c0ffee")
             [("content/posts/a.md", Sample.cachedPost); ("notes.txt", Sample.cachedNote)] in
  let args := Sample.repository "c0ffee" [Sample.file "content/posts/a.md"] None in
  getEntry "content/posts/a.md" (fileCache (snd (Sample.sync args w)))
  = getEntry "content/posts/a.md" (fileCache w).
Proof.
  intros w args.
  assert (Hrun : Sample.sync args w = (Some tt, snd (Sample.sync args w)))
    by (vm_compute; reflexivity).
  refine (listed_records_kept
            [Sample.posts] [Sample.images] Sample.mdExtension
            Sample.parseEntries Sample.parseAssets
            args w (snd (Sample.sync args w))
            (cachedFileList [Sample.posts] [Sample.images] Sample.mdExtension (fileCache w))
            "main" ∅ Hrun eq_refl eq_refl eq_refl "content/posts/a.md" _ _).
  - left. reflexivity.
  - reflexivity.
Defined.

(** The list rebuilt from a cache of two records. *)
Lemma cache_hit_restores_nothing_witness :
  let entries := [("content/posts/a.md", Sample.cachedPost);
                  ("static/images/cat.png", Sample.cachedNote)] in
  let fl := cachedFileList [Sample.posts] [Sample.images] Sample.mdExtension entries in
  length (allFiles fl) = 2
  /\ restoreAll (fromEntries entries) (allFiles fl) = allFiles fl.
Proof.
  intros entries fl. split; [reflexivity|].
  apply (cache_hit_restores_nothing [Sample.posts] [Sample.images] Sample.mdExtension entries).
  simpl. distinct_strings.
Defined.

(** The first sync gives the parser the post it listed. *)
Lemma parsers_get_listed_files_witness :
  let w := Sample.stores None [] in
  let args := Sample.repository "d00d1e" [Sample.file "content/posts/a.md"]
                (Some {[ "content/posts/a.md" := Sample.cachedPost ]}) in
  exists es,
    allEntries (snd (Sample.sync args w)) = Sample.parseEntries es
    /\ List.map itemPath es = ["content/posts/a.md"].
Proof.
  intros w args.
  assert (Hrun : Sample.sync args w = (Some tt, snd (Sample.sync args w)))
    by (vm_compute; reflexivity).
  destruct (parsers_get_listed_files
              [Sample.posts] [Sample.images] Sample.mdExtension
              Sample.parseEntries Sample.parseAssets
              args w (snd (Sample.sync args w))
              (createFileList [Sample.posts] [Sample.images] Sample.mdExtension
                 [Sample.file "content/posts/a.md"])
              Hrun eq_refl)
    as (es & ass & He & _ & Hes & _).
  - discriminate.
  - exists es. split; [exact He|].
    apply (f_equal (List.map (fun k => fst (fst k)))) in Hes.
    rewrite !map_map in Hes. exact Hes.
Defined.

(** The first sync, whose fetch returns the record of the post with its
    commit information. *)
Lemma complete_files_reach_parsers_witness :
  let w := Sample.stores None [] in
  let args := Sample.repository "d00d1e" [Sample.file "content/posts/a.md"]
                (Some {[ "content/posts/a.md" := Sample.cachedPost ]}) in
  exists es,
    allEntries (snd (Sample.sync args w)) = Sample.parseEntries es
    /\ forall e, In e es -> JS.read (meta (data (fileInfo e))) <> None.
Proof.
  intros w args.
  assert (Hrun : Sample.sync args w = (Some tt, snd (Sample.sync args w)))
    by (vm_compute; reflexivity).
  destruct (complete_files_reach_parsers
              [Sample.posts] [Sample.images] Sample.mdExtension
              Sample.parseEntries Sample.parseAssets
              args w (snd (Sample.sync args w))
              (createFileList [Sample.posts] [Sample.images] Sample.mdExtension
                 [Sample.file "content/posts/a.md"])
              "main" {[ "content/posts/a.md" := Sample.cachedPost ]}
              Hrun eq_refl eq_refl)
    as (es & ass & He & _ & Hes & _).
  - discriminate.
  - reflexivity.
  - intros file [<-|[]]. exists Sample.cachedPost. split; [reflexivity | discriminate].
  - exists es. split; [exact He | exact Hes].
Defined.

(** ** Further properties of [getI18nConfig] *)

Section I18nMore.

Lemma assignField_again {A : Type} (t c f : JS.field A) :
  JS.assignField (JS.assignField (JS.assignField (JS.assignField t c) f) c) f
  = JS.assignField (JS.assignField t c) f.
Proof. now destruct f, c. Qed.

Lemma assignField_twice {A : Type} (t c : JS.field A) :
  JS.assignField (JS.assignField t c) c = JS.assignField t c.
Proof. now destruct c. Qed.

Lemma assign_twice (t c : I18n.Raw.RawI18nConfig) :
  I18n.assign (I18n.assign t c) c = I18n.assign t c.
Proof. unfold I18n.assign. simpl. now rewrite !assignField_twice. Qed.

Lemma assign_again (t c f : I18n.Raw.RawI18nConfig) :
  I18n.assign (I18n.assign (I18n.assign (I18n.assign t c) f) c) f
  = I18n.assign (I18n.assign t c) f.
Proof. unfold I18n.assign. simpl. now rewrite !assignField_again. Qed.

Lemma assignIfObject_twice (t : I18n.Raw.RawI18nConfig) (c : I18n.I18nValue) :
  I18n.assignIfObject (I18n.assignIfObject t c) c = I18n.assignIfObject t c.
Proof.
  unfold I18n.assignIfObject. destruct (I18n.isObject c); [apply assign_twice | reflexivity].
Qed.

Lemma assignIfObject_again (t : I18n.Raw.RawI18nConfig) (c f : I18n.I18nValue) :
  I18n.assignIfObject
    (I18n.assignIfObject (I18n.assignIfObject (I18n.assignIfObject t c) f) c) f
  = I18n.assignIfObject (I18n.assignIfObject t c) f.
Proof.
  unfold I18n.assignIfObject. destruct (I18n.isObject c), (I18n.isObject f);
    [apply assign_again | apply assign_twice | apply assign_twice | reflexivity].
Qed.

(** The configuration [getI18nConfig] returns is the normalization of some
    object, or of none. *)
Lemma getI18nConfig_normalized (collection : option I18n.RawCollection)
    (file : option I18n.RawCollectionFile) (siteConfig : option I18n.SiteConfig) :
  exists config,
    fst (I18n.getI18nConfig collection file siteConfig)
    = I18n.normalize config (match file with Some _ => true | None => false end).
Proof.
  unfold I18n.getI18nConfig.
  destruct (I18n.isObject _); [|now eexists].
  destruct (I18n.truthy _); [|now eexists].
  destruct file as [f|]; [|now eexists].
  destruct (I18n.truthy (I18n.fileI18n f)); now eexists.
Qed.

(** The returned configuration is well formed, whatever the site, the
    collection and the file say: there is at least one locale, the default
    locale is one of the locales, a configuration with i18n off has the
    single locale [_default], and a collection file has the structure
    [single_file]. *)
Theorem getI18nConfig_well_formed (collection : option I18n.RawCollection)
    (file : option I18n.RawCollectionFile) (siteConfig : option I18n.SiteConfig) :
  let config := fst (I18n.getI18nConfig collection file siteConfig) in
  I18n.locales config <> []
  /\ In (I18n.defaultLocale config) (I18n.locales config)
  /\ (I18n.i18nEnabled config = false ->
      I18n.locales config = ["_default"] /\ I18n.defaultLocale config = "_default")
  /\ (file <> None -> I18n.structure config = "single_file").
Proof.
  destruct (getI18nConfig_normalized collection file siteConfig) as [raw Hraw].
  cbv zeta. rewrite Hraw. unfold I18n.normalize. simpl.
  destruct (default [] _) as [|l ls] eqn:Hl; simpl.
  - repeat split; [discriminate | now left | now destruct file].
  - split; [discriminate|]. split; [|split; [discriminate | now destruct file]].
    destruct (JS.truthyOpt _ && _) eqn:E; [|now left].
    apply andb_true_iff in E. destruct E as [_ E].
    apply orb_true_iff in E. destruct E as [E|E].
    + left. apply String.eqb_eq in E. now symmetry.
    + right. now apply includes_In.
Qed.

(** With i18n off, for the site (its [i18n] is not an object) or for the
    collection (its [i18n] is missing or [false]), the result is
    [defaultI18nConfig] and the site configuration is left as it is. *)
Theorem i18n_off_gives_default (collection : option I18n.RawCollection)
    (file : option I18n.RawCollectionFile) (siteConfig : option I18n.SiteConfig) :
  I18n.isObject (match siteConfig with
                 | Some s => I18n.siteI18n s
                 | None => I18n.I18nUndefined
                 end) = false
  \/ I18n.truthy (match collection with
                  | Some c => I18n.collectionI18n c
                  | None => I18n.I18nUndefined
                  end) = false ->
  I18n.getI18nConfig collection file siteConfig = (I18n.defaultI18nConfig, siteConfig).
Proof.
  unfold I18n.getI18nConfig. intros [H|H].
  - rewrite H. now destruct file.
  - rewrite H. destruct (I18n.isObject _); now destruct file.
Qed.

(** A collection file without [i18n] gets [defaultI18nConfig], and the site
    configuration is written as by the call for the collection alone. *)
Theorem file_without_i18n_gets_default (collection : option I18n.RawCollection)
    (f : I18n.RawCollectionFile) (siteConfig : option I18n.SiteConfig) :
  I18n.truthy (I18n.fileI18n f) = false ->
  I18n.getI18nConfig collection (Some f) siteConfig
  = (I18n.defaultI18nConfig, snd (I18n.getI18nConfig collection None siteConfig)).
Proof.
  intros Hf. unfold I18n.getI18nConfig. rewrite Hf. clear Hf.
  destruct (I18n.isObject _); [|reflexivity].
  destruct (I18n.truthy _); reflexivity.
Qed.

(** Asking twice is asking once: a second call with the same collection and
    file returns what the first returned and leaves the site configuration
    as the first call left it. *)
Theorem getI18nConfig_twice (collection : option I18n.RawCollection)
    (file : option I18n.RawCollectionFile) (siteConfig : option I18n.SiteConfig) :
  I18n.getI18nConfig collection file
    (snd (I18n.getI18nConfig collection file siteConfig))
  = I18n.getI18nConfig collection file siteConfig.
Proof.
  destruct siteConfig as [[site]|]; [|reflexivity].
  destruct site as [|bs|o]; [reflexivity|reflexivity|].
  destruct collection as [[cv]|]; [|reflexivity].
  unfold I18n.getI18nConfig.
  cbn [I18n.siteI18n I18n.collectionI18n I18n.isObject I18n.asObject].
  destruct (I18n.truthy cv); [|reflexivity].
  destruct file as [f|].
  - destruct (I18n.truthy (I18n.fileI18n f));
      cbn [snd I18n.siteI18n I18n.isObject I18n.asObject].
    + now rewrite assignIfObject_again.
    + now rewrite assignIfObject_twice.
  - cbn [snd I18n.siteI18n I18n.isObject I18n.asObject].
    now rewrite assignIfObject_twice.
Qed.

(** The locales of a collection file win over those of the collection and
    of the site: when the [i18n] object of the file lists locales, they are
    the locales of the result; and the structure is [single_file] whatever
    the three objects say. *)
Theorem file_locales_take_precedence (site : I18n.SiteConfig)
    (collection : I18n.RawCollection) (f : I18n.RawCollectionFile)
    (o : I18n.Raw.RawI18nConfig) (ls : list string) :
  I18n.isObject (I18n.siteI18n site) = true ->
  I18n.truthy (I18n.collectionI18n collection) = true ->
  I18n.fileI18n f = I18n.I18nObject o ->
  I18n.Raw.locales o = JS.Value ls ->
  ls <> [] ->
  let config := fst (I18n.getI18nConfig (Some collection) (Some f) (Some site)) in
  I18n.locales config = ls
  /\ I18n.i18nEnabled config = true
  /\ I18n.structure config = "single_file".
Proof.
  intros Hs Hc Hf Hl Hne. unfold I18n.getI18nConfig. rewrite Hs, Hc, Hf. simpl.
  unfold I18n.assignIfObject at 1. simpl. rewrite Hl. simpl.
  destruct ls as [|l ls]; [congruence|]. repeat split.
Qed.

End I18nMore.

(** A site without i18n. *)
Lemma i18n_off_gives_default_witness :
  I18n.getI18nConfig (Some Sample.blog) None (Some {| I18n.siteI18n := I18n.I18nUndefined |})
  = (I18n.defaultI18nConfig, Some {| I18n.siteI18n := I18n.I18nUndefined |}).
Proof.
  exact (i18n_off_gives_default (Some Sample.blog) None
           (Some {| I18n.siteI18n := I18n.I18nUndefined |}) (or_introl eq_refl)).
Defined.

(** A file of [blog] without [i18n]: the default configuration is returned,
    and the site configuration is changed all the same. *)
Lemma file_without_i18n_gets_default_witness :
  let f := {| I18n.fileI18n := I18n.I18nUndefined |} in
  fst (I18n.getI18nConfig (Some Sample.blog) (Some f) (Some Sample.siteConfig))
  = I18n.defaultI18nConfig
  /\ snd (I18n.getI18nConfig (Some Sample.blog) (Some f) (Some Sample.siteConfig))
     <> Some Sample.siteConfig.
Proof.
  intros f.
  pose proof (file_without_i18n_gets_default (Some Sample.blog) f
                (Some Sample.siteConfig) eq_refl) as H.
  split.
  - exact (f_equal fst H).
  - rewrite (f_equal snd H). discriminate.
Defined.

(** A file of [docs] with locales of its own. *)
Lemma file_locales_take_precedence_witness :
  let o := {| I18n.Raw.structure := JS.Value "multiple_folders";
              I18n.Raw.locales := JS.Value ["de"];
              I18n.Raw.default_locale := JS.Absent;
              I18n.Raw.save_all_locales := JS.Absent |} in
  let f := {| I18n.fileI18n := I18n.I18nObject o |} in
  let config := fst (I18n.getI18nConfig (Some Sample.docs) (Some f) (Some Sample.siteConfig)) in
  I18n.locales config = ["de"]
  /\ I18n.i18nEnabled config = true
  /\ I18n.structure config = "single_file".
Proof.
  intros o f.
  refine (file_locales_take_precedence Sample.siteConfig Sample.docs f o ["de"]
            eq_refl eq_refl eq_refl eq_refl _).
  discriminate.
Defined.
